(** * projanitor: a shallow embedding of [src/projanitor.py]

    The development follows the program top to bottom: text and path
    helpers ([str] methods and [pathlib]), the three reference patterns
    ([re.findall]), the directory tree the program observes, the root
    locator [find_project_root], the catalog pass [analyze_project_files],
    the classifier and report [generate_report], and [main].

    Text is modelled in the ASCII range: a [string] is the decoded text of
    a name or of a line. Output to stderr (the [verbose] warnings) changes
    no result and is left out. A call that raises an exception which no
    handler of the program catches ends the function, and with it the
    process: such calls return [Raised]. *)

From Stdlib Require Import Ascii String.
From stdpp Require Import base option list sorting gmap strings.

Local Open Scope string_scope.
Local Open Scope list_scope.
Local Open Scope nat_scope.

(** ** Characters and text *)

Module Text.

Definition code (c : ascii) : N := N_of_ascii c.

Definition between (lo hi : N) (c : ascii) : bool :=
  ((lo <=? code c) && (code c <=? hi))%N.

Definition dquote : ascii := ascii_of_N 34.
Definition newline : ascii := ascii_of_N 10.
Definition nul : ascii := ascii_of_N 0.

Definition is_lower (c : ascii) : bool := between 97 122 c.
Definition is_upper (c : ascii) : bool := between 65 90 c.
Definition is_digit (c : ascii) : bool := between 48 57 c.
Definition is_alnum (c : ascii) : bool := is_lower c || is_upper c || is_digit c.

(** [\s] of [re] on [str], restricted to the ASCII range. *)
Definition is_space (c : ascii) : bool :=
  between 9 13 c || between 28 31 c || (code c =? 32)%N.

(** [\w] of [re] on [str], restricted to the ASCII range. *)
Definition is_word (c : ascii) : bool := is_alnum c || (code c =? 95)%N.

Definition is_char (a c : ascii) : bool := bool_decide (a = c).

Definition lower_char (c : ascii) : ascii :=
  if is_upper c then ascii_of_N (code c + 32) else c.

(** [str.lower] *)
Fixpoint lower (s : string) : string :=
  match s with
  | EmptyString => EmptyString
  | String c s' => String (lower_char c) (lower s')
  end.

(** [str.startswith] *)
Definition startswith (s pre : string) : bool := String.prefix pre s.

(** [s[n:]] *)
Fixpoint drop_chars (n : nat) (s : string) : string :=
  match n, s with
  | O, _ => s
  | S _, EmptyString => EmptyString
  | S n', String _ s' => drop_chars n' s'
  end.

(** [s[:n]] *)
Fixpoint take_chars (n : nat) (s : string) : string :=
  match n, s with
  | O, _ => EmptyString
  | S _, EmptyString => EmptyString
  | S n', String c s' => String c (take_chars n' s')
  end.

(** [str.endswith] *)
Definition endswith (s suf : string) : bool :=
  bool_decide (drop_chars (String.length s - String.length suf) s = suf).

(** [s.split(sep)] for a one-character separator: the pieces between
    separators, empty pieces kept. *)
Fixpoint split_on (sep : ascii) (s : string) : list string :=
  match s with
  | EmptyString => [EmptyString]
  | String c s' =>
      if is_char sep c then EmptyString :: split_on sep s'
      else match split_on sep s' with
           | piece :: rest => String c piece :: rest
           | [] => [String c EmptyString]
           end
  end.

(** [sep.join(pieces)] *)
Fixpoint join (sep : string) (pieces : list string) : string :=
  match pieces with
  | [] => EmptyString
  | [p] => p
  | p :: rest => p +:+ sep +:+ join sep rest
  end.

(** Every character of [s] is in the class. *)
Fixpoint all_chars (cls : ascii → bool) (s : string) : bool :=
  match s with
  | EmptyString => true
  | String c s' => cls c && all_chars cls s'
  end.

(** [c in s] for a character [c]. *)
Definition has_char (c : ascii) (s : string) : bool :=
  negb (all_chars (λ a, negb (is_char c a)) s).

(** Code-point order on text, as [<=] on [str]. *)
Definition str_le (a b : string) : Prop := String.leb a b = true.

#[export] Instance str_le_dec a b : Decision (str_le a b).
Proof. unfold str_le. apply _. Defined.

End Text.

(** ** Paths ([pathlib.PurePosixPath])

    An absolute path is the list of its components below the filesystem
    root; [[]] is the root directory itself. A path that has not been
    resolved may hold [..] components. The two-slash root of POSIX is not
    modelled. *)

Abbreviation path := (list string).

Module PurePath.

(** [p.parts]: the anchor, then the components. *)
Definition parts (p : path) : list string := "/" :: p.

(** [p.name]: the final component, empty for the root. *)
Definition name (p : path) : string := default EmptyString (last p).

(** [p.parent]: the root is its own parent. *)
Definition parent (p : path) : path := removelast p.

(** The text of [s] from its last dot on, when it has a dot. *)
Fixpoint from_last_dot (s : string) : option string :=
  match s with
  | EmptyString => None
  | String c s' =>
      match from_last_dot s' with
      | Some t => Some t
      | None => if Text.is_char "." c then Some s else None
      end
  end.

(** [name[i:]] for [i = name.rfind('.')] when [0 < i < len(name) - 1],
    otherwise the empty text. *)
Definition name_suffix (nm : string) : string :=
  match nm with
  | EmptyString => EmptyString
  | String _ rest =>
      match from_last_dot rest with
      | Some t => if bool_decide (t = ".") then EmptyString else t
      | None => EmptyString
      end
  end.

(** [p.suffix] *)
Definition suffix (p : path) : string := name_suffix (name p).

Definition kept_component (c : string) : bool :=
  negb (bool_decide (c = EmptyString)) && negb (bool_decide (c = ".")).

(** The components of a path written as text: empty pieces and [.] are
    dropped when a path is parsed, [..] is kept. *)
Definition components (s : string) : list string :=
  List.filter kept_component (Text.split_on "/" s).

(** [base / ref]: an absolute [ref] replaces [base]. *)
Definition joinpath (base : path) (ref : string) : path :=
  (if Text.startswith ref "/" then [] else base) ++ components ref.

(** [str(p)] *)
Definition str (p : path) : string := "/" +:+ Text.join "/" p.

(** [str(p.relative_to(root))] for [p] below [root]. *)
Definition relative_str (p root : path) : string :=
  match drop (length root) p with
  | [] => "."
  | rel => Text.join "/" rel
  end.

(** The order of [sorted] on paths: the part lists compared as Python
    compares lists, component by component in code-point order. *)
Fixpoint parts_leb (a b : list string) : bool :=
  match a, b with
  | [], _ => true
  | _ :: _, [] => false
  | x :: a', y :: b' =>
      if String.eqb x y then parts_leb a' b' else String.leb x y
  end.

Definition path_le (a b : path) : Prop := parts_leb a b = true.

#[export] Instance path_le_dec a b : Decision (path_le a b).
Proof. unfold path_le. apply _. Defined.

End PurePath.

Import Text PurePath.

(** [sorted] on a list of texts and on a list (or set) of paths. *)
Definition sorted_str (l : list string) : list string := merge_sort str_le l.
Definition sorted_paths (l : list path) : list path := merge_sort path_le l.

(** ** Patterns ([re])

    The program's patterns are sequences of literals, character classes,
    repeated classes (greedy or lazy), an alternation of literals, word
    boundaries and one capture group. [match_here] is the backtracking
    matcher of [re] on such a sequence: choices are tried in the order
    [re] tries them and the first complete match wins. *)

Module Re.

Inductive atom : Type :=
| Lit (s : string)                 (* literal text *)
| LitI (s : string)                (* literal text under re.IGNORECASE; [s] in lower case *)
| Cls (cls : ascii → bool)         (* one character of a class *)
| Rep (greedy : bool) (least : nat) (cls : ascii → bool)
                                   (* a class repeated: [*], [+], [*?] *)
| AltLit (alts : list string)      (* (?:a|b|...) over literals *)
| WordB                            (* \b *)
| GOpen                            (* ( *)
| GClose.                          (* ) *)

(** The last character of non-empty [s], else [prev]. *)
Fixpoint last_char (prev : option ascii) (s : string) : option ascii :=
  match s with
  | EmptyString => prev
  | String c s' => last_char (Some c) s'
  end.

(** What is left of [s] after the literal [lit]. *)
Fixpoint strip (lit s : string) : option string :=
  match lit, s with
  | EmptyString, _ => Some s
  | String a lit', String c s' => if is_char a c then strip lit' s' else None
  | String _ _, EmptyString => None
  end.

Fixpoint strip_nocase (lit s : string) : option string :=
  match lit, s with
  | EmptyString, _ => Some s
  | String a lit', String c s' =>
      if is_char a (lower_char c) then strip_nocase lit' s' else None
  | String _ _, EmptyString => None
  end.

Section Matcher.
Context {R : Type}.
(** The rest of the pattern: it receives the character before the
    current position and the text from the current position on. *)
Abbreviation cont := (option ascii → string → option R).

Fixpoint rep_greedy (cls : ascii → bool) (prev : option ascii) (s : string)
    (k : cont) : option R :=
  match s with
  | String c s' =>
      if cls c then
        match rep_greedy cls (Some c) s' k with
        | Some r => Some r
        | None => k prev s
        end
      else k prev s
  | EmptyString => k prev s
  end.

Fixpoint rep_lazy (cls : ascii → bool) (prev : option ascii) (s : string)
    (k : cont) : option R :=
  match k prev s with
  | Some r => Some r
  | None =>
      match s with
      | String c s' => if cls c then rep_lazy cls (Some c) s' k else None
      | EmptyString => None
      end
  end.

Fixpoint rep (greedy : bool) (least : nat) (cls : ascii → bool)
    (prev : option ascii) (s : string) (k : cont) : option R :=
  match least with
  | O => if greedy then rep_greedy cls prev s k else rep_lazy cls prev s k
  | S least' =>
      match s with
      | String c s' =>
          if cls c then rep greedy least' cls (Some c) s' k else None
      | EmptyString => None
      end
  end.

Fixpoint alt_lit (alts : list string) (prev : option ascii) (s : string)
    (k : cont) : option R :=
  match alts with
  | [] => None
  | a :: alts' =>
      match strip a s with
      | Some s' =>
          match k (last_char prev a) s' with
          | Some r => Some r
          | None => alt_lit alts' prev s k
          end
      | None => alt_lit alts' prev s k
      end
  end.
End Matcher.

Definition at_boundary (prev : option ascii) (s : string) : bool :=
  xorb (from_option is_word false prev)
       (match s with String c _ => is_word c | EmptyString => false end).

(** [match_here pat prev s gopen cap]: match [pat] at the start of [s].
    [gopen] is the text from where the group opened, [cap] what the group
    captured. The result is the capture and the text after the match. *)
Fixpoint match_here (pat : list atom) (prev : option ascii) (s : string)
    (gopen cap : string) : option (string * string) :=
  match pat with
  | [] => Some (cap, s)
  | Lit l :: pat' =>
      match strip l s with
      | Some s' => match_here pat' (last_char prev l) s' gopen cap
      | None => None
      end
  | LitI l :: pat' =>
      match strip_nocase l s with
      | Some s' =>
          match_here pat'
            (last_char prev (take_chars (String.length l) s)) s' gopen cap
      | None => None
      end
  | Cls cls :: pat' =>
      match s with
      | String c s' => if cls c then match_here pat' (Some c) s' gopen cap else None
      | EmptyString => None
      end
  | Rep g least cls :: pat' =>
      rep g least cls prev s (λ prev' s', match_here pat' prev' s' gopen cap)
  | AltLit alts :: pat' =>
      alt_lit alts prev s (λ prev' s', match_here pat' prev' s' gopen cap)
  | WordB :: pat' =>
      if at_boundary prev s then match_here pat' prev s gopen cap else None
  | GOpen :: pat' => match_here pat' prev s s cap
  | GClose :: pat' =>
      match_here pat' prev s gopen
        (take_chars (String.length gopen - String.length s) gopen)
  end.

(** The scan of [re.findall] and [re.search]: try a match at each
    position from the left; after a match that used [n] characters the
    scan goes on behind it ([skip] counts the characters still to pass).
    None of the program's patterns matches the empty text. *)
Fixpoint scan (pat : list atom) (prev : option ascii) (s : string)
    (skip : nat) : list string :=
  match s with
  | EmptyString => []
  | String c s' =>
      match skip with
      | S skip' => scan pat (Some c) s' skip'
      | O =>
          match match_here pat prev s EmptyString EmptyString with
          | Some (cap, rest) =>
              cap :: scan pat (Some c) s' (String.length s - String.length rest - 1)
          | None => scan pat (Some c) s' 0
          end
      end
  end.

(** [re.findall(pat, s)] for a pattern with one group. *)
Definition findall (pat : list atom) (s : string) : list string :=
  scan pat None s 0.

(** [re.search(pat, s)], as the first group of the first match. *)
Definition search (pat : list atom) (s : string) : option string :=
  head (findall pat s).

End Re.

(** ** The program's patterns *)

Definition not_dquote (c : ascii) : bool := negb (is_char dquote c).

(** [#\s*include\s*Q([^Q]+)Q], writing Q for the double-quote character *)
Definition include_pattern : list Re.atom :=
  [Re.Lit "#"; Re.Rep true 0 is_space; Re.Lit "include"; Re.Rep true 0 is_space;
   Re.Cls (is_char dquote); Re.GOpen; Re.Rep true 1 not_dquote; Re.GClose;
   Re.Cls (is_char dquote)].

Definition cmake_name_char (c : ascii) : bool :=
  is_alnum c || is_char "_" c || is_char "." c || is_char "-" c.

(** [\b([a-zA-Z0-9][a-zA-Z0-9_.-]*?\.(?:c|h|sh|py|json|md|cmake))\b] *)
Definition cmake_pattern : list Re.atom :=
  [Re.WordB; Re.GOpen; Re.Cls is_alnum; Re.Rep false 0 cmake_name_char;
   Re.Lit "."; Re.AltLit ["c"; "h"; "sh"; "py"; "json"; "md"; "cmake"];
   Re.GClose; Re.WordB].

(** [from\s+([a-zA-Z0-9_.-]+)\s+import] *)
Definition import_pattern : list Re.atom :=
  [Re.Lit "from"; Re.Rep true 1 is_space; Re.GOpen;
   Re.Rep true 1 cmake_name_char; Re.GClose; Re.Rep true 1 is_space;
   Re.Lit "import"].

(** [project\s*\(\s*(\w+)\s*\)] with [re.IGNORECASE] *)
Definition project_pattern : list Re.atom :=
  [Re.LitI "project"; Re.Rep true 0 is_space; Re.Lit "("; Re.Rep true 0 is_space;
   Re.GOpen; Re.Rep true 1 is_word; Re.GClose; Re.Rep true 0 is_space; Re.Lit ")"].

(** ** Exceptions

    The exceptions that the calls of the program raise on the trees
    modelled here. [Raised e] is the call that ends by raising [e]. *)

Inductive exn : Type :=
| FileNotFoundError
| IsADirectoryError
| OSError
| RuntimeError
| ValueError.

Inductive outcome (A : Type) : Type :=
| Done (a : A)
| Raised (e : exn).
Arguments Done {A} a.
Arguments Raised {A} e.

(** A loop whose body may raise: the exception leaves the loop. *)
Fixpoint foldM {A B : Type} (f : A → B → outcome A) (l : list B) (a : A) : outcome A :=
  match l with
  | [] => Done a
  | x :: l' =>
      match f a x with
      | Done a' => foldM f l' a'
      | Raised e => Raised e
      end
  end.

Definition outcome_map {A B : Type} (f : A → B) (o : outcome A) : outcome B :=
  match o with
  | Done a => Done (f a)
  | Raised e => Raised e
  end.

(** ** The directory tree

    What the program observes of the filesystem. A regular file holds the
    lines that iterating over it yields before the iteration ends or
    raises (none when it cannot be opened or decoded at all): the lines
    read before an error have already been processed when the error is
    caught. A symbolic link holds the canonical path of what it points
    to; a link whose target is again a link is one that no resolution
    gets through, as a link that leads back to itself. A directory holds
    its entries in the order a listing yields them, and a flag telling
    whether listing it succeeds (read permission). Search permission is
    taken as granted on every directory: a query about a path ([stat],
    [open]) is answered from what lies at the path. *)

#[local] Unset Elimination Schemes.
Inductive node : Type :=
| File (lines : list string)
| Link (target : path)
| Dir (listable : bool) (entries : list (string * node)).
#[local] Set Elimination Schemes.

Module FS.

(** The first entry called [nm]. *)
Fixpoint entry (nm : string) (es : list (string * node)) : option node :=
  match es with
  | [] => None
  | (nm', n) :: es' => if bool_decide (nm' = nm) then Some n else entry nm es'
  end.

(** The node at a canonical path, links not followed. *)
Fixpoint lookup (fs : node) (p : path) : option node :=
  match p with
  | [] => Some fs
  | c :: p' =>
      match fs with
      | Dir _ es =>
          match entry c es with
          | Some n => lookup n p'
          | None => None
          end
      | _ => None
      end
  end.

(** The node a path stands for, a final link followed ([os.stat]). *)
Definition stat (fs : node) (p : path) : option node :=
  match lookup fs p with
  | Some (Link t) => lookup fs t
  | other => other
  end.

Definition is_file (fs : node) (p : path) : bool :=
  match stat fs p with Some (File _) => true | _ => false end.

Definition is_dir (fs : node) (p : path) : bool :=
  match stat fs p with Some (Dir _ _) => true | _ => false end.

Definition is_symlink (fs : node) (p : path) : bool :=
  match lookup fs p with Some (Link _) => true | _ => false end.

(** [os.readlink] *)
Definition readlink (fs : node) (p : path) : option path :=
  match lookup fs p with Some (Link t) => Some t | _ => None end.

(** [p.iterdir()]: the children in listing order; [None] when listing
    raises (not a directory, or not listable). *)
Definition iterdir (fs : node) (p : path) : option (list path) :=
  match stat fs p with
  | Some (Dir true es) => Some (map (λ e, p ++ [e.1]) es)
  | _ => None
  end.

(** The lines of the regular file at [p], none when [p] is no regular
    file. *)
Definition read_lines (fs : node) (p : path) : list string :=
  match stat fs p with Some (File ls) => ls | _ => [] end.

(** [open(p, "r")] and the iteration over the lines: a directory cannot
    be opened for reading, nor can a link that leads nowhere or back to
    itself. *)
Definition open_lines (fs : node) (p : path) : outcome (list string) :=
  match lookup fs p with
  | Some (Link t) =>
      match lookup fs t with
      | Some (File ls) => Done ls
      | Some (Dir _ _) => Raised IsADirectoryError
      | Some (Link _) => Raised OSError
      | None => Raised FileNotFoundError
      end
  | Some (File ls) => Done ls
  | Some (Dir _ _) => Raised IsADirectoryError
  | None => Raised FileNotFoundError
  end.

(** One step of path resolution: [..] drops the last component, a link
    is replaced by what it points to, any other name is appended whether
    or not it exists. *)
Definition resolve_step (fs : node) (cur : path) (c : string) : path :=
  if bool_decide (c = "..") then parent cur
  else match readlink fs (cur ++ [c]) with
       | Some t => t
       | None => cur ++ [c]
       end.

(** [os.path.realpath]: the path resolved as far as possible. *)
Definition realpath (fs : node) (p : path) : path :=
  fold_left (resolve_step fs) p [].

(** One step of [Path.resolve(strict)]: a link that no resolution gets
    through raises [RuntimeError]; a name that does not exist, or a link
    that leads nowhere, raises [FileNotFoundError] in strict mode only. *)
Definition checked_step (strict : bool) (fs : node) (cur : path) (c : string)
    : outcome path :=
  if bool_decide (c = "..") then Done (parent cur)
  else match lookup fs (cur ++ [c]) with
       | Some (Link t) =>
           match lookup fs t with
           | Some (Link _) => Raised RuntimeError
           | Some _ => Done t
           | None => if strict then Raised FileNotFoundError else Done t
           end
       | Some _ => Done (cur ++ [c])
       | None => if strict then Raised FileNotFoundError else Done (cur ++ [c])
       end.

(** [Path.resolve(strict)], as Python 3.10 to 3.12 run it: a path that
    holds a NUL character raises [ValueError] at the first system call
    made on it. *)
Definition resolve (strict : bool) (fs : node) (p : path) : outcome path :=
  if existsb (has_char nul) p then Raised ValueError
  else foldM (checked_step strict fs) p [].

End FS.

Import FS.

(** ** Configurable constants *)

Definition DEFAULT_FILES_OF_INTEREST : list string :=
  ["*.c"; "*.h"; "*.json"; "*.py"; "*.cmake"; "*.md"; "*.sh"; "CMakeLists.txt"].
Definition DEFAULT_FOLDERS_TO_EXCLUDE : gset string :=
  {[ ".git"; "build"; "build_logs"; "doc" ]}.
Definition DEFAULT_ROOT_MARKER_FILES : list string :=
  ["LICENSE"; "sdkconfig"; "dependencies.lock"; "CMakeLists.txt"].
Definition MAX_SEARCH_DEPTH : nat := 3.

(** ** The root locator: [find_project_root] *)

(** [any((p / marker).is_file() for marker in marker_files)] *)
Definition has_marker (fs : node) (marker_files : list string) (p : path) : bool :=
  existsb (λ marker, is_file fs (joinpath p marker)) marker_files.

(** The loop that collects the ancestors: [n] rounds are left, the state
    is [curr], [up_paths] and [checked]. *)
Fixpoint collect_up (n : nat) (curr : path) (up_paths : list path)
    (checked : gset path) : list path * gset path :=
  match n with
  | O => (up_paths, checked)
  | S n' =>
      let curr := parent curr in
      if bool_decide (curr ∉ checked)
      then collect_up n' curr (up_paths ++ [curr]) (checked ∪ {[curr]})
      else collect_up n' curr up_paths checked
  end.

(** [for sub in folder.iterdir(): ...]: [inl] is the early return. *)
Fixpoint scan_subs (fs : node) (marker_files : list string) (subs : list path)
    (checked : gset path) (next_level : list path)
    : path + (gset path * list path) :=
  match subs with
  | [] => inr (checked, next_level)
  | sub :: rest =>
      if is_dir fs sub && negb (is_symlink fs sub) && bool_decide (sub ∉ checked)
      then
        let checked := checked ∪ {[sub]} in
        if has_marker fs marker_files sub then inl sub
        else scan_subs fs marker_files rest checked (next_level ++ [sub])
      else scan_subs fs marker_files rest checked next_level
  end.

(** [for folder in queue: try: ... except ...]: a folder whose listing
    raises is passed over. *)
Fixpoint scan_level (fs : node) (marker_files : list string) (queue : list path)
    (checked : gset path) (next_level : list path)
    : path + (gset path * list path) :=
  match queue with
  | [] => inr (checked, next_level)
  | folder :: rest =>
      match iterdir fs folder with
      | None => scan_level fs marker_files rest checked next_level
      | Some subs =>
          match scan_subs fs marker_files subs checked next_level with
          | inl found => inl found
          | inr (checked, next_level) =>
              scan_level fs marker_files rest checked next_level
          end
      end
  end.

(** [while queue and depth < MAX_SEARCH_DEPTH], with
    [left = MAX_SEARCH_DEPTH - depth]. *)
Fixpoint bfs (fs : node) (marker_files : list string) (left : nat)
    (queue : list path) (checked : gset path) : path + gset path :=
  match left, queue with
  | O, _ | _, [] => inr checked
  | S left', _ :: _ =>
      match scan_level fs marker_files queue checked [] with
      | inl found => inl found
      | inr (checked, next_level) => bfs fs marker_files left' next_level checked
      end
  end.

(** [for up in up_paths: queue = [up]; depth = 0; ...] *)
Fixpoint search_down (fs : node) (marker_files : list string) (ups : list path)
    (checked : gset path) : option path :=
  match ups with
  | [] => None
  | up :: rest =>
      match bfs fs marker_files MAX_SEARCH_DEPTH [up] checked with
      | inl found => Some found
      | inr checked => search_down fs marker_files rest checked
      end
  end.

(** The ancestor chain: the resolved start directory, then up to
    [MAX_SEARCH_DEPTH] parents, each listed once. *)
Definition ancestor_chain (fs : node) (start_path : path) : list path * gset path :=
  let start_path := realpath fs start_path in
  collect_up MAX_SEARCH_DEPTH start_path [start_path] {[start_path]}.

Definition find_project_root (fs : node) (start_path : path)
    (marker_files : list string) : option path :=
  let '(up_paths, checked) := ancestor_chain fs start_path in
  match List.find (has_marker fs marker_files) up_paths with
  | Some p => Some p
  | None => search_down fs marker_files up_paths checked
  end.

(** ** The interest patterns *)

(** [{ext for pattern in pats if pattern.startswith("*.") for ext in [pattern[1:]]}] *)
Definition valid_extensions (pats : list string) : gset string :=
  list_to_set (map (drop_chars 1) (List.filter (λ pat, startswith pat "*.") pats)).

(** [{pattern for pattern in pats if not pattern.startswith("*")}] *)
Definition valid_filenames (pats : list string) : gset string :=
  list_to_set (List.filter (λ pat, negb (startswith pat "*")) pats).

(** The two module-level sets, which [main] rebinds before the scan. *)
Record interest : Type := Interest {
  VALID_EXTENSIONS : gset string;
  VALID_FILENAMES : gset string
}.

Definition interest_of (pats : list string) : interest :=
  Interest (valid_extensions pats) (valid_filenames pats).

Definition matches_interest_patterns (spec : interest) (file_path : path) : bool :=
  bool_decide (name file_path ∈ VALID_FILENAMES spec)
  || bool_decide (suffix file_path ∈ VALID_EXTENSIONS spec).

(** ** The walk ([os.walk], top down, links not followed)

    Each visited directory yields its path, the names of its entries that
    are directories (links to directories included) and the names of the
    others. The loop body edits the yielded [dirnames] in place and the
    walk descends into what is left of it: [keep] is that edit. A
    directory that cannot be listed yields nothing. Names within one
    listing are taken to be distinct, as they are in a directory. *)

Definition entry_is_dir (fs : node) (e : string * node) : bool :=
  match e.2 with
  | Dir _ _ => true
  | Link t => match lookup fs t with Some (Dir _ _) => true | _ => false end
  | File _ => false
  end.

Definition dir_names (fs : node) (es : list (string * node)) : list string :=
  map fst (List.filter (entry_is_dir fs) es).

Definition file_names (fs : node) (es : list (string * node)) : list string :=
  map fst (List.filter (λ e, negb (entry_is_dir fs e)) es).

Fixpoint os_walk (fs : node) (keep : string → bool) (top : path) (n : node)
    : list (path * list string * list string) :=
  match n with
  | Dir true es =>
      (top, dir_names fs es, file_names fs es) ::
      (fix descend (es : list (string * node)) :=
         match es with
         | [] => []
         | (nm, sub) :: es' =>
             match sub with
             | Dir _ _ =>
                 if keep nm then os_walk fs keep (top ++ [nm]) sub else []
             | _ => []
             end ++ descend es'
         end) es
  | _ => []
  end.

(** What the walk yields below one entry of a visited directory. *)
Definition descend_entry (fs : node) (keep : string → bool) (top : path)
    (e : string * node) : list (path * list string * list string) :=
  match e.2 with
  | Dir _ _ => if keep e.1 then os_walk fs keep (top ++ [e.1]) e.2 else []
  | _ => []
  end.

(** Induction on trees: a directory's entries all satisfy the property. *)
Fixpoint node_ind' (P : node → Prop)
    (Hfile : ∀ ls, P (File ls)) (Hlink : ∀ t, P (Link t))
    (Hdir : ∀ l es, Forall (λ e : string * node, P e.2) es → P (Dir l es))
    (n : node) : P n :=
  match n with
  | File ls => Hfile ls
  | Link t => Hlink t
  | Dir l es =>
      Hdir l es
        ((fix all (es : list (string * node)) : Forall (λ e, P e.2) es :=
            match es with
            | [] => List.Forall_nil _
            | (nm, sub) :: es' =>
                @List.Forall_cons _ (λ e : string * node, P e.2) (nm, sub) es'
                  (node_ind' P Hfile Hlink Hdir sub) (all es')
            end) es)
  end.

(** ** The catalog pass: [analyze_project_files] *)

(** The five collections the pass builds. [list_referenced] is a
    [defaultdict(set)] and [found_files_map] a [defaultdict(list)]. *)
Record scan_state : Type := ScanState {
  list_exist : list path;
  list_referenced : gmap string (gset path);
  found_files_map : gmap string (list path);
  key_subfolders : gmap string path;
  no_go_areas : list string
}.

Definition initial_state : scan_state := ScanState [] ∅ ∅ ∅ [].

(** [list_referenced[key].add(file_path)] *)
Definition add_reference (key : string) (file_path : path)
    (refs : gmap string (gset path)) : gmap string (gset path) :=
  <[key := default ∅ (refs !! key) ∪ {[file_path]}]> refs.

(** [found_files_map[key].append(file_path)] *)
Definition append_found (key : string) (file_path : path)
    (found : gmap string (list path)) : gmap string (list path) :=
  <[key := default [] (found !! key) ++ [file_path]]> found.

(** The body shared by the include and the build-script branches: the
    referenced basename is the name of the resolved target.
    [FileNotFoundError] goes to the handler next to the call; any other
    exception leaves the pass. *)
Definition record_resolved (fs : node) (file_path : path)
    (refs : gmap string (gset path)) (ref : string)
    : outcome (gmap string (gset path)) :=
  match resolve false fs (joinpath (parent file_path) ref) with
  | Done ref_path => Done (add_reference (name ref_path) file_path refs)
  | Raised FileNotFoundError => Done refs
  | Raised e => Raised e
  end.

(** The body of the import branch: [list_referenced[f"{ref}.py"].add(file_path)] *)
Definition record_import (file_path : path)
    (refs : gmap string (gset path)) (ref : string) : gmap string (gset path) :=
  add_reference (ref +:+ ".py") file_path refs.

Definition is_c_file (file_path : path) : bool :=
  bool_decide (suffix file_path ∈ [".c"; ".h"]).

Definition is_cmake_file (file_path : path) : bool :=
  endswith (lower (name file_path)) ".cmake"
  || endswith (lower (name file_path)) "cmakelists.txt".

Definition is_py_file (file_path : path) : bool :=
  bool_decide (suffix file_path = ".py").

(** The body of [for line in f]. *)
Definition process_line (fs : node) (file_path : path)
    (refs : gmap string (gset path)) (line : string)
    : outcome (gmap string (gset path)) :=
  if is_c_file file_path then
    foldM (record_resolved fs file_path) (Re.findall include_pattern line) refs
  else if is_cmake_file file_path then
    foldM (record_resolved fs file_path) (Re.findall cmake_pattern line) refs
  else if is_py_file file_path then
    Done (fold_left (record_import file_path) (Re.findall import_pattern line) refs)
  else Done refs.

(** The body of [for filename in filenames]. Of what opening the file
    can raise, the handlers around the [with] block catch
    [FileNotFoundError] (and the decoding and permission errors, which
    the lines of a file stand for); nothing catches what the line loop
    raises. *)
Definition process_file (fs : node) (spec : interest) (current_path : path)
    (st : scan_state) (filename : string) : outcome scan_state :=
  let file_path := current_path ++ [filename] in
  if is_symlink fs file_path then Done st
  else
    let cataloged := matches_interest_patterns spec file_path in
    let st :=
      ScanState
        (if cataloged then list_exist st ++ [file_path] else list_exist st)
        (list_referenced st)
        (if cataloged then append_found (name file_path) file_path (found_files_map st)
         else found_files_map st)
        (key_subfolders st)
        (no_go_areas st) in
    match open_lines fs file_path with
    | Done lines =>
        match foldM (process_line fs file_path) lines (list_referenced st) with
        | Done refs =>
            Done (ScanState (list_exist st) refs (found_files_map st)
                    (key_subfolders st) (no_go_areas st))
        | Raised e => Raised e
        end
    | Raised FileNotFoundError => Done st
    | Raised e => Raised e
    end.

(** [[d for d in dirnames if d not in exclude_dirs]] *)
Definition kept_dirs (exclude_dirs : gset string) (dirnames : list string) : list string :=
  List.filter (λ d, bool_decide (d ∉ exclude_dirs)) dirnames.

(** [set(original_dirs) - set(dirnames)], in the order the set yields. *)
Definition pruned_dirs (exclude_dirs : gset string) (original_dirs : list string)
    : list string :=
  elements (list_to_set original_dirs ∖ list_to_set (kept_dirs exclude_dirs original_dirs)
            : gset string).

(** [any(x in current_path.parts for x in exclude_dirs)] *)
Definition in_excluded (exclude_dirs : gset string) (current_path : path) : bool :=
  existsb (λ x, bool_decide (x ∈ parts current_path)) (elements exclude_dirs).

(** The first statements of the walk loop's body: the pruned names are
    recorded as excluded regions. *)
Definition record_pruned (exclude_dirs : gset string) (st : scan_state)
    (current_path : path) (original_dirs : list string) : scan_state :=
  ScanState (list_exist st) (list_referenced st) (found_files_map st)
    (key_subfolders st)
    (no_go_areas st ++
       map (λ pruned_dir, str (current_path ++ [pruned_dir]))
         (pruned_dirs exclude_dirs original_dirs)).

(** [key_subfolders[str(relative_path)] = current_path], below the root. *)
Definition record_subfolder (root_path : path) (st : scan_state)
    (current_path : path) : scan_state :=
  if bool_decide (current_path ≠ root_path) then
    ScanState (list_exist st) (list_referenced st) (found_files_map st)
      (<[relative_str current_path root_path := current_path]> (key_subfolders st))
      (no_go_areas st)
  else st.

(** The body of [for dirpath, dirnames, filenames in os.walk(...)]. *)
Definition visit_dir (fs : node) (spec : interest) (root_path : path)
    (exclude_dirs : gset string) (st : scan_state)
    (item : path * list string * list string) : outcome scan_state :=
  let '(current_path, original_dirs, filenames) := item in
  let st := record_pruned exclude_dirs st current_path original_dirs in
  if in_excluded exclude_dirs current_path then Done st
  else
    foldM (process_file fs spec current_path) filenames
      (record_subfolder root_path st current_path).

(** [os.walk(root_path)] as the pass runs it: the loop body removes the
    excluded names from [dirnames] before the walk descends. *)
Definition walked (fs : node) (root_path : path) (exclude_dirs : gset string)
    : list (path * list string * list string) :=
  match lookup fs root_path with
  | Some n => os_walk fs (λ d, bool_decide (d ∉ exclude_dirs)) root_path n
  | None => []
  end.

Definition analyze_project_files (fs : node) (spec : interest) (root_path : path)
    (exclude_dirs : gset string) : outcome scan_state :=
  foldM (visit_dir fs spec root_path exclude_dirs)
    (walked fs root_path exclude_dirs) initial_state.

(** ** The pass when nothing is raised

    The same loops with every call returning: what each of them has
    built when it completes ([analyze_project_files_done] below). *)

Definition record_resolved_done (fs : node) (file_path : path)
    (refs : gmap string (gset path)) (ref : string) : gmap string (gset path) :=
  add_reference (name (realpath fs (joinpath (parent file_path) ref))) file_path refs.

Definition process_line_done (fs : node) (file_path : path)
    (refs : gmap string (gset path)) (line : string) : gmap string (gset path) :=
  if is_c_file file_path then
    fold_left (record_resolved_done fs file_path) (Re.findall include_pattern line) refs
  else if is_cmake_file file_path then
    fold_left (record_resolved_done fs file_path) (Re.findall cmake_pattern line) refs
  else if is_py_file file_path then
    fold_left (record_import file_path) (Re.findall import_pattern line) refs
  else refs.

Definition process_file_done (fs : node) (spec : interest) (current_path : path)
    (st : scan_state) (filename : string) : scan_state :=
  let file_path := current_path ++ [filename] in
  if is_symlink fs file_path then st
  else
    let cataloged := matches_interest_patterns spec file_path in
    ScanState
      (if cataloged then list_exist st ++ [file_path] else list_exist st)
      (fold_left (process_line_done fs file_path) (read_lines fs file_path)
         (list_referenced st))
      (if cataloged then append_found (name file_path) file_path (found_files_map st)
       else found_files_map st)
      (key_subfolders st)
      (no_go_areas st).

Definition visit_dir_done (fs : node) (spec : interest) (root_path : path)
    (exclude_dirs : gset string) (st : scan_state)
    (item : path * list string * list string) : scan_state :=
  let '(current_path, original_dirs, filenames) := item in
  let st :=
    ScanState (list_exist st) (list_referenced st) (found_files_map st)
      (key_subfolders st)
      (no_go_areas st ++
         map (λ pruned_dir, str (current_path ++ [pruned_dir]))
           (pruned_dirs exclude_dirs original_dirs)) in
  if in_excluded exclude_dirs current_path then st
  else
    let st :=
      if bool_decide (current_path ≠ root_path) then
        ScanState (list_exist st) (list_referenced st) (found_files_map st)
          (<[relative_str current_path root_path := current_path]> (key_subfolders st))
          (no_go_areas st)
      else st in
    fold_left (process_file_done fs spec current_path) filenames st.

Definition pass_state (fs : node) (spec : interest) (root_path : path)
    (exclude_dirs : gset string) : scan_state :=
  match lookup fs root_path with
  | Some n =>
      fold_left (visit_dir_done fs spec root_path exclude_dirs)
        (os_walk fs (λ d, bool_decide (d ∉ exclude_dirs)) root_path n)
        initial_state
  | None => initial_state
  end.

(** ** The project name: [get_project_name] *)

Fixpoint first_project_name (lines : list string) : option string :=
  match lines with
  | [] => None
  | line :: rest =>
      match Re.search project_pattern line with
      | Some nm => Some nm
      | None => first_project_name rest
      end
  end.

(** Of what opening the build script can raise, the handlers catch
    [FileNotFoundError] (and the decoding and permission errors, which
    the lines of a file stand for). *)
Definition get_project_name (fs : node) (root_path : path) : outcome string :=
  match open_lines fs (root_path ++ ["CMakeLists.txt"]) with
  | Done lines => Done (default "Unknown" (first_project_name lines))
  | Raised FileNotFoundError => Done "Unknown"
  | Raised e => Raised e
  end.

(** ** The classifier and the report: [generate_report]

    The report is kept as the data each section prints, in print order. *)

(** One entry of the Warnings section: the name, then the paths in the
    order they are printed. *)
Definition duplicate_entry : Type := string * list path.

Record report : Type := Report {
  project_name : string;
  project_root : path;
  subfolder_lines : list (string * path);
  excluded_lines : list string;
  total_count : nat;
  suffix_counts : list (string * nat);
  cmake_count : nat;
  warnings : list (string * list duplicate_entry);
  orphan_count : nat;
  orphan_lines : list path;
  missing_count : nat;
  missing_lines : list (string * list path)
}.

Definition by_key {V : Type} (a b : string * V) : Prop := str_le a.1 b.1.

(** [sorted(d.items())] for a dictionary keyed by text: its keys are
    distinct, so the order is the order of the keys. *)
Definition sorted_items {V : Type} (m : gmap string V) : list (string * V) :=
  merge_sort by_key (map_to_list m).

(** [exist_set = set(p.name for p in list_exist)] *)
Definition exist_set (list_exist : list path) : gset string :=
  list_to_set (map name list_exist).

(** [ref_set = set(list_referenced.keys())] *)
Definition ref_set (list_referenced : gmap string (gset path)) : gset string :=
  dom list_referenced.

Definition orphan_basenames (st : scan_state) : list string :=
  sorted_str (elements (exist_set (list_exist st) ∖ ref_set (list_referenced st))).

Definition missing_basenames (st : scan_state) : list string :=
  sorted_str (elements (ref_set (list_referenced st) ∖ exist_set (list_exist st))).

(** The lines printed for one name with more than one path:
    [paths[0]], then [sorted(paths)[1:]]. *)
Definition duplicate_paths (paths : list path) : list path :=
  match paths with
  | [] => []
  | first :: _ => first :: tail (sorted_paths paths)
  end.

(** The body of [for ext in (".c", ".h", ".py", ".sh")]. *)
Definition duplicates_of (found : gmap string (list path)) (ext : string)
    : list duplicate_entry :=
  map (λ item, (item.1, duplicate_paths item.2))
    (List.filter
       (λ item : string * list path,
          endswith (lower item.1) (lower ext) && bool_decide (1 < length item.2))
       (sorted_items found)).

Definition count_suffix (list_exist : list path) (ext : string) : nat :=
  length (List.filter (λ p, bool_decide (lower (suffix p) = lower ext)) list_exist).

Definition generate_report (proj : string) (root_path : path) (st : scan_state)
    : report :=
  let orphans := orphan_basenames st in
  let missing := missing_basenames st in
  Report proj root_path
    (sorted_items (key_subfolders st))
    (sorted_str (no_go_areas st))
    (length (list_exist st))
    (map (λ ext, (ext, count_suffix (list_exist st) ext))
       [".c"; ".h"; ".cmake"; ".sh"; ".json"; ".py"; ".md"])
    (length (List.filter (λ p, bool_decide (lower (name p) = "cmakelists.txt"))
               (list_exist st)))
    (map (λ ext, (ext, duplicates_of (found_files_map st) ext))
       [".c"; ".h"; ".py"; ".sh"])
    (length orphans)
    (concat (map (λ nm, default [] (found_files_map st !! nm)) orphans))
    (length missing)
    (map (λ nm, (nm, sorted_paths (elements (default ∅ (list_referenced st !! nm)))))
       missing).

(** ** [main] *)

(** The parsed command line, each list still as comma-separated text. *)
Record arguments : Type := MkArguments {
  extensions : string;
  exclude_dirs : string;
  marker_files : string
}.

Definition default_arguments : arguments :=
  MkArguments
    (join "," (map (λ ext, if startswith ext "*." then drop_chars 2 ext else ext)
                 DEFAULT_FILES_OF_INTEREST))
    (join "," (elements DEFAULT_FOLDERS_TO_EXCLUDE))
    (join "," DEFAULT_ROOT_MARKER_FILES).

(** [files_of_interest] as [main] derives it from [--extensions]. *)
Definition files_of_interest (args : arguments) : list string :=
  map (λ ext, if startswith ext "CMakeLists" then ext else "*." +:+ ext)
    (split_on "," (extensions args)).

(** A run of the program from working directory [cwd]: the exit code of
    the process and the report it printed, if any. An exception that
    nothing catches ends the process with exit code 1, before anything
    of the report is printed. *)
Definition main (fs : node) (cwd : path) (args : arguments) : nat * option report :=
  let spec := interest_of (files_of_interest args) in
  let excl : gset string := list_to_set (split_on "," (exclude_dirs args)) in
  let markers := split_on "," (marker_files args) in
  let start_path := realpath fs cwd in
  match find_project_root fs start_path markers with
  | None => (1, None)
  | Some root_path =>
      match get_project_name fs root_path with
      | Raised _ => (1, None)
      | Done proj =>
          match analyze_project_files fs spec root_path excl with
          | Raised _ => (1, None)
          | Done st => (0, Some (generate_report proj root_path st))
          end
      end
  end.

(** ** Scanned files

    [walkable n s]: starting in directory [n], every directory along the
    relative path [s] (the start included) is a real directory that can
    be listed. *)
Fixpoint walkable (n : node) (s : path) : bool :=
  match n with
  | Dir true es =>
      match s with
      | [] => true
      | c :: s' =>
          match entry c es with
          | Some sub => walkable sub s'
          | None => false
          end
      end
  | _ => false
  end.

(** [scanned fs root excl file_path lines]: [file_path] is a regular file
    with content [lines], in a directory that the walk from [root]
    reaches and that passes the excluded-component test. *)
Definition scanned (fs : node) (root_path : path) (exclude_dirs : gset string)
    (file_path : path) (lines : list string) : Prop :=
  ∃ n s filename,
    file_path = (root_path ++ s) ++ [filename]
    ∧ lookup fs root_path = Some n
    ∧ walkable n s = true
    ∧ in_excluded exclude_dirs (root_path ++ s) = false
    ∧ lookup n (s ++ [filename]) = Some (File lines).

(** The files that reference [key] in a reference table. *)
Definition referencing (refs : gmap string (gset path)) (key : string) : gset path :=
  default ∅ (refs !! key).

(** The tree with every regular file emptied. *)
Fixpoint erase_contents (n : node) : node :=
  match n with
  | File _ => File []
  | Link t => Link t
  | Dir l es => Dir l (map (λ e, (e.1, erase_contents e.2)) es)
  end.

(** The state of a pass that processed no file. *)
Definition nothing_cataloged (st : scan_state) : Prop :=
  list_exist st = [] ∧ list_referenced st = ∅ ∧ found_files_map st = ∅
  ∧ key_subfolders st = ∅.

(** Every path filed under a basename in the catalog bears that name. *)
Definition catalog_keyed (found : gmap string (list path)) : Prop :=
  ∀ key paths p, found !! key = Some paths → p ∈ paths → name p = key.

(** The text behind a run of class characters does not go on with one. *)
Definition run_ends (cls : ascii → bool) (rest : string) : Prop :=
  match rest with
  | String c _ => cls c = false
  | EmptyString => True
  end.

(** [processed fs root excl file_path]: the walk loop reaches
    [file_path] as a file name of a visited directory that passes the
    excluded-component test, and the file is not a symbolic link: the
    body of the file loop runs for it. *)
Definition processed (fs : node) (root_path : path) (exclude_dirs : gset string)
    (file_path : path) : Prop :=
  ∃ n cur dirs files filename,
    FS.lookup fs root_path = Some n
    ∧ (cur, dirs, files)
      ∈ os_walk fs (λ d, bool_decide (d ∉ exclude_dirs)) root_path n
    ∧ in_excluded exclude_dirs cur = false
    ∧ filename ∈ files
    ∧ file_path = cur ++ [filename]
    ∧ is_symlink fs file_path = false.

(** The basenames that one line of [file_path] adds to the reference
    table: what the three branches of the line loop record. *)
Definition extracted (fs : node) (file_path : path) (line : string) : list string :=
  if is_c_file file_path then
    map (λ ref, name (realpath fs (joinpath (parent file_path) ref)))
      (Re.findall include_pattern line)
  else if is_cmake_file file_path then
    map (λ ref, name (realpath fs (joinpath (parent file_path) ref)))
      (Re.findall cmake_pattern line)
  else if is_py_file file_path then
    map (λ ref, ref +:+ ".py") (Re.findall import_pattern line)
  else [].

(** The cataloged paths that bear the basename [key], in catalog order. *)
Definition bearing (key : string) (list_exist : list path) : list path :=
  List.filter (λ p, bool_decide (name p = key)) list_exist.

(** The basename map holds, under each basename, the cataloged paths
    that bear it, and no entry for a basename that none bears. *)
Definition grouped (st : scan_state) : Prop :=
  ∀ key,
    found_files_map st !! key
    = match bearing key (list_exist st) with
      | [] => None
      | paths => Some paths
      end.

(** Every basename in the reference table has a referencing file. *)
Definition inhabited (refs : gmap string (gset path)) : Prop :=
  ∀ key files, refs !! key = Some files → files ≠ ∅.

(** What the downward search looks for: a real directory, not a link,
    that holds a marker. *)
Definition is_marked_dir (fs : node) (marker_files : list string) (p : path) : bool :=
  is_dir fs p && negb (is_symlink fs p) && has_marker fs marker_files p.

(** The part of the scan state that reading and pruning build: the
    reference table, the subfolder table and the excluded regions. *)
Definition read_part (st : scan_state)
    : gmap string (gset path) * gmap string path * list string :=
  (list_referenced st, key_subfolders st, no_go_areas st).

(** The part of the scan state that cataloging builds. *)
Definition catalog_part (st : scan_state) : list path * gmap string (list path) :=
  (list_exist st, found_files_map st).

(** Two calls end alike: both return, with related results, or both
    raise the same exception. *)
Definition end_alike {A : Type} (Rel : A → A → Prop) (o1 o2 : outcome A) : Prop :=
  match o1, o2 with
  | Done a, Done b => Rel a b
  | Raised e1, Raised e2 => e1 = e2
  | _, _ => False
  end.

(** ** What the root locator observes

    Two trees look the same to the root locator when the filesystem
    queries it makes answer alike on every path. *)
Definition same_view (fs1 fs2 : node) : Prop :=
  ∀ p : path,
    is_file fs1 p = is_file fs2 p
    ∧ is_dir fs1 p = is_dir fs2 p
    ∧ is_symlink fs1 p = is_symlink fs2 p
    ∧ iterdir fs1 p = iterdir fs2 p
    ∧ readlink fs1 p = readlink fs2 p.

(** ** The same tree, listed in another order

    Nothing in a directory tree fixes the order in which a directory
    lists its entries ([iterdir] yields them in arbitrary order). Two
    trees are the same up to that order when every path leads to the
    same thing in both: the same file, the same link, or a directory
    with the same flag and the same names. *)
Definition same_node (a b : option node) : Prop :=
  match a, b with
  | None, None => True
  | Some (File ls1), Some (File ls2) => ls1 = ls2
  | Some (Link t1), Some (Link t2) => t1 = t2
  | Some (Dir l1 es1), Some (Dir l2 es2) => l1 = l2 ∧ map fst es1 ≡ₚ map fst es2
  | _, _ => False
  end.

Definition reordered (fs1 fs2 : node) : Prop :=
  ∀ p : path, same_node (lookup fs1 p) (lookup fs2 p).

(** The interest patterns of a run without [--extensions]. *)
Definition default_interest : interest :=
  interest_of (files_of_interest default_arguments).

(** ** Sample trees *)

Definition include_line (target : string) : string :=
  "#include " +:+ String dquote (target +:+ String dquote (String newline EmptyString)).

(** A work directory whose only child is a [build] directory holding a
    marker. *)
Definition tree_marker_in_build : node :=
  Dir true [("w", Dir true [("build", Dir true [("LICENSE", File [])])])].

(** A marker in the start directory [/a/b/c] and in its grandparent [/a]. *)
Definition tree_two_markers : node :=
  Dir true
    [("a", Dir true
       [("LICENSE", File []);
        ("b", Dir true [("c", Dir true [("LICENSE", File []); ("main.c", File [])])])])].

(** The same tree with the entries of [/a] and of [/a/b/c] listed in
    the other order. *)
Definition tree_two_markers_relisted : node :=
  Dir true
    [("a", Dir true
       [("b", Dir true [("c", Dir true [("main.c", File []); ("LICENSE", File [])])]);
        ("LICENSE", File [])])].

(** A work directory without a marker, whose two children both hold
    one; and the same tree with the children listed in the other order. *)
Definition tree_two_candidates : node :=
  Dir true
    [("w", Dir true
       [("a", Dir true [("LICENSE", File [])]);
        ("b", Dir true [("LICENSE", File [])])])].

Definition tree_two_candidates_relisted : node :=
  Dir true
    [("w", Dir true
       [("b", Dir true [("LICENSE", File [])]);
        ("a", Dir true [("LICENSE", File [])])])].

(** A project [/r] with two files named [util.c] and two named
    [util.h], an include of a header that exists nowhere, an include of
    [util.h], an import of a module that exists nowhere, and a [build]
    directory. *)
Definition tree_project : node :=
  Dir true
    [("r", Dir true
       [("LICENSE", File []);
        ("util.c", File [include_line "foo.h"; include_line "util.h"]);
        ("util.h", File []);
        ("a", Dir true
           [("util.c", File []);
            ("util.h", File []);
            ("m.py", File ["from helpers import thing"])]);
        ("build", Dir true [("sdkconfig", File []); ("x.c", File [])])])].

(** A project whose script imports from a module of a package. *)
Definition tree_package_import : node :=
  Dir true
    [("r", Dir true
       [("LICENSE", File []);
        ("m.py", File ["from pkg.helpers import x"]);
        ("pkg", Dir true [("helpers.py", File [])])])].

(** A project whose source includes a target that holds a NUL character. *)
Definition tree_nul_include : node :=
  Dir true
    [("r", Dir true
       [("LICENSE", File []);
        ("main.c", File [include_line (String "a" (String nul "b"))])])].

(** A project whose source includes a link that leads back to itself. *)
Definition tree_looping_include : node :=
  Dir true
    [("r", Dir true
       [("LICENSE", File []);
        ("loop.h", Link ["r"; "loop.h"]);
        ("main.c", File [include_line "loop.h"])])].

(** A project whose build script declares its name and names two sources. *)
Definition tree_cmake : node :=
  Dir true
    [("r", Dir true
       [("CMakeLists.txt",
         File ["cmake_minimum_required(VERSION 3.16)";
               "Project ( Demo )";
               "idf_component_register(SRCS main.c util.c)"]);
        ("main.c", File []);
        ("util.c", File []);
        ("notes.md", File ["see main.c and from x import y"])])].

(** A project with a marker, in which [CMakeLists.txt] is a directory. *)
Definition tree_cmake_directory : node :=
  Dir true
    [("r", Dir true
       [("LICENSE", File []);
        ("CMakeLists.txt", Dir true []);
        ("main.c", File [])])].

(** A project that lies below a directory named [build]. *)
Definition tree_below_build : node :=
  Dir true
    [("build", Dir true
       [("proj", Dir true
          [("LICENSE", File []); ("main.c", File [include_line "main.h"]);
           ("main.h", File [])])])].

(** * Properties *)

(** Decidable facts about concrete trees are settled by evaluation. *)
Ltac by_computation :=
  match goal with |- ?P => apply (bool_decide_unpack P); vm_compute; exact I end.


(** ** Sorting keeps the elements *)

Lemma elem_of_sorted_str (x : string) (l : list string) :
  x ∈ sorted_str l ↔ x ∈ l.
Proof. unfold sorted_str. by rewrite merge_sort_Permutation. Qed.

Lemma elem_of_sorted_paths (x : path) (l : list path) :
  x ∈ sorted_paths l ↔ x ∈ l.
Proof. unfold sorted_paths. by rewrite merge_sort_Permutation. Qed.

Lemma elem_of_orphan_basenames (st : scan_state) (b : string) :
  b ∈ orphan_basenames st
  ↔ b ∈ exist_set (list_exist st) ∧ b ∉ ref_set (list_referenced st).
Proof.
  unfold orphan_basenames.
  rewrite elem_of_sorted_str, elem_of_elements. set_solver.
Qed.

Lemma elem_of_missing_basenames (st : scan_state) (b : string) :
  b ∈ missing_basenames st
  ↔ b ∈ ref_set (list_referenced st) ∧ b ∉ exist_set (list_exist st).
Proof.
  unfold missing_basenames.
  rewrite elem_of_sorted_str, elem_of_elements. set_solver.
Qed.

(** ** The classifier *)

(** C5: whatever catalog and reference table the analyzer is given, the
    set of orphan basenames and the set of missing basenames have no
    element in common: the orphans are existing basenames, the missing
    ones are not. *)
Theorem orphans_missing_disjoint (st : scan_state) :
  (list_to_set (orphan_basenames st) : gset string)
    ∩ list_to_set (missing_basenames st)
  = ∅.
Proof.
  apply set_eq. intros b.
  rewrite elem_of_intersection, !elem_of_list_to_set.
  rewrite elem_of_orphan_basenames, elem_of_missing_basenames.
  split; [|by intros ?%not_elem_of_empty].
  intros [[Hex _] [_ Hnex]]. destruct (Hnex Hex).
Qed.

(** ** The root locator *)

Lemma length_parent (p : path) : length (parent p) = length p - 1.
Proof.
  unfold parent. induction p as [|c [|c' p'] IH]; simpl in *; [done..|].
  rewrite IH. lia.
Qed.

Lemma parent_nil_iff (p : path) : parent p = p ↔ p = [].
Proof.
  split; [|by intros ->].
  intros H. apply (f_equal length) in H. rewrite length_parent in H.
  destruct p; [done | simpl in H; lia].
Qed.

Lemma length_iter_parent (k : nat) (p : path) :
  length (Nat.iter k parent p) = length p - k.
Proof.
  induction k as [|k IH]; simpl; [lia|]. rewrite length_parent, IH. lia.
Qed.

Lemma iter_parent_shift (k : nat) (p : path) :
  Nat.iter k parent (parent p) = Nat.iter (S k) parent p.
Proof. induction k as [|k IH]; simpl; [done|]. by rewrite IH. Qed.

(** The ancestor loop appends, nearest first, the parents of [curr] that
    exist: one per round until the filesystem root has been listed. *)
Lemma collect_up_spec (n : nat) (curr : path) (ups : list path) (checked : gset path) :
  curr ∈ checked →
  (∀ q : path, q ∈ checked → length curr ≤ length q) →
  (collect_up n curr ups checked).1
  = ups ++ ((λ k, Nat.iter k parent curr) <$> seq 1 (n `min` length curr)).
Proof.
  revert curr ups checked.
  induction n as [|n IH]; intros curr ups checked Hin Hlen; simpl.
  { by rewrite app_nil_r. }
  destruct (decide (curr = [])) as [->|Hne].
  - simpl. rewrite bool_decide_false by (intros Hn; by apply Hn).
    rewrite IH; [|done..]. simpl. by rewrite Nat.min_0_r.
  - assert (length curr ≠ 0) as Hl by (by destruct curr).
    rewrite bool_decide_true; last first.
    { intros Hp. apply Hlen in Hp. rewrite length_parent in Hp. lia. }
    rewrite IH; last first.
    { intros q [Hq| ->%elem_of_singleton]%elem_of_union; [|done].
      apply Hlen in Hq. rewrite length_parent. lia. }
    { set_solver. }
    rewrite <- app_assoc. f_equal.
    rewrite length_parent.
    destruct (length curr) as [|m]; [done|].
    replace (S m - 1) with m by lia.
    change (S n `min` S m) with (S (n `min` m)).
    cbn [seq fmap list_fmap app]. f_equal.
    rewrite <- (fmap_S_seq 1), <- list_fmap_compose.
    apply list_fmap_ext. intros _ k _. cbn [compose]. apply iter_parent_shift.
Qed.

Lemma ancestor_chain_spec (fs : node) (start_path : path) :
  (ancestor_chain fs start_path).1
  = (λ k, Nat.iter k parent (realpath fs start_path))
      <$> seq 0 (S (MAX_SEARCH_DEPTH `min` length (realpath fs start_path))).
Proof.
  unfold ancestor_chain. rewrite collect_up_spec.
  - done.
  - set_solver.
  - intros q ->%elem_of_singleton. done.
Qed.

Lemma find_first {A : Type} (P : A → bool) (pre : list A) (x : A) (post : list A) :
  Forall (λ y, P y = false) pre → P x = true →
  List.find P (pre ++ x :: post) = Some x.
Proof.
  induction 1 as [|y pre Hy _ IH]; intros Hx; simpl.
  - by rewrite Hx.
  - rewrite Hy. by apply IH.
Qed.

Lemma find_project_root_upward (fs : node) (start_path : path)
    (marker_files : list string) (pre : list path) (p : path) (post : list path) :
  (ancestor_chain fs start_path).1 = pre ++ p :: post →
  Forall (λ q, has_marker fs marker_files q = false) pre →
  has_marker fs marker_files p = true →
  find_project_root fs start_path marker_files = Some p.
Proof.
  intros Hchain Hpre Hp. unfold find_project_root.
  destruct (ancestor_chain fs start_path) as [ups checked]. simpl in Hchain.
  subst ups. by rewrite find_first.
Qed.

(** C6: the ancestor chain is the resolved start directory followed by
    its parents outward, at most [MAX_SEARCH_DEPTH] of them; the nearest
    directory of the chain that holds a marker is the result, whatever
    lies below or further out. In particular a marker in the start
    directory wins over one in the grandparent. *)
Theorem nearest_ancestor_first (fs : node) (start_path : path)
    (marker_files : list string) (k : nat) :
  k ≤ MAX_SEARCH_DEPTH →
  k ≤ length (realpath fs start_path) →
  has_marker fs marker_files (Nat.iter k parent (realpath fs start_path)) = true →
  (∀ j, j < k →
     has_marker fs marker_files (Nat.iter j parent (realpath fs start_path)) = false) →
  (ancestor_chain fs start_path).1
  = (λ i, Nat.iter i parent (realpath fs start_path))
      <$> seq 0 (S (MAX_SEARCH_DEPTH `min` length (realpath fs start_path)))
  ∧ find_project_root fs start_path marker_files
    = Some (Nat.iter k parent (realpath fs start_path)).
Proof.
  intros Hk Hlen Hmark Hnear.
  split; [apply ancestor_chain_spec|].
  set (s := realpath fs start_path) in *.
  set (f := λ i, Nat.iter i parent s).
  eapply (find_project_root_upward _ _ _ (f <$> seq 0 k) (f k)
            (f <$> seq (S k) (MAX_SEARCH_DEPTH `min` length s - k))).
  - rewrite ancestor_chain_spec. fold s. fold f.
    replace (S (MAX_SEARCH_DEPTH `min` length s))
      with (k + S (MAX_SEARCH_DEPTH `min` length s - k)) by lia.
    by rewrite seq_app, fmap_app.
  - apply Forall_fmap, Forall_forall. intros j Hj%elem_of_seq.
    apply Hnear. lia.
  - exact Hmark.
Qed.

Lemma nearest_ancestor_first_witness :
  has_marker tree_two_markers DEFAULT_ROOT_MARKER_FILES ["a"] = true
  ∧ find_project_root tree_two_markers ["a"; "b"; "c"] DEFAULT_ROOT_MARKER_FILES
    = Some ["a"; "b"; "c"].
Proof.
  split; [reflexivity|].
  apply (nearest_ancestor_first tree_two_markers ["a"; "b"; "c"]
           DEFAULT_ROOT_MARKER_FILES 0).
  - unfold MAX_SEARCH_DEPTH. lia.
  - simpl. lia.
  - reflexivity.
  - intros j Hj. lia.
Defined.

(** ** Two trees that answer alike *)

Section SameView.
Variables fs1 fs2 : node.
Hypothesis Hview : same_view fs1 fs2.
Variable marker_files : list string.

Lemma has_marker_same (p : path) :
  has_marker fs1 marker_files p = has_marker fs2 marker_files p.
Proof.
  unfold has_marker. induction marker_files as [|m ms IH]; simpl; [done|].
  rewrite IH. by destruct (Hview (joinpath p m)) as (-> & _).
Qed.

Lemma resolve_step_same (cur : path) (c : string) :
  resolve_step fs1 cur c = resolve_step fs2 cur c.
Proof.
  unfold resolve_step. by destruct (Hview (cur ++ [c])) as (_ & _ & _ & _ & ->).
Qed.

Lemma realpath_same (p : path) : realpath fs1 p = realpath fs2 p.
Proof.
  unfold realpath. generalize (@nil string).
  induction p as [|c p IH]; intros cur; simpl; [done|].
  by rewrite resolve_step_same, IH.
Qed.

Lemma scan_subs_same (subs : list path) (checked : gset path) (next_level : list path) :
  scan_subs fs1 marker_files subs checked next_level
  = scan_subs fs2 marker_files subs checked next_level.
Proof.
  revert checked next_level.
  induction subs as [|sub rest IH]; intros checked next_level; simpl; [done|].
  destruct (Hview sub) as (_ & -> & -> & _).
  rewrite has_marker_same, !IH. done.
Qed.

Lemma scan_level_same (queue : list path) (checked : gset path) (next_level : list path) :
  scan_level fs1 marker_files queue checked next_level
  = scan_level fs2 marker_files queue checked next_level.
Proof.
  revert checked next_level.
  induction queue as [|folder rest IH]; intros checked next_level; simpl; [done|].
  destruct (Hview folder) as (_ & _ & _ & -> & _).
  destruct (iterdir fs2 folder) as [subs|]; [|apply IH].
  rewrite scan_subs_same.
  destruct (scan_subs fs2 marker_files subs checked next_level) as [|[c nl]];
    [done | apply IH].
Qed.

Lemma bfs_same (left : nat) (queue : list path) (checked : gset path) :
  bfs fs1 marker_files left queue checked = bfs fs2 marker_files left queue checked.
Proof.
  revert queue checked.
  induction left as [|left IH]; intros [|folder queue] checked; cbn [bfs]; try done.
  rewrite scan_level_same.
  destruct (scan_level fs2 marker_files (folder :: queue) checked []) as [|[c nl]];
    [done | apply IH].
Qed.

Lemma search_down_same (ups : list path) (checked : gset path) :
  search_down fs1 marker_files ups checked = search_down fs2 marker_files ups checked.
Proof.
  revert checked. induction ups as [|up rest IH]; intros checked; cbn [search_down]; [done|].
  rewrite bfs_same.
  destruct (bfs fs2 marker_files MAX_SEARCH_DEPTH [up] checked); [done | apply IH].
Qed.

Lemma find_project_root_same (start_path : path) :
  find_project_root fs1 start_path marker_files
  = find_project_root fs2 start_path marker_files.
Proof.
  unfold find_project_root, ancestor_chain. rewrite realpath_same.
  destruct (collect_up _ _ _ _) as [ups checked].
  rewrite search_down_same.
  replace (List.find (has_marker fs1 marker_files) ups)
    with (List.find (has_marker fs2 marker_files) ups); [done|].
  induction ups as [|p ups IH]; simpl; [done|].
  by rewrite has_marker_same, IH.
Qed.

End SameView.

(** ** The root and the order of listings *)

Lemma reordered_refl (fs : node) : reordered fs fs.
Proof. intros p. unfold same_node. by destruct (FS.lookup fs p) as [[ls|t|l es]|]. Qed.

(** Two directories with the same names, under each of which lie two
    trees that are the same up to listing order. *)
Lemma reordered_dir (l : bool) (es1 es2 : list (string * node)) :
  map fst es1 ≡ₚ map fst es2 →
  (∀ c, match entry c es1, entry c es2 with
        | Some a, Some b => reordered a b
        | None, None => True
        | _, _ => False
        end) →
  reordered (Dir l es1) (Dir l es2).
Proof.
  intros Hperm Hent [|c p]; cbn [FS.lookup same_node]; [done|].
  specialize (Hent c). destruct (entry c es1), (entry c es2); by try apply Hent.
Qed.

Section Reordered.
Variables fs1 fs2 : node.
Hypothesis Hsame : reordered fs1 fs2.
Variable marker_files : list string.

Lemma readlink_reordered (p : path) : readlink fs1 p = readlink fs2 p.
Proof.
  unfold readlink. pose proof (Hsame p) as Hp. unfold same_node in Hp.
  destruct (FS.lookup fs1 p) as [[ls|t|l es]|], (FS.lookup fs2 p) as [[ls'|t'|l' es']|];
    try done. by subst.
Qed.

Lemma is_file_reordered (p : path) : is_file fs1 p = is_file fs2 p.
Proof.
  unfold is_file, stat. pose proof (Hsame p) as Hp. unfold same_node in Hp.
  destruct (FS.lookup fs1 p) as [[ls|t|l es]|], (FS.lookup fs2 p) as [[ls'|t'|l' es']|];
    try done.
  subst t'. pose proof (Hsame t) as Ht. unfold same_node in Ht.
  by destruct (FS.lookup fs1 t) as [[ls|t'|l es]|],
       (FS.lookup fs2 t) as [[ls'|t''|l' es']|].
Qed.

Lemma has_marker_reordered (p : path) :
  has_marker fs1 marker_files p = has_marker fs2 marker_files p.
Proof.
  unfold has_marker. induction marker_files as [|m ms IH]; simpl; [done|].
  by rewrite IH, is_file_reordered.
Qed.

Lemma realpath_reordered (p : path) : realpath fs1 p = realpath fs2 p.
Proof.
  unfold realpath. generalize (@nil string).
  induction p as [|c p IH]; intros cur; simpl; [done|].
  unfold resolve_step at 2 4. by rewrite readlink_reordered, IH.
Qed.

Lemma find_upward_reordered (ups : list path) :
  List.find (has_marker fs1 marker_files) ups
  = List.find (has_marker fs2 marker_files) ups.
Proof.
  induction ups as [|p ups IH]; simpl; [done|]. by rewrite has_marker_reordered, IH.
Qed.

End Reordered.

(** C8, as the program behaves: the order in which a directory lists
    its entries is no part of the tree, and the root locator takes the
    entries as the listing yields them. When some directory of the
    ancestor chain holds a marker, the result does not depend on that
    order: on two trees that are the same up to the order of their
    listings, the locator returns the same root. *)
Theorem upward_root_ignores_listing_order (fs1 fs2 : node) (start_path : path)
    (marker_files : list string) (k : nat) :
  reordered fs1 fs2 →
  k ≤ MAX_SEARCH_DEPTH →
  k ≤ length (realpath fs1 start_path) →
  has_marker fs1 marker_files (Nat.iter k parent (realpath fs1 start_path)) = true →
  ∃ root,
    find_project_root fs1 start_path marker_files = Some root
    ∧ find_project_root fs2 start_path marker_files = Some root.
Proof.
  intros Hsame Hk Hlen Hmark.
  pose proof (ancestor_chain_spec fs1 start_path) as Hchain.
  unfold find_project_root, ancestor_chain in *.
  rewrite <- (realpath_reordered _ _ Hsame).
  destruct (collect_up _ _ _ _) as [ups checked]. cbn [fst] in Hchain.
  rewrite <- (find_upward_reordered _ _ Hsame).
  destruct (List.find (has_marker fs1 marker_files) ups) as [root|] eqn:Hfind;
    [by exists root|].
  pose proof (find_none _ _ Hfind (Nat.iter k parent (realpath fs1 start_path))) as Hnone.
  rewrite Hnone in Hmark; [done|].
  apply list_elem_of_In. rewrite Hchain. apply list_elem_of_fmap.
  exists k. split; [done|]. apply elem_of_seq. lia.
Qed.

Lemma upward_root_ignores_listing_order_witness :
  reordered tree_two_markers tree_two_markers_relisted
  ∧ iterdir tree_two_markers ["a"] ≠ iterdir tree_two_markers_relisted ["a"]
  ∧ ∃ root,
      find_project_root tree_two_markers ["a"; "b"] DEFAULT_ROOT_MARKER_FILES
      = Some root
      ∧ find_project_root tree_two_markers_relisted ["a"; "b"] DEFAULT_ROOT_MARKER_FILES
        = Some root.
Proof.
  assert (reordered tree_two_markers tree_two_markers_relisted) as Hsame.
  { apply reordered_dir; [done|]. intros c. cbn [entry].
    case_bool_decide; [|done].
    apply reordered_dir; [apply perm_swap|]. intros c1. cbn [entry].
    repeat case_bool_decide; subst; try done; try apply reordered_refl.
    apply reordered_dir; [done|]. intros c2. cbn [entry].
    case_bool_decide; [|done].
    apply reordered_dir; [apply perm_swap|]. intros c3. cbn [entry].
    repeat case_bool_decide; subst; try done; apply reordered_refl. }
  split; [exact Hsame|]. split; [by vm_compute|].
  apply (upward_root_ignores_listing_order tree_two_markers tree_two_markers_relisted
           ["a"; "b"] DEFAULT_ROOT_MARKER_FILES 1 Hsame).
  - unfold MAX_SEARCH_DEPTH. lia.
  - simpl. lia.
  - reflexivity.
Defined.

(** C8, the claim as stated fails: below [/w] the directories [a] and
    [b] both hold a marker and nothing above them does. The downward
    search returns the one that the listing of [/w] yields first:
    [/w/a] when [a] is listed first, [/w/b] when [b] is. *)
Lemma downward_root_depends_on_listing_order :
  reordered tree_two_candidates tree_two_candidates_relisted
  ∧ find_project_root tree_two_candidates ["w"] DEFAULT_ROOT_MARKER_FILES
    = Some ["w"; "a"]
  ∧ find_project_root tree_two_candidates_relisted ["w"] DEFAULT_ROOT_MARKER_FILES
    = Some ["w"; "b"].
Proof.
  split; [|split; reflexivity].
  apply reordered_dir; [done|]. intros c. cbn [entry].
  case_bool_decide; [|done].
  apply reordered_dir; [apply perm_swap|]. intros c1. cbn [entry].
  repeat case_bool_decide; subst; try done; apply reordered_refl.
Qed.

(** ** The root does not depend on what files contain *)

Lemma entry_erase (c : string) (es : list (string * node)) :
  entry c (map (λ e, (e.1, erase_contents e.2)) es) = erase_contents <$> entry c es.
Proof.
  induction es as [|[nm n] es IH]; simpl; [done|]. by case_bool_decide.
Qed.

Lemma lookup_erase (p : path) (n : node) :
  FS.lookup (erase_contents n) p = erase_contents <$> FS.lookup n p.
Proof.
  revert n. induction p as [|c p IH]; intros n; [done|].
  destruct n as [ls|t|l es]; try done.
  cbn [erase_contents FS.lookup]. rewrite entry_erase.
  destruct (entry c es) as [sub|]; [apply IH | done].
Qed.

Lemma stat_erase (p : path) (n : node) :
  stat (erase_contents n) p = erase_contents <$> stat n p.
Proof.
  unfold stat. rewrite lookup_erase.
  destruct (FS.lookup n p) as [[ls|t|l es]|]; try done. apply lookup_erase.
Qed.

Lemma same_view_erase (fs : node) : same_view fs (erase_contents fs).
Proof.
  intros p. unfold is_file, is_dir, is_symlink, iterdir, readlink.
  rewrite stat_erase, lookup_erase.
  repeat split.
  - by destruct (stat fs p) as [[]|].
  - by destruct (stat fs p) as [[]|].
  - by destruct (FS.lookup fs p) as [[]|].
  - destruct (stat fs p) as [[ls|t|[|] es]|]; try done.
    cbn [fmap option_fmap option_map erase_contents]. f_equal.
    by rewrite map_map.
  - by destruct (FS.lookup fs p) as [[]|].
Qed.

(** Two trees that differ only in what their regular files contain have
    the same root. *)
Corollary root_independent_of_contents (fs : node) (start_path : path)
    (marker_files : list string) :
  find_project_root (erase_contents fs) start_path marker_files
  = find_project_root fs start_path marker_files.
Proof. symmetry. apply find_project_root_same, same_view_erase. Qed.


(** ** The walk *)

Lemma os_walk_dir (fs : node) (keep : string → bool) (top : path)
    (es : list (string * node)) :
  os_walk fs keep top (Dir true es)
  = (top, dir_names fs es, file_names fs es)
      :: flat_map (descend_entry fs keep top) es.
Proof.
  cbn [os_walk]. f_equal.
  induction es as [|[nm sub] es IH]; [done|].
  cbn [flat_map]. rewrite <- IH. done.
Qed.

Lemma os_walk_unlistable (fs : node) (keep : string → bool) (top : path) (n : node) :
  (∀ es, n ≠ Dir true es) → os_walk fs keep top n = [].
Proof. destruct n as [| |[|] es]; intros H; try done. by destruct (H es). Qed.

(** Every directory the walk visits lies below [top], along names that
    were all kept. *)
Lemma os_walk_below (fs : node) (keep : string → bool) (n : node) :
  ∀ (top cur : path) (dirs files : list string),
    (cur, dirs, files) ∈ os_walk fs keep top n →
    ∃ s, cur = top ++ s ∧ Forall (λ c, keep c = true) s.
Proof.
  induction n as [ls|t|l es IH] using node_ind'; intros top cur dirs files Hin.
  - by apply elem_of_nil in Hin.
  - by apply elem_of_nil in Hin.
  - destruct l; [|by apply elem_of_nil in Hin].
    rewrite os_walk_dir in Hin.
    apply elem_of_cons in Hin as [Heq|Hin].
    { exists []. injection Heq as -> _ _. by rewrite app_nil_r. }
    apply list_elem_of_In, in_flat_map in Hin as ([nm sub] & Hent & Hin).
    apply list_elem_of_In in Hent, Hin.
    rewrite Forall_forall in IH. specialize (IH _ Hent).
    unfold descend_entry in Hin. cbn [fst snd] in Hin, IH.
    destruct sub as [| |l' es']; try by apply elem_of_nil in Hin.
    destruct (keep nm) eqn:Hkeep; [|by apply elem_of_nil in Hin].
    destruct (IH _ _ _ _ Hin) as (s & -> & Hs).
    exists (nm :: s). split; [by rewrite <- app_assoc|]. by constructor.
Qed.

Lemma entry_Some_elem (nm : string) (es : list (string * node)) (n : node) :
  entry nm es = Some n → (nm, n) ∈ es.
Proof.
  induction es as [|[nm' n'] es IH]; simpl; [done|].
  case_bool_decide as Hnm.
  - intros [= ->]. subst. by left.
  - intros H. right. by apply IH.
Qed.

Lemma lookup_app (fs : node) (p s : path) :
  FS.lookup fs (p ++ s) = FS.lookup fs p ≫= λ n, FS.lookup n s.
Proof.
  revert fs. induction p as [|c p IH]; intros fs; simpl; [done|].
  destruct fs as [| |l es]; try done.
  destruct (entry c es); [apply IH | done].
Qed.

(** The walk reaches every directory that can be reached from [top]
    through listable real directories with kept names. *)
Lemma os_walk_reaches (fs : node) (keep : string → bool) (s : path) :
  ∀ (top : path) (n : node),
    walkable n s = true → Forall (λ c, keep c = true) s →
    ∃ es, FS.lookup n s = Some (Dir true es)
          ∧ (top ++ s, dir_names fs es, file_names fs es) ∈ os_walk fs keep top n.
Proof.
  induction s as [|c s IH]; intros top n Hwalk Hkeep.
  - destruct n as [| |[|] es]; try done.
    exists es. split; [done|]. rewrite os_walk_dir, app_nil_r. by left.
  - destruct n as [| |[|] es]; try done.
    cbn [walkable] in Hwalk. cbn [FS.lookup].
    destruct (entry c es) as [sub|] eqn:Hent; [|done].
    apply Forall_cons in Hkeep as [Hc Hs].
    destruct (IH (top ++ [c]) sub Hwalk Hs) as (es' & Hlook & Hin).
    exists es'. split; [done|].
    rewrite os_walk_dir. right.
    apply list_elem_of_In, in_flat_map. exists (c, sub).
    split; [by apply list_elem_of_In, entry_Some_elem|].
    apply list_elem_of_In. unfold descend_entry. cbn [fst snd].
    rewrite Hc. rewrite <- app_assoc in Hin.
    destruct sub as [| |l' es'']; [by destruct s..|done].
Qed.

(** ** Loops as folds *)

Lemma fold_left_inv {A B : Type} (Q : A → Prop) (f : A → B → A) (l : list B) (a : A) :
  (∀ a y, y ∈ l → Q a → Q (f a y)) → Q a → Q (fold_left f l a).
Proof.
  revert a. induction l as [|x l IH]; intros a Hstep Ha; simpl; [done|].
  apply IH.
  - intros a' y Hy. apply Hstep. by right.
  - apply Hstep; [by left | done].
Qed.

(** A property that every round keeps and that the round of [x]
    establishes holds after the loop. *)
Lemma fold_left_elem {A B : Type} (Q : A → Prop) (f : A → B → A) (l : list B)
    (a : A) (x : B) :
  (∀ a y, Q a → Q (f a y)) → (∀ a, Q (f a x)) → x ∈ l → Q (fold_left f l a).
Proof.
  intros Hkeep Hx. revert a.
  induction l as [|y l IH]; intros a Hin; [by apply elem_of_nil in Hin|].
  simpl. apply elem_of_cons in Hin as [->|Hin].
  - apply fold_left_inv; [intros; by apply Hkeep | apply Hx].
  - by apply IH.
Qed.

(** ** Loops that may raise *)

(** A loop that completes has run the bodies that return. *)
Lemma foldM_returns {A B : Type} (f : A → B → outcome A) (g : A → B → A)
    (l : list B) (a b : A) :
  (∀ a x b, f a x = Done b → b = g a x) →
  foldM f l a = Done b → b = fold_left g l a.
Proof.
  intros Hf. revert a. induction l as [|x l IH]; intros a; simpl.
  - by intros [= ->].
  - destruct (f a x) as [a'|e] eqn:Hx; [|done]. apply Hf in Hx as ->. apply IH.
Qed.

(** A loop whose bodies all return completes. *)
Lemma foldM_completes {A B : Type} (f : A → B → outcome A) (g : A → B → A)
    (l : list B) (a : A) :
  (∀ a x, x ∈ l → f a x = Done (g a x)) →
  foldM f l a = Done (fold_left g l a).
Proof.
  revert a. induction l as [|x l IH]; intros a Hf; simpl; [done|].
  rewrite Hf by left. apply IH. intros a' y Hy. apply Hf. by right.
Qed.

(** A loop that completes has run the body of every element, and the
    body returned. *)
Lemma foldM_reaches {A B : Type} (f : A → B → outcome A) (l : list B) (a b : A) (x : B) :
  foldM f l a = Done b → x ∈ l → ∃ a' b', f a' x = Done b'.
Proof.
  revert a. induction l as [|y l IH]; intros a Hdone Hx; [by apply elem_of_nil in Hx|].
  simpl in Hdone. destruct (f a y) as [a'|e] eqn:Hy; [|done].
  apply elem_of_cons in Hx as [->|Hx]; [by eauto|]. by apply (IH a').
Qed.

(** Two loops over the same list, of which the second returns in step
    with the first. *)
Lemma foldM_follows {A B C : Type} (Rel : A → C → Prop) (f : A → B → outcome A)
    (g : C → B → outcome C) (l : list B) (a b : A) (c : C) :
  (∀ a c x b, x ∈ l → Rel a c → f a x = Done b → ∃ d, g c x = Done d ∧ Rel b d) →
  Rel a c → foldM f l a = Done b → ∃ d, foldM g l c = Done d ∧ Rel b d.
Proof.
  revert a c. induction l as [|x l IH]; intros a c Hstep Hrel; simpl.
  - intros [= ->]. eauto.
  - destruct (f a x) as [a'|e] eqn:Hx; [|done]. intros Hdone.
    destruct (Hstep a c x a' ltac:(left) Hrel Hx) as (c' & -> & Hrel').
    apply (IH a' c'); [|done..]. intros ? ? y ? Hy. apply Hstep. by right.
Qed.

(** ** The reference table only grows *)

Section References.
Variables (key : string) (who : path).

Lemma add_reference_keeps (k : string) (p : path) (refs : gmap string (gset path)) :
  who ∈ referencing refs key → who ∈ referencing (add_reference k p refs) key.
Proof.
  unfold referencing, add_reference. intros H.
  destruct (decide (k = key)) as [->|Hne].
  - rewrite lookup_insert_eq. simpl. set_solver.
  - by rewrite lookup_insert_ne.
Qed.

Lemma add_reference_adds (refs : gmap string (gset path)) :
  who ∈ referencing (add_reference key who refs) key.
Proof.
  unfold referencing, add_reference. rewrite lookup_insert_eq. simpl. set_solver.
Qed.

Lemma record_resolved_keeps (fs : node) (fp : path) (refs : gmap string (gset path))
    (ref : string) :
  who ∈ referencing refs key → who ∈ referencing (record_resolved_done fs fp refs ref) key.
Proof.
  apply add_reference_keeps.
Qed.

Lemma record_import_keeps (fp : path) (refs : gmap string (gset path)) (ref : string) :
  who ∈ referencing refs key → who ∈ referencing (record_import fp refs ref) key.
Proof. apply add_reference_keeps. Qed.

Lemma process_line_keeps (fs : node) (fp : path) (refs : gmap string (gset path))
    (line : string) :
  who ∈ referencing refs key → who ∈ referencing (process_line_done fs fp refs line) key.
Proof.
  intros H. unfold process_line_done.
  destruct (is_c_file fp); [|destruct (is_cmake_file fp); [|destruct (is_py_file fp)]];
    try done;
    apply (fold_left_inv (λ r, who ∈ referencing r key)); try done;
    intros; by (apply record_resolved_keeps || apply record_import_keeps).
Qed.

Lemma process_file_keeps (fs : node) (spec : interest) (cur : path) (st : scan_state)
    (filename : string) :
  who ∈ referencing (list_referenced st) key →
  who ∈ referencing (list_referenced (process_file_done fs spec cur st filename)) key.
Proof.
  intros H. unfold process_file_done. destruct (is_symlink _ _); [done|]. simpl.
  apply (fold_left_inv (λ r, who ∈ referencing r key)); [|done].
  intros; by apply process_line_keeps.
Qed.

Lemma visit_dir_keeps (fs : node) (spec : interest) (root : path) (excl : gset string)
    (st : scan_state) (item : path * list string * list string) :
  who ∈ referencing (list_referenced st) key →
  who ∈ referencing (list_referenced (visit_dir_done fs spec root excl st item)) key.
Proof.
  intros H. destruct item as [[cur dirs] files]. unfold visit_dir_done.
  destruct (in_excluded excl cur); [done|].
  apply (fold_left_inv (λ s, who ∈ referencing (list_referenced s) key)).
  - intros; by apply process_file_keeps.
  - by destruct (bool_decide (cur ≠ root)).
Qed.

End References.

(** ** Scanned files are processed *)

Lemma in_excluded_true (excl : gset string) (cur : path) :
  in_excluded excl cur = true ↔ ∃ x, x ∈ excl ∧ x ∈ parts cur.
Proof.
  unfold in_excluded. rewrite existsb_exists. split.
  - intros (x & Hx & Hp). apply list_elem_of_In, elem_of_elements in Hx.
    apply bool_decide_eq_true in Hp. eauto.
  - intros (x & Hx & Hp). exists x.
    split; [by apply list_elem_of_In, elem_of_elements | by apply bool_decide_eq_true].
Qed.

Lemma in_excluded_false (excl : gset string) (cur : path) :
  in_excluded excl cur = false ↔ ∀ x, x ∈ excl → x ∉ parts cur.
Proof.
  rewrite <- not_true_iff_false, in_excluded_true. split.
  - intros H x Hx Hp. apply H. eauto.
  - intros H (x & Hx & Hp). by apply (H x).
Qed.

Lemma in_excluded_kept (excl : gset string) (root s : path) :
  in_excluded excl (root ++ s) = false →
  Forall (λ c, bool_decide (c ∉ excl) = true) s.
Proof.
  rewrite in_excluded_false. intros H. apply Forall_forall. intros c Hc.
  apply bool_decide_eq_true. intros Hex. apply (H c Hex).
  unfold parts. set_solver.
Qed.

Lemma scanned_visited (fs : node) (root : path) (excl : gset string) (fp : path)
    (lines : list string) :
  scanned fs root excl fp lines →
  ∃ n cur dirs files filename,
    fp = cur ++ [filename]
    ∧ FS.lookup fs root = Some n
    ∧ (cur, dirs, files) ∈ os_walk fs (λ d, bool_decide (d ∉ excl)) root n
    ∧ in_excluded excl cur = false
    ∧ filename ∈ files
    ∧ is_symlink fs fp = false
    ∧ read_lines fs fp = lines.
Proof.
  intros (n & s & filename & -> & Hroot & Hwalk & Hexcl & Hfile).
  destruct (os_walk_reaches fs (λ d, bool_decide (d ∉ excl)) s root n Hwalk
              (in_excluded_kept _ _ _ Hexcl)) as (es & Hdir & Hin).
  exists n, (root ++ s), (dir_names fs es), (file_names fs es), filename.
  assert (FS.lookup fs ((root ++ s) ++ [filename]) = Some (File lines)) as Hfp.
  { rewrite <- app_assoc, lookup_app, Hroot. done. }
  repeat split; try done.
  - rewrite lookup_app, Hdir in Hfile. simpl in Hfile.
    destruct (entry filename es) as [e|] eqn:Hent; [|done].
    injection Hfile as ->. apply entry_Some_elem in Hent.
    unfold file_names. apply list_elem_of_fmap. exists (filename, File lines).
    split; [done|]. apply list_elem_of_In, filter_In.
    split; [by apply list_elem_of_In | done].
  - unfold is_symlink. by rewrite Hfp.
  - unfold read_lines, stat. by rewrite Hfp.
Qed.

(** A reference that the round of one line of a scanned file records,
    whatever was recorded before, is in the table when the pass ends. *)
Lemma analyze_processes_line (fs : node) (spec : interest) (root : path)
    (excl : gset string) (fp : path) (lines : list string) (line key : string)
    (who : path) :
  scanned fs root excl fp lines → line ∈ lines →
  (∀ refs, who ∈ referencing (process_line_done fs fp refs line) key) →
  who ∈ referencing (list_referenced (pass_state fs spec root excl)) key.
Proof.
  intros Hscan Hline Hadds.
  destruct (scanned_visited _ _ _ _ _ Hscan)
    as (n & cur & dirs & files & filename & -> & Hroot & Hitem & Hexcl & Hfile & Hsym & Hread).
  unfold pass_state. rewrite Hroot.
  apply (fold_left_elem (λ st, who ∈ referencing (list_referenced st) key)
           _ _ _ (cur, dirs, files)); [| |done].
  { intros; by apply visit_dir_keeps. }
  intros st. unfold visit_dir_done. rewrite Hexcl.
  apply (fold_left_elem (λ st, who ∈ referencing (list_referenced st) key)
           _ _ _ filename); [| |done].
  { intros; by apply process_file_keeps. }
  intros st'. unfold process_file_done. rewrite Hsym, Hread. cbn [list_referenced].
  apply (fold_left_elem (λ r, who ∈ referencing r key) _ _ _ line); [|done..].
  intros; by apply process_line_keeps.
Qed.

(** The Missing section lists every referenced basename that no cataloged
    file bears, with all the files that reference it. *)
Lemma missing_lines_complete (proj : string) (root : path) (st : scan_state)
    (key : string) (who : path) :
  who ∈ referencing (list_referenced st) key →
  key ∉ exist_set (list_exist st) →
  ∃ ps, (key, ps) ∈ missing_lines (generate_report proj root st) ∧ who ∈ ps.
Proof.
  intros Hwho Hnex.
  exists (sorted_paths (elements (referencing (list_referenced st) key))).
  split.
  - cbn [generate_report missing_lines].
    apply list_elem_of_fmap. exists key. split; [done|].
    apply elem_of_missing_basenames. split; [|done].
    unfold ref_set. apply elem_of_dom. unfold referencing in Hwho.
    destruct (list_referenced st !! key); [done | set_solver].
  - by apply elem_of_sorted_paths, elem_of_elements.
Qed.

(** ** Which branch reads a file *)

Lemma last_char_app (prev : option ascii) (a b : string) :
  Re.last_char prev (a +:+ b) = Re.last_char (Re.last_char prev a) b.
Proof. revert prev. induction a as [|c a IH]; intros prev; simpl; [done | apply IH]. Qed.

Lemma lower_app (a b : string) : lower (a +:+ b) = lower a +:+ lower b.
Proof. induction a as [|c a IH]; simpl; [done | by rewrite IH]. Qed.

Lemma drop_chars_last (n : nat) (s : string) (c : ascii) (t : string) (prev : option ascii) :
  drop_chars n s = String c t → Re.last_char prev s = Re.last_char (Some c) t.
Proof.
  revert s prev. induction n as [|n IH]; intros s prev; simpl.
  - by intros ->.
  - destruct s as [|c' s']; [done|]. intros H. simpl. by apply IH.
Qed.

Lemma endswith_last (s : string) (c : ascii) (t : string) :
  endswith s (String c t) = true →
  Re.last_char None s = Re.last_char (Some c) t.
Proof.
  unfold endswith. intros H%bool_decide_eq_true. by eapply drop_chars_last.
Qed.

Lemma from_last_dot_suffix (s t : string) :
  from_last_dot s = Some t → ∃ pre, s = pre +:+ t.
Proof.
  revert t. induction s as [|c s IH]; intros t; simpl; [done|].
  destruct (from_last_dot s) as [t'|].
  - intros [= <-]. destruct (IH t' eq_refl) as [pre ->]. by exists (String c pre).
  - destruct (is_char "." c); [|done]. intros [= <-]. by exists EmptyString.
Qed.

Lemma name_suffix_ends (nm t : string) :
  name_suffix nm = t → t ≠ EmptyString → ∃ pre, nm = pre +:+ t.
Proof.
  unfold name_suffix. destruct nm as [|c rest]; [by intros <-|].
  destruct (from_last_dot rest) as [t'|] eqn:Hdot; [|by intros <-].
  case_bool_decide; [by intros <-|]. intros <- _.
  destruct (from_last_dot_suffix _ _ Hdot) as [pre ->]. by exists (String c pre).
Qed.

(** A file with the suffix [.py] is read by the import branch: it is
    neither a C file nor a build script. *)
Lemma py_file_branch (fp : path) :
  is_py_file fp = true → is_c_file fp = false ∧ is_cmake_file fp = false.
Proof.
  unfold is_py_file, is_c_file, is_cmake_file, suffix.
  intros Hpy%bool_decide_eq_true. rewrite Hpy. split; [done|].
  destruct (name_suffix_ends _ _ Hpy) as [pre Hname]; [done|].
  rewrite Hname, lower_app.
  assert (Re.last_char None (lower pre +:+ lower ".py") = Some "y"%char) as Hlast.
  { by rewrite last_char_app. }
  apply orb_false_iff. split; apply not_true_iff_false; intros Hend;
    apply endswith_last in Hend; rewrite Hlast in Hend; discriminate Hend.
Qed.

(** ** What the patterns find on a directive *)

Lemma is_char_refl (c : ascii) : is_char c c = true.
Proof. by apply bool_decide_eq_true. Qed.

Lemma strip_app (l s : string) : Re.strip l (l +:+ s) = Some s.
Proof.
  induction l as [|c l IH]; simpl; [by destruct s|]. by rewrite is_char_refl.
Qed.

Lemma length_app_string (a b : string) :
  String.length (a +:+ b) = String.length a + String.length b.
Proof. induction a as [|c a IH]; simpl; [done | by rewrite IH]. Qed.

Lemma take_chars_app (a b : string) : take_chars (String.length a) (a +:+ b) = a.
Proof. induction a as [|c a IH]; simpl; [done | by rewrite IH]. Qed.

Lemma take_captured (a b : string) :
  take_chars (String.length (a +:+ b) - String.length b) (a +:+ b) = a.
Proof.
  rewrite length_app_string.
  replace (String.length a + String.length b - String.length b)
    with (String.length a) by lia.
  apply take_chars_app.
Qed.

Section Runs.
Context {R : Type}.
Variables (cls : ascii → bool) (k : option ascii → string → option R).

Lemma rep_greedy_run (prev : option ascii) (m rest : string) (r : R) :
  all_chars cls m = true → run_ends cls rest →
  k (Re.last_char prev m) rest = Some r →
  Re.rep_greedy cls prev (m +:+ rest) k = Some r.
Proof.
  revert prev. induction m as [|c m IH]; intros prev Hall Hend Hk; simpl in *.
  - destruct rest as [|c rest]; simpl in *; [done|]. by rewrite Hend.
  - apply andb_true_iff in Hall as [-> Hall]. by rewrite (IH (Some c)).
Qed.

Lemma rep_star_run (prev : option ascii) (m rest : string) (r : R) :
  all_chars cls m = true → run_ends cls rest →
  k (Re.last_char prev m) rest = Some r →
  Re.rep true 0 cls prev (m +:+ rest) k = Some r.
Proof. apply rep_greedy_run. Qed.

Lemma rep_plus_run (prev : option ascii) (m rest : string) (r : R) :
  m ≠ EmptyString → all_chars cls m = true → run_ends cls rest →
  k (Re.last_char prev m) rest = Some r →
  Re.rep true 1 cls prev (m +:+ rest) k = Some r.
Proof.
  destruct m as [|c m]; [done|]. intros _ Hall Hend Hk. simpl in Hall, Hk |- *.
  apply andb_true_iff in Hall as [-> Hall]. by apply rep_greedy_run.
Qed.

End Runs.

Lemma run_ends_app (cls cls' : ascii → bool) (m rest : string) :
  m ≠ EmptyString → all_chars cls' m = true →
  (∀ c, cls' c = true → cls c = false) → run_ends cls (m +:+ rest).
Proof.
  destruct m as [|c m]; [done|]. simpl. intros _ [Hc _]%andb_true_iff Hdis.
  by apply Hdis.
Qed.

Lemma name_char_not_space (c : ascii) : cmake_name_char c = true → is_space c = false.
Proof. destruct c as [[] [] [] [] [] [] [] []]; vm_compute; congruence. Qed.

Lemma space_not_name_char (c : ascii) : is_space c = true → cmake_name_char c = false.
Proof. destruct c as [[] [] [] [] [] [] [] []]; vm_compute; congruence. Qed.

(** [from <m> import] at the start of a line: the group captures the
    whole of [m], dots included. *)
Lemma match_import_directive (ws1 m ws2 rest : string) (prev : option ascii)
    (gopen cap : string) :
  ws1 ≠ EmptyString → all_chars is_space ws1 = true →
  m ≠ EmptyString → all_chars cmake_name_char m = true →
  ws2 ≠ EmptyString → all_chars is_space ws2 = true →
  Re.match_here import_pattern prev
    ("from" +:+ ws1 +:+ m +:+ ws2 +:+ "import" +:+ rest) gopen cap
  = Some (m, rest).
Proof.
  intros Hws1 Hs1 Hm Hcm Hws2 Hs2.
  unfold import_pattern. cbn [Re.match_here].
  rewrite strip_app.
  apply rep_plus_run; [done..| |].
  { eapply run_ends_app; [done..|]. apply name_char_not_space. }
  cbn [Re.match_here].
  apply rep_plus_run; [done..| |].
  { eapply run_ends_app; [done..|]. apply space_not_name_char. }
  cbn [Re.match_here]. rewrite take_captured.
  apply rep_plus_run; [done..| |].
  { done. }
  cbn [Re.match_here]. by rewrite strip_app.
Qed.

Lemma findall_import_directive (ws1 m ws2 rest : string) :
  ws1 ≠ EmptyString → all_chars is_space ws1 = true →
  m ≠ EmptyString → all_chars cmake_name_char m = true →
  ws2 ≠ EmptyString → all_chars is_space ws2 = true →
  m ∈ Re.findall import_pattern
        ("from" +:+ ws1 +:+ m +:+ ws2 +:+ "import" +:+ rest).
Proof.
  intros. unfold Re.findall.
  pose proof (match_import_directive ws1 m ws2 rest None EmptyString EmptyString)
    as Hmatch.
  change ("from" +:+ ws1 +:+ m +:+ ws2 +:+ "import" +:+ rest)
    with (String "f" ("rom" +:+ ws1 +:+ m +:+ ws2 +:+ "import" +:+ rest)) in *.
  cbn [Re.scan]. rewrite Hmatch by done. by left.
Qed.

(** A quoted include at the start of a line: the group captures the text
    between the quotes. *)
Lemma match_include_directive (ws1 ws2 t rest : string) (prev : option ascii)
    (gopen cap : string) :
  all_chars is_space ws1 = true → all_chars is_space ws2 = true →
  t ≠ EmptyString → all_chars not_dquote t = true →
  Re.match_here include_pattern prev
    ("#" +:+ ws1 +:+ "include" +:+ ws2 +:+ String dquote (t +:+ String dquote rest))
    gopen cap
  = Some (t, rest).
Proof.
  intros Hs1 Hs2 Ht Hq.
  unfold include_pattern. cbn [Re.match_here].
  rewrite strip_app.
  apply rep_star_run; [done| by vm_compute |].
  cbn [Re.match_here]. rewrite strip_app.
  apply rep_star_run; [done| by vm_compute |].
  cbn [Re.match_here]. rewrite is_char_refl.
  apply rep_plus_run; [done | done | |].
  { unfold run_ends, not_dquote. by rewrite is_char_refl. }
  cbn [Re.match_here]. rewrite take_captured. by rewrite is_char_refl.
Qed.

Lemma findall_include_directive (ws1 ws2 t rest : string) :
  all_chars is_space ws1 = true → all_chars is_space ws2 = true →
  t ≠ EmptyString → all_chars not_dquote t = true →
  t ∈ Re.findall include_pattern
        ("#" +:+ ws1 +:+ "include" +:+ ws2 +:+ String dquote (t +:+ String dquote rest)).
Proof.
  intros. unfold Re.findall.
  pose proof (match_include_directive ws1 ws2 t rest None EmptyString EmptyString)
    as Hmatch.
  change ("#" +:+ ws1 +:+ "include" +:+ ws2 +:+ String dquote (t +:+ String dquote rest))
    with (String "#" (ws1 +:+ "include" +:+ ws2 +:+ String dquote (t +:+ String dquote rest)))
    in *.
  cbn [Re.scan]. rewrite Hmatch by done. by left.
Qed.

(** ** Path resolution *)

Lemma checked_step_lax (fs : node) (cur : path) (c : string) (q : path) :
  checked_step false fs cur c = Done q → q = resolve_step fs cur c.
Proof.
  unfold checked_step, resolve_step, readlink.
  case_bool_decide; [by intros [= ->]|].
  destruct (FS.lookup fs (cur ++ [c])) as [[ls|t|l es]|]; try (by intros [= ->]).
  destruct (FS.lookup fs t) as [[ls|t'|l es]|]; try done; by intros [= ->].
Qed.

(** When resolution returns, it returns the path resolved as far as
    possible. *)
Lemma resolve_returns (fs : node) (p q : path) :
  resolve false fs p = Done q → q = realpath fs p.
Proof.
  unfold resolve, realpath. destruct (existsb _ _); [done|].
  apply foldM_returns. apply checked_step_lax.
Qed.

(** Without the strict flag, resolution never raises [FileNotFoundError]. *)
Lemma resolve_never_missing (fs : node) (p : path) :
  resolve false fs p ≠ Raised FileNotFoundError.
Proof.
  unfold resolve. destruct (existsb _ _); [done|].
  generalize ([] : path). induction p as [|c p IH]; intros cur; simpl; [done|].
  destruct (checked_step false fs cur c) as [q|e] eqn:Hstep; [apply IH|].
  intros [= ->]. unfold checked_step in Hstep.
  case_bool_decide; [done|].
  destruct (FS.lookup fs (cur ++ [c])) as [[ls|t|l es]|]; try done.
  by destruct (FS.lookup fs t) as [[ls|t'|l es]|].
Qed.

Lemma resolve_lax (fs : node) (p : path) :
  resolve false fs p = Done (realpath fs p)
  ∨ resolve false fs p = Raised ValueError
  ∨ resolve false fs p = Raised RuntimeError.
Proof.
  destruct (resolve false fs p) as [q'|e'] eqn:Hres.
  - left. by rewrite (resolve_returns _ _ _ Hres).
  - right. pose proof (resolve_never_missing fs p) as Hnot. rewrite Hres in Hnot.
    unfold resolve in Hres. destruct (existsb _ _); [left; by injection Hres as <-|].
    right. f_equal. clear Hnot. revert Hres. generalize ([] : path).
    induction p as [|c p IH]; intros cur; simpl; [done|].
    destruct (checked_step false fs cur c) as [q'|e''] eqn:Hstep; [apply IH|].
    intros [= ->]. unfold checked_step in Hstep.
    case_bool_decide; [done|].
    destruct (FS.lookup fs (cur ++ [c])) as [[ls|t|l es]|]; try done.
    destruct (FS.lookup fs t) as [[ls|t'|l es]|]; try done. by injection Hstep as <-.
Qed.

Lemma realpath_snoc (fs : node) (l : path) (b : string) :
  realpath fs (l ++ [b]) = resolve_step fs (realpath fs l) b.
Proof. unfold realpath. by rewrite fold_left_app. Qed.

Lemma name_snoc (l : path) (b : string) : name (l ++ [b]) = b.
Proof. unfold name. by rewrite last_snoc. Qed.

(** A final component that names nothing is kept as written. *)
Lemma name_realpath_plain (fs : node) (l : path) (b : string) :
  b ≠ ".." → readlink fs (realpath fs l ++ [b]) = None →
  name (realpath fs (l ++ [b])) = b.
Proof.
  intros Hb Hlink. rewrite realpath_snoc. unfold resolve_step.
  rewrite bool_decide_false by done. rewrite Hlink. apply name_snoc.
Qed.

Lemma record_resolved_adds (fs : node) (fp : path) (refs : gmap string (gset path))
    (ref : string) :
  fp ∈ referencing (record_resolved_done fs fp refs ref)
         (name (realpath fs (joinpath (parent fp) ref))).
Proof. apply add_reference_adds. Qed.

Lemma process_line_include (fs : node) (fp : path) (refs : gmap string (gset path))
    (line ref : string) :
  is_c_file fp = true → ref ∈ Re.findall include_pattern line →
  fp ∈ referencing (process_line_done fs fp refs line)
         (name (realpath fs (joinpath (parent fp) ref))).
Proof.
  intros Hc Href. unfold process_line_done. rewrite Hc.
  apply (fold_left_elem (λ r, fp ∈ referencing r _) _ _ _ ref); [| |done].
  - intros; by apply record_resolved_keeps.
  - intros; apply record_resolved_adds.
Qed.

Lemma process_line_import (fs : node) (fp : path) (refs : gmap string (gset path))
    (line ref : string) :
  is_py_file fp = true → ref ∈ Re.findall import_pattern line →
  fp ∈ referencing (process_line_done fs fp refs line) (ref +:+ ".py").
Proof.
  intros Hpy Href. unfold process_line_done.
  destruct (py_file_branch fp Hpy) as [-> ->]. rewrite Hpy.
  apply (fold_left_elem (λ r, fp ∈ referencing r _) _ _ _ ref); [| |done].
  - intros; by apply record_import_keeps.
  - intros; apply add_reference_adds.
Qed.

(** ** A pass that completes

    When a loop of the pass completes, it has built what the loop without
    exceptions builds. *)

Lemma record_resolved_returns (fs : node) (fp : path) (refs r : gmap string (gset path))
    (ref : string) :
  record_resolved fs fp refs ref = Done r → r = record_resolved_done fs fp refs ref.
Proof.
  unfold record_resolved, record_resolved_done.
  destruct (resolve false fs _) as [q|e] eqn:Hres.
  - apply resolve_returns in Hres as ->. by intros [= <-].
  - destruct e; try done. by destruct (resolve_never_missing _ _ Hres).
Qed.

Lemma process_line_returns (fs : node) (fp : path) (refs r : gmap string (gset path))
    (line : string) :
  process_line fs fp refs line = Done r → r = process_line_done fs fp refs line.
Proof.
  unfold process_line, process_line_done.
  destruct (is_c_file fp); [|destruct (is_cmake_file fp); [|destruct (is_py_file fp)]];
    try (by intros [= <-]);
    apply foldM_returns; intros ? ? ?; apply record_resolved_returns.
Qed.

Lemma open_lines_returns (fs : node) (p : path) (ls : list string) :
  open_lines fs p = Done ls → read_lines fs p = ls.
Proof.
  unfold open_lines, read_lines, stat.
  destruct (FS.lookup fs p) as [[ls'|t|l es]|]; try done; [by intros [= ->]|].
  destruct (FS.lookup fs t) as [[ls'|t'|l es]|]; try done. by intros [= ->].
Qed.

Lemma open_lines_missing (fs : node) (p : path) :
  open_lines fs p = Raised FileNotFoundError → read_lines fs p = [].
Proof.
  unfold open_lines, read_lines, stat.
  destruct (FS.lookup fs p) as [[ls'|t|l es]|]; try done.
  by destruct (FS.lookup fs t) as [[ls'|t'|l es]|].
Qed.

Lemma process_file_returns (fs : node) (spec : interest) (cur : path)
    (st st' : scan_state) (filename : string) :
  process_file fs spec cur st filename = Done st' →
  st' = process_file_done fs spec cur st filename.
Proof.
  unfold process_file, process_file_done.
  destruct (is_symlink fs _); [by intros [= <-]|]. cbn [list_referenced list_exist
    found_files_map key_subfolders no_go_areas].
  destruct (open_lines fs _) as [ls|e] eqn:Hopen.
  - rewrite (open_lines_returns _ _ _ Hopen).
    destruct (foldM _ ls _) as [refs|e] eqn:Hloop; [|done].
    apply (foldM_returns _ (process_line_done fs (cur ++ [filename]))) in Hloop as ->;
      [by intros [= <-]|].
    intros ? ? ?; apply process_line_returns.
  - destruct e; try done. rewrite (open_lines_missing _ _ Hopen). by intros [= <-].
Qed.

Lemma visit_dir_returns (fs : node) (spec : interest) (root : path) (excl : gset string)
    (st st' : scan_state) (item : path * list string * list string) :
  visit_dir fs spec root excl st item = Done st' →
  st' = visit_dir_done fs spec root excl st item.
Proof.
  destruct item as [[cur dirs] files]. unfold visit_dir, visit_dir_done.
  destruct (in_excluded excl cur); [by intros [= <-]|].
  apply foldM_returns. intros ? ? ?; apply process_file_returns.
Qed.

Lemma pass_state_walked (fs : node) (spec : interest) (root : path) (excl : gset string) :
  pass_state fs spec root excl
  = fold_left (visit_dir_done fs spec root excl) (walked fs root excl) initial_state.
Proof. unfold pass_state, walked. by destruct (FS.lookup fs root). Qed.

Lemma analyze_project_files_done (fs : node) (spec : interest) (root : path)
    (excl : gset string) (st : scan_state) :
  analyze_project_files fs spec root excl = Done st → st = pass_state fs spec root excl.
Proof.
  rewrite pass_state_walked. apply foldM_returns.
  intros ? ? ?; apply visit_dir_returns.
Qed.

(** A pass that completes has run the line loop on every line of every
    scanned file, and the loop body returned. *)
Lemma analyze_reaches_line (fs : node) (spec : interest) (root : path)
    (excl : gset string) (st : scan_state) (fp : path) (lines : list string)
    (line : string) :
  analyze_project_files fs spec root excl = Done st →
  scanned fs root excl fp lines → line ∈ lines →
  ∃ refs refs', process_line fs fp refs line = Done refs'.
Proof.
  intros Hdone Hscan Hline.
  destruct (scanned_visited _ _ _ _ _ Hscan)
    as (n & cur & dirs & files & filename & -> & Hroot & Hitem & Hexcl & Hfile & Hsym & Hread).
  unfold analyze_project_files, walked in Hdone. rewrite Hroot in Hdone.
  destruct (foldM_reaches _ _ _ _ _ Hdone Hitem) as (st1 & st2 & Hvisit).
  unfold visit_dir in Hvisit. rewrite Hexcl in Hvisit.
  destruct (foldM_reaches _ _ _ _ _ Hvisit Hfile) as (st3 & st4 & Hproc).
  unfold process_file in Hproc. rewrite Hsym in Hproc.
  destruct (open_lines fs (cur ++ [filename])) as [ls|e] eqn:Hopen.
  - pose proof (open_lines_returns _ _ _ Hopen) as Hls.
    rewrite Hread in Hls. subst ls.
    destruct (foldM _ lines _) as [refs|e] eqn:Hloop; [|done].
    destruct (foldM_reaches _ _ _ _ _ Hloop Hline) as (r1 & r2 & Hl). eauto.
  - destruct e; try done. apply open_lines_missing in Hopen.
    rewrite <- Hread, Hopen in Hline. by apply elem_of_nil in Hline.
Qed.

(** A pass that completes has resolved the target of every reference
    that the include or the build-script branch found. *)
Lemma analyze_resolves (fs : node) (spec : interest) (root : path)
    (excl : gset string) (st : scan_state) (fp : path) (lines : list string)
    (line ref : string) :
  analyze_project_files fs spec root excl = Done st →
  scanned fs root excl fp lines → line ∈ lines →
  (is_c_file fp = true ∧ ref ∈ Re.findall include_pattern line)
  ∨ (is_c_file fp = false ∧ is_cmake_file fp = true
     ∧ ref ∈ Re.findall cmake_pattern line) →
  resolve false fs (joinpath (parent fp) ref)
  = Done (realpath fs (joinpath (parent fp) ref)).
Proof.
  intros Hdone Hscan Hline Href.
  destruct (analyze_reaches_line _ _ _ _ _ _ _ _ Hdone Hscan Hline)
    as (refs & refs' & Hl).
  unfold process_line in Hl.
  assert (∃ r r', record_resolved fs fp r ref = Done r') as (r & r' & Hrec).
  { destruct Href as [[Hc Href]|(Hc & Hcm & Href)].
    - rewrite Hc in Hl. apply (foldM_reaches _ _ _ _ _ Hl Href).
    - rewrite Hc, Hcm in Hl. apply (foldM_reaches _ _ _ _ _ Hl Href). }
  unfold record_resolved in Hrec.
  destruct (resolve_lax fs (joinpath (parent fp) ref)) as [H|[H|H]];
    [done | by rewrite H in Hrec..].
Qed.

(** The pass on the sample project completes. *)
Lemma tree_project_pass :
  analyze_project_files tree_project default_interest ["r"] DEFAULT_FOLDERS_TO_EXCLUDE
  = Done (pass_state tree_project default_interest ["r"] DEFAULT_FOLDERS_TO_EXCLUDE).
Proof. vm_compute. reflexivity. Qed.

Lemma tree_cmake_pass :
  analyze_project_files tree_cmake default_interest ["r"] DEFAULT_FOLDERS_TO_EXCLUDE
  = Done (pass_state tree_cmake default_interest ["r"] DEFAULT_FOLDERS_TO_EXCLUDE).
Proof. vm_compute. reflexivity. Qed.

(** ** The include branch *)

(** C1, as the program behaves: resolution without the strict flag never
    raises [FileNotFoundError], so the handler next to it is never
    entered; and in every pass that completes, a quoted include found in
    a scanned [.c] or [.h] file has been resolved and recorded, whether
    or not its target exists. The reference is filed under the last
    component of the resolved target, which for a target that names
    nothing is the component as written; and when no cataloged file
    bears that name the Missing section lists it with the including
    file. *)
Theorem include_reference_recorded (fs : node) (spec : interest) (root_path : path)
    (exclude_dirs : gset string) (proj : string) (file_path : path)
    (lines : list string) (line ref : string) :
  scanned fs root_path exclude_dirs file_path lines →
  is_c_file file_path = true →
  line ∈ lines →
  ref ∈ Re.findall include_pattern line →
  let target := joinpath (parent file_path) ref in
  let key := name (realpath fs target) in
  resolve false fs target ≠ Raised FileNotFoundError
  ∧ ∀ st, analyze_project_files fs spec root_path exclude_dirs = Done st →
      resolve false fs target = Done (realpath fs target)
      ∧ file_path ∈ referencing (list_referenced st) key
      ∧ (∀ l b, target = l ++ [b] → b ≠ ".." →
           readlink fs (realpath fs l ++ [b]) = None → key = b)
      ∧ (key ∉ exist_set (list_exist st) →
           ∃ ps, (key, ps) ∈ missing_lines (generate_report proj root_path st)
                 ∧ file_path ∈ ps).
Proof.
  intros Hscan Hc Hline Href target key.
  split; [apply resolve_never_missing|]. intros st Hdone.
  split; [by eapply analyze_resolves; eauto|].
  apply analyze_project_files_done in Hdone as ->.
  set (st := pass_state fs spec root_path exclude_dirs).
  assert (file_path ∈ referencing (list_referenced st) key) as Hrec.
  { eapply analyze_processes_line; [done..|].
    intros refs. by apply process_line_include. }
  split; [done|]. split.
  - intros l b Htarget Hb Hlink. unfold key. rewrite Htarget.
    by apply name_realpath_plain.
  - intros Hnex. by apply missing_lines_complete.
Qed.

Lemma include_reference_recorded_witness :
  scanned tree_project ["r"] DEFAULT_FOLDERS_TO_EXCLUDE ["r"; "util.c"]
    [include_line "foo.h"; include_line "util.h"]
  ∧ ∃ st,
      analyze_project_files tree_project default_interest ["r"]
        DEFAULT_FOLDERS_TO_EXCLUDE = Done st
      ∧ ["r"; "util.c"] ∈ referencing (list_referenced st) "foo.h".
Proof.
  assert (scanned tree_project ["r"] DEFAULT_FOLDERS_TO_EXCLUDE ["r"; "util.c"]
            [include_line "foo.h"; include_line "util.h"]) as Hscan.
  { eexists _, [], "util.c". repeat split; vm_compute; reflexivity. }
  split; [exact Hscan|].
  exists (pass_state tree_project default_interest ["r"] DEFAULT_FOLDERS_TO_EXCLUDE).
  assert (analyze_project_files tree_project default_interest ["r"]
            DEFAULT_FOLDERS_TO_EXCLUDE
          = Done (pass_state tree_project default_interest ["r"]
                    DEFAULT_FOLDERS_TO_EXCLUDE)) as Hdone by (vm_compute; reflexivity).
  split; [exact Hdone|].
  refine (proj1 (proj2 (proj2 (include_reference_recorded tree_project default_interest
            ["r"] DEFAULT_FOLDERS_TO_EXCLUDE "Unknown" ["r"; "util.c"]
            [include_line "foo.h"; include_line "util.h"]
            (include_line "foo.h") "foo.h" Hscan _ _ _) _ Hdone))).
  - reflexivity.
  - by left.
  - by_computation.
Defined.

(** C1, the claim as stated fails: [/r/util.c] includes [foo.h], no
    [foo.h] exists anywhere and strict resolution of the target raises
    [FileNotFoundError], yet the run records the reference and its
    Missing section lists [foo.h] as referenced by [/r/util.c]. *)
Lemma unresolved_include_is_reported :
  read_lines tree_project ["r"; "util.c"] = [include_line "foo.h"; include_line "util.h"]
  ∧ Re.findall include_pattern (include_line "foo.h") = ["foo.h"]
  ∧ resolve true tree_project (joinpath (parent ["r"; "util.c"]) "foo.h")
    = Raised FileNotFoundError
  ∧ ∃ rep,
      main tree_project ["r"] default_arguments = (0, Some rep)
      ∧ ("foo.h", [["r"; "util.c"]]) ∈ missing_lines rep.
Proof.
  repeat split; [reflexivity..|].
  eexists. split; [vm_compute; reflexivity|]. by_computation.
Qed.

(** What resolution does raise: on an include target that holds a NUL
    character, and on one that is a link leading back to itself. Nothing
    catches either, and the run ends without a report. *)
Example include_that_raises :
  resolve false tree_nul_include (joinpath ["r"] (String "a" (String nul "b")))
  = Raised ValueError
  ∧ main tree_nul_include ["r"] default_arguments = (1, None)
  ∧ resolve false tree_looping_include (joinpath ["r"] "loop.h") = Raised RuntimeError
  ∧ main tree_looping_include ["r"] default_arguments = (1, None).
Proof. repeat split; vm_compute; reflexivity. Qed.

(** ** The import branch *)

(** C3, what the program does with a dotted import: [/r/m.py] holds
    [from pkg.helpers import x] and the module [/r/pkg/helpers.py]
    exists. The import branch files the reference under the whole dotted
    path, [pkg.helpers.py], where the two other branches file the name
    of the target ([.resolve().name]) and the classifier compares with
    the names of the cataloged files: the Missing section lists
    [pkg.helpers.py], a name with which no module of a package can be
    cataloged, and the module itself is listed as an orphan. The last
    segment [helpers.py] is not recorded. *)
Theorem dotted_import_misses_module :
  read_lines tree_package_import ["r"; "m.py"] = ["from pkg.helpers import x"]
  ∧ Re.findall import_pattern "from pkg.helpers import x" = ["pkg.helpers"]
  ∧ ∃ st rep,
      analyze_project_files tree_package_import default_interest ["r"]
        DEFAULT_FOLDERS_TO_EXCLUDE = Done st
      ∧ main tree_package_import ["r"] default_arguments = (0, Some rep)
      ∧ ["r"; "pkg"; "helpers.py"] ∈ list_exist st
      ∧ ref_set (list_referenced st) = {[ "pkg.helpers.py" ]}
      ∧ missing_lines rep = [("pkg.helpers.py", [["r"; "m.py"]])]
      ∧ ["r"; "pkg"; "helpers.py"] ∈ orphan_lines rep.
Proof.
  repeat split; [reflexivity..|].
  eexists _, _. split; [vm_compute; reflexivity|]. split; [vm_compute; reflexivity|].
  split; [by_computation|]. split; [by vm_compute|].
  split; [by vm_compute | by_computation].
Qed.

(** ** Pruned directories *)

Lemma process_file_no_go (fs : node) (spec : interest) (cur : path) (st : scan_state)
    (filename : string) :
  no_go_areas (process_file_done fs spec cur st filename) = no_go_areas st.
Proof. unfold process_file_done. by destruct (is_symlink _ _). Qed.

Lemma process_files_no_go (fs : node) (spec : interest) (cur : path)
    (files : list string) (st : scan_state) :
  no_go_areas (fold_left (process_file_done fs spec cur) files st) = no_go_areas st.
Proof.
  revert st. induction files as [|f files IH]; intros st; simpl; [done|].
  by rewrite IH, process_file_no_go.
Qed.

(** One round of the walk loop appends the paths it pruned. *)
Lemma visit_dir_no_go (fs : node) (spec : interest) (root : path) (excl : gset string)
    (st : scan_state) (cur : path) (dirs files : list string) :
  no_go_areas (visit_dir_done fs spec root excl st (cur, dirs, files))
  = no_go_areas st ++ map (λ d, str (cur ++ [d])) (pruned_dirs excl dirs).
Proof.
  unfold visit_dir_done. destruct (in_excluded excl cur); [done|].
  rewrite process_files_no_go. by destruct (bool_decide (cur ≠ root)).
Qed.

Lemma elem_of_pruned_dirs (excl : gset string) (dirs : list string) (d : string) :
  d ∈ pruned_dirs excl dirs ↔ d ∈ dirs ∧ d ∈ excl.
Proof.
  unfold pruned_dirs, kept_dirs.
  rewrite elem_of_elements, elem_of_difference, !elem_of_list_to_set.
  split.
  - intros [Hd Hnot]. split; [done|].
    destruct (decide (d ∈ excl)) as [|Hn]; [done|]. destruct Hnot.
    apply list_elem_of_In, filter_In.
    split; [by apply list_elem_of_In | by apply bool_decide_eq_true].
  - intros [Hd Hex]. split; [done|].
    intros [_ Hn%bool_decide_eq_true]%list_elem_of_In%filter_In. by apply Hn.
Qed.

Lemma lookup_dir_name (fs n : node) (s : path) (d : string) (es : list (string * node))
    (l : bool) (sub : list (string * node)) :
  FS.lookup n s = Some (Dir true es) →
  FS.lookup n (s ++ [d]) = Some (Dir l sub) →
  d ∈ dir_names fs es.
Proof.
  intros Hdir Hsub. rewrite lookup_app, Hdir in Hsub. simpl in Hsub.
  destruct (entry d es) as [e|] eqn:Hent; [|done]. injection Hsub as ->.
  apply entry_Some_elem in Hent.
  unfold dir_names. apply list_elem_of_fmap. exists (d, Dir l sub).
  split; [done|]. apply list_elem_of_In, filter_In.
  split; [by apply list_elem_of_In | done].
Qed.

(** C2, as the program behaves: the exclusion set plays no part in the
    root locator, which can return a directory named in it; it acts in
    the catalog pass only. There, for every real directory [root/s/d]
    whose name [d] is in the exclusion set and whose parent the walk
    reaches (through listable directories with names outside the set),
    the walk that the pass runs visits neither the directory nor
    anything below it, and every pass that completes has recorded its
    path in the excluded regions. *)
Theorem excluded_directory_pruned_and_recorded (fs : node) (spec : interest)
    (root_path : path) (exclude_dirs : gset string) (n : node) (s : path)
    (d : string) (l : bool) (sub : list (string * node)) :
  FS.lookup fs root_path = Some n →
  walkable n s = true →
  Forall (λ c, c ∉ exclude_dirs) s →
  FS.lookup n (s ++ [d]) = Some (Dir l sub) →
  d ∈ exclude_dirs →
  (∀ t dirs files,
     (root_path ++ s ++ [d] ++ t, dirs, files) ∉ walked fs root_path exclude_dirs)
  ∧ ∀ st, analyze_project_files fs spec root_path exclude_dirs = Done st →
      str (root_path ++ s ++ [d]) ∈ no_go_areas st.
Proof.
  intros Hroot Hwalk Hs Hsub Hd. split.
  - intros t dirs files Hin. unfold walked in Hin. rewrite Hroot in Hin.
    destruct (os_walk_below _ _ _ _ _ _ _ Hin) as (s' & Heq & Hkeep).
    apply app_inv_head in Heq. subst s'.
    apply Forall_app in Hkeep as [_ Hkeep].
    apply Forall_cons in Hkeep as [Hkeep _].
    apply bool_decide_eq_true in Hkeep. by apply Hkeep.
  - intros st ->%analyze_project_files_done.
    assert (Forall (λ c, bool_decide (c ∉ exclude_dirs) = true) s) as Hkeep.
    { eapply Forall_impl; [exact Hs|]. intros c Hc. by apply bool_decide_eq_true. }
    destruct (os_walk_reaches fs _ s root_path n Hwalk Hkeep) as (es & Hdir & Hin).
    unfold pass_state. rewrite Hroot.
    apply (fold_left_elem
             (λ st, str (root_path ++ s ++ [d]) ∈ no_go_areas st) _ _ _
             (root_path ++ s, dir_names fs es, file_names fs es)); [| |done].
    + intros st [[cur dirs] files] Hst. rewrite visit_dir_no_go. set_solver.
    + intros st. rewrite visit_dir_no_go. apply elem_of_app. right.
      apply list_elem_of_fmap. exists d. split; [by rewrite <- app_assoc|].
      apply elem_of_pruned_dirs. split; [|done]. by eapply lookup_dir_name.
Qed.

Lemma excluded_directory_pruned_and_recorded_witness :
  "build" ∈ DEFAULT_FOLDERS_TO_EXCLUDE
  ∧ (∀ dirs files,
       (["r"; "build"], dirs, files)
       ∉ walked tree_project ["r"] DEFAULT_FOLDERS_TO_EXCLUDE)
  ∧ ∃ st,
      analyze_project_files tree_project default_interest ["r"]
        DEFAULT_FOLDERS_TO_EXCLUDE = Done st
      ∧ "/r/build" ∈ no_go_areas st.
Proof.
  assert ("build" ∈ DEFAULT_FOLDERS_TO_EXCLUDE) as Hd by by_computation.
  assert (analyze_project_files tree_project default_interest ["r"]
            DEFAULT_FOLDERS_TO_EXCLUDE
          = Done (pass_state tree_project default_interest ["r"]
                    DEFAULT_FOLDERS_TO_EXCLUDE)) as Hdone by (vm_compute; reflexivity).
  pose proof (excluded_directory_pruned_and_recorded tree_project
                default_interest ["r"] DEFAULT_FOLDERS_TO_EXCLUDE
                (Dir true
                   [("LICENSE", File []);
                    ("util.c", File [include_line "foo.h"; include_line "util.h"]);
                    ("util.h", File []);
                    ("a", Dir true
                       [("util.c", File []);
                        ("util.h", File []);
                        ("m.py", File ["from helpers import thing"])]);
                    ("build", Dir true [("sdkconfig", File []); ("x.c", File [])])])
                [] "build" true
                [("sdkconfig", File []); ("x.c", File [])]
                eq_refl eq_refl (List.Forall_nil _) eq_refl Hd) as [Hwalk Hrec].
  split; [exact Hd|]. split.
  - intros dirs files. exact (Hwalk [] dirs files).
  - eexists. split; [exact Hdone|]. exact (Hrec _ Hdone).
Defined.

(** C2, the claim as stated fails: the only marker below [/w] lies in
    [/w/build]; the root locator, started in [/w], returns [/w/build],
    and the catalog pass from that root records no excluded region. *)
Lemma excluded_directory_returned_as_root :
  "build" ∈ DEFAULT_FOLDERS_TO_EXCLUDE
  ∧ is_file tree_marker_in_build ["w"; "build"; "LICENSE"] = true
  ∧ find_project_root tree_marker_in_build ["w"] DEFAULT_ROOT_MARKER_FILES
    = Some ["w"; "build"]
  ∧ ∃ st,
      analyze_project_files tree_marker_in_build default_interest ["w"; "build"]
        DEFAULT_FOLDERS_TO_EXCLUDE = Done st
      ∧ no_go_areas st = [].
Proof.
  split; [by_computation|]. split; [by vm_compute|]. split; [by vm_compute|].
  eexists. split; [vm_compute; reflexivity | reflexivity].
Qed.

(** ** A root below an excluded name *)

(** C9: the excluded-name test looks at every component of the
    directory's absolute path, the ones above the root included. When
    the root path has a component in the exclusion set, every directory
    of the walk fails the test, no file is processed, the pass
    completes, and the catalog (existence list and basename map), the
    reference table and the subfolder table all stay empty. *)
Theorem root_below_excluded_scans_nothing (fs : node) (spec : interest)
    (root_path : path) (exclude_dirs : gset string) (x : string) :
  x ∈ exclude_dirs →
  x ∈ parts root_path →
  (∀ s, in_excluded exclude_dirs (root_path ++ s) = true)
  ∧ ∃ st,
      analyze_project_files fs spec root_path exclude_dirs = Done st
      ∧ nothing_cataloged st.
Proof.
  intros Hx Hparts.
  assert (∀ s, in_excluded exclude_dirs (root_path ++ s) = true) as Hskip.
  { intros s. apply in_excluded_true. exists x. split; [done|].
    unfold parts in *. apply elem_of_cons in Hparts as [->|Hparts]; [by left|].
    right. apply elem_of_app. by left. }
  split; [done|].
  exists (pass_state fs spec root_path exclude_dirs). split.
  - rewrite pass_state_walked. apply foldM_completes.
    intros st [[cur dirs] files] Hin. unfold walked in Hin.
    destruct (FS.lookup fs root_path) as [n|]; [|by apply elem_of_nil in Hin].
    destruct (os_walk_below _ _ _ _ _ _ _ Hin) as (s & -> & _).
    unfold visit_dir, visit_dir_done. by rewrite Hskip.
  - unfold pass_state.
    destruct (FS.lookup fs root_path) as [n|]; [|done].
    apply (fold_left_inv nothing_cataloged); [|done].
    intros st [[cur dirs] files] Hin Hst.
    destruct (os_walk_below _ _ _ _ _ _ _ Hin) as (s & -> & _).
    unfold visit_dir_done. by rewrite Hskip.
Qed.

Lemma root_below_excluded_scans_nothing_witness :
  "build" ∈ DEFAULT_FOLDERS_TO_EXCLUDE
  ∧ "build" ∈ parts ["build"; "proj"]
  ∧ ∃ st,
      analyze_project_files tree_below_build default_interest ["build"; "proj"]
        DEFAULT_FOLDERS_TO_EXCLUDE = Done st
      ∧ nothing_cataloged st.
Proof.
  assert ("build" ∈ DEFAULT_FOLDERS_TO_EXCLUDE) as Hx by by_computation.
  assert ("build" ∈ parts ["build"; "proj"]) as Hp by by_computation.
  split; [exact Hx|]. split; [exact Hp|].
  exact (proj2 (root_below_excluded_scans_nothing tree_below_build default_interest
                  ["build"; "proj"] DEFAULT_FOLDERS_TO_EXCLUDE "build" Hx Hp)).
Defined.

(** ** Orphans go by basename *)

Lemma append_found_keyed (fp : path) (found : gmap string (list path)) :
  catalog_keyed found → catalog_keyed (append_found (name fp) fp found).
Proof.
  intros Hok key paths p. unfold append_found.
  destruct (decide (name fp = key)) as [<-|Hne].
  - rewrite lookup_insert_eq. intros [= <-] [Hp|Hp]%elem_of_app.
    + destruct (found !! name fp) as [ps|] eqn:Hps; [by eapply Hok|].
      by apply elem_of_nil in Hp.
    + by apply list_elem_of_singleton in Hp as ->.
  - rewrite lookup_insert_ne by done. apply Hok.
Qed.

Lemma process_file_keyed (fs : node) (spec : interest) (cur : path) (st : scan_state)
    (filename : string) :
  catalog_keyed (found_files_map st) →
  catalog_keyed (found_files_map (process_file_done fs spec cur st filename)).
Proof.
  intros Hok. unfold process_file_done. destruct (is_symlink _ _); [done|].
  cbn [found_files_map].
  destruct (matches_interest_patterns _ _); [by apply append_found_keyed | done].
Qed.

Lemma visit_dir_keyed (fs : node) (spec : interest) (root : path) (excl : gset string)
    (st : scan_state) (item : path * list string * list string) :
  catalog_keyed (found_files_map st) →
  catalog_keyed (found_files_map (visit_dir_done fs spec root excl st item)).
Proof.
  intros Hok. destruct item as [[cur dirs] files]. unfold visit_dir_done.
  destruct (in_excluded excl cur); [done|].
  apply (fold_left_inv (λ s, catalog_keyed (found_files_map s))).
  - intros; by apply process_file_keyed.
  - by destruct (bool_decide (cur ≠ root)).
Qed.

Lemma analyze_keyed (fs : node) (spec : interest) (root : path) (excl : gset string) :
  catalog_keyed (found_files_map (pass_state fs spec root excl)).
Proof.
  unfold pass_state.
  assert (catalog_keyed (found_files_map initial_state)) as Hinit.
  { intros key paths p H. cbn [initial_state found_files_map] in H.
    by rewrite lookup_empty in H. }
  destruct (FS.lookup fs root); [|done].
  apply (fold_left_inv (λ s, catalog_keyed (found_files_map s))); [|done].
  intros; by apply visit_dir_keyed.
Qed.

Lemma elem_of_orphan_lines (proj : string) (root : path) (st : scan_state) (p : path) :
  p ∈ orphan_lines (generate_report proj root st) →
  ∃ nm, nm ∈ orphan_basenames st ∧ p ∈ default [] (found_files_map st !! nm).
Proof.
  cbn [generate_report orphan_lines].
  intros (ps & Hps & Hp)%list_elem_of_In%in_concat.
  apply in_map_iff in Hps as (nm & <- & Hnm).
  exists nm. split; by apply list_elem_of_In.
Qed.

(** C10: orphans are classified by basename alone. Once any scanned
    file yields a reference to the basename [b], no path printed under
    Orphans is named [b], in whatever directory the file lies and
    whether or not that copy was the one referred to. Here [st] is the
    state that the pass returned. *)
Theorem referenced_basename_never_orphan (fs : node) (spec : interest)
    (root_path : path) (exclude_dirs : gset string) (st : scan_state)
    (proj b : string) (p : path) :
  analyze_project_files fs spec root_path exclude_dirs = Done st →
  b ∈ ref_set (list_referenced st) →
  p ∈ orphan_lines (generate_report proj root_path st) →
  name p ≠ b.
Proof.
  intros ->%analyze_project_files_done Hb Hp Hname.
  apply elem_of_orphan_lines in Hp as (nm & Hnm & Hp).
  apply elem_of_orphan_basenames in Hnm as [_ Hnot].
  destruct (found_files_map _ !! nm) as [ps|] eqn:Hps;
    [|by apply elem_of_nil in Hp].
  rewrite (analyze_keyed fs spec root_path exclude_dirs nm ps p Hps Hp) in Hname.
  subst nm. by apply Hnot.
Qed.

Lemma referenced_basename_never_orphan_witness :
  ∃ st,
    analyze_project_files tree_project default_interest ["r"]
      DEFAULT_FOLDERS_TO_EXCLUDE = Done st
    ∧ "util.h" ∈ ref_set (list_referenced st)
    ∧ ["r"; "util.c"] ∈ orphan_lines (generate_report "Unknown" ["r"] st)
    ∧ name ["r"; "util.c"] ≠ "util.h".
Proof.
  exists (pass_state tree_project default_interest ["r"] DEFAULT_FOLDERS_TO_EXCLUDE).
  assert (analyze_project_files tree_project default_interest ["r"]
            DEFAULT_FOLDERS_TO_EXCLUDE
          = Done (pass_state tree_project default_interest ["r"]
                    DEFAULT_FOLDERS_TO_EXCLUDE)) as Hdone by (vm_compute; reflexivity).
  assert ("util.h"
          ∈ ref_set (list_referenced
                       (pass_state tree_project default_interest ["r"]
                          DEFAULT_FOLDERS_TO_EXCLUDE))) as Hb by by_computation.
  assert (["r"; "util.c"]
          ∈ orphan_lines
              (generate_report "Unknown" ["r"]
                 (pass_state tree_project default_interest ["r"]
                    DEFAULT_FOLDERS_TO_EXCLUDE))) as Hp by by_computation.
  split; [exact Hdone|]. split; [exact Hb|]. split; [exact Hp|].
  exact (referenced_basename_never_orphan tree_project default_interest ["r"]
           DEFAULT_FOLDERS_TO_EXCLUDE _ "Unknown" "util.h" ["r"; "util.c"]
           Hdone Hb Hp).
Defined.

(** The copy [/r/a/util.h] is included by no file, only [/r/util.h] is;
    neither is printed under Orphans. *)
Example unreferenced_copy_is_no_orphan :
  ∃ st,
    analyze_project_files tree_project default_interest ["r"]
      DEFAULT_FOLDERS_TO_EXCLUDE = Done st
    ∧ orphan_lines (generate_report "Unknown" ["r"] st)
      = [["r"; "a"; "m.py"]; ["r"; "util.c"]; ["r"; "a"; "util.c"]].
Proof. eexists. split; [vm_compute; reflexivity | by vm_compute]. Qed.

(** ** The duplicate listing *)

(** C4, on a failing input: [/r/util.c] is cataloged before
    [/r/a/util.c] (a directory's files come before its subdirectories),
    while the sorted order is the reverse. The Warnings entry for
    [util.c] prints the first cataloged path and then the sorted list
    without its first element: [/r/util.c] twice, [/r/a/util.c] never. *)
Theorem duplicate_listing_repeats_first_path :
  ∃ st,
    analyze_project_files tree_project default_interest ["r"]
      DEFAULT_FOLDERS_TO_EXCLUDE = Done st
    ∧ found_files_map st !! "util.c" = Some [["r"; "util.c"]; ["r"; "a"; "util.c"]]
    ∧ sorted_paths [["r"; "util.c"]; ["r"; "a"; "util.c"]]
      = [["r"; "a"; "util.c"]; ["r"; "util.c"]]
    ∧ duplicates_of (found_files_map st) ".c"
      = [("util.c", [["r"; "util.c"]; ["r"; "util.c"]])].
Proof.
  exists (pass_state tree_project default_interest ["r"] DEFAULT_FOLDERS_TO_EXCLUDE).
  split; [vm_compute; reflexivity|]. repeat split; by vm_compute.
Qed.

(** What does hold of the listing: under each extension class a
    duplicated basename of that class has exactly one entry. *)
Lemma NoDup_fst_filter {V : Type} (P : string * V → bool) (l : list (string * V)) :
  NoDup (map fst l) → NoDup (map fst (List.filter P l)).
Proof.
  induction l as [|x l IH]; simpl; [done|].
  intros [Hx Hl]%NoDup_cons. destruct (P x); simpl; [|by apply IH].
  apply NoDup_cons. split; [|by apply IH].
  intros (y & Hy & Hin)%list_elem_of_fmap. apply Hx.
  apply list_elem_of_fmap. exists y. split; [done|].
  apply list_elem_of_In. apply list_elem_of_In, filter_In in Hin. tauto.
Qed.

Lemma duplicates_listed_once (found : gmap string (list path)) (ext : string) :
  NoDup (map fst (duplicates_of found ext))
  ∧ ∀ key paths,
      found !! key = Some paths → 1 < length paths →
      endswith (lower key) (lower ext) = true →
      (key, duplicate_paths paths) ∈ duplicates_of found ext.
Proof.
  unfold duplicates_of. split.
  - rewrite map_map. cbn [fst]. apply NoDup_fst_filter.
    unfold sorted_items.
    rewrite (fmap_Permutation fst _ _ (merge_sort_Permutation by_key _)).
    apply NoDup_fst_map_to_list.
  - intros key paths Hkey Hlen Hext.
    apply list_elem_of_fmap. exists (key, paths). split; [done|].
    apply list_elem_of_In, filter_In. split.
    + apply list_elem_of_In. unfold sorted_items.
      rewrite merge_sort_Permutation. by apply elem_of_map_to_list.
    + cbn [fst snd]. rewrite Hext. by apply bool_decide_eq_true.
Qed.

(** When the first cataloged path is also the first in sorted order, the
    entry is the sorted path list. *)
Lemma duplicate_paths_sorted (first : path) (others : list path) :
  head (sorted_paths (first :: others)) = Some first →
  duplicate_paths (first :: others) = sorted_paths (first :: others).
Proof.
  unfold duplicate_paths. destruct (sorted_paths (first :: others)); [done|].
  by intros [= ->].
Qed.

(** ** The exit code *)

Lemma get_project_name_directory (fs : node) (root : path) :
  is_dir fs (root ++ ["CMakeLists.txt"]) = true →
  get_project_name fs root = Raised IsADirectoryError.
Proof.
  unfold get_project_name, open_lines, is_dir, stat.
  destruct (FS.lookup fs (root ++ ["CMakeLists.txt"])) as [[ls|t|l es]|]; try done.
  by destruct (FS.lookup fs t) as [[ls|t'|l es]|].
Qed.



(** A run that finds orphans, missing references and duplicates exits
    with code 0. *)
Example findings_do_not_fail :
  ∃ rep,
    main tree_project ["r"; "a"] default_arguments = (0, Some rep)
    ∧ orphan_count rep = 2
    ∧ missing_count rep = 2
    ∧ map fst (concat (map snd (warnings rep))) = ["util.c"; "util.h"].
Proof. eexists. split; [vm_compute; reflexivity|]. repeat split; by vm_compute. Qed.

(** A run that finds no root exits with code 1 and prints no report. *)
Example no_root_fails :
  main (Dir true [("w", Dir true [("main.c", File [])])]) ["w"] default_arguments
  = (1, None).
Proof. by vm_compute. Qed.

(** * Further properties of the program

    Below, [st] is the state that a pass which completed has returned. *)

(** ** Loops that only add *)

(** When each round either keeps the property or establishes it by
    what the round is given, the property holds after the loop exactly
    when it held before or some round established it. *)
Lemma fold_left_or {A B : Type} (Q : A → Prop) (N : B → Prop) (f : A → B → A)
    (l : list B) (a : A) :
  (∀ a y, Q (f a y) ↔ Q a ∨ N y) →
  Q (fold_left f l a) ↔ Q a ∨ ∃ y, y ∈ l ∧ N y.
Proof.
  intros Hstep. revert a. induction l as [|x l IH]; intros a; simpl.
  - split; [by left|]. intros [H|(y & Hy & _)]; [done|]. by apply elem_of_nil in Hy.
  - rewrite IH, Hstep. split.
    + intros [[H|H]|(y & Hy & HN)].
      * by left.
      * right. exists x. split; [by left | done].
      * right. exists y. split; [by right | done].
    + intros [H|(y & [->|Hy]%elem_of_cons & HN)].
      * left. by left.
      * left. by right.
      * right. by exists y.
Qed.

(** ** The catalog, exactly *)

Lemma process_file_exist (fs : node) (spec : interest) (cur : path) (st : scan_state)
    (filename : string) (p : path) :
  p ∈ list_exist (process_file_done fs spec cur st filename)
  ↔ p ∈ list_exist st
    ∨ (p = cur ++ [filename] ∧ is_symlink fs p = false
       ∧ matches_interest_patterns spec p = true).
Proof.
  unfold process_file_done.
  destruct (is_symlink fs (cur ++ [filename])) eqn:Hsym.
  { split; [by left|]. intros [H|(-> & Hn & _)]; [done | congruence]. }
  cbn [list_exist].
  destruct (matches_interest_patterns spec (cur ++ [filename])) eqn:Hm.
  - rewrite elem_of_app, list_elem_of_singleton. split.
    + intros [H| ->]; [by left | by right].
    + intros [H|(-> & _)]; [by left | by right].
  - split; [by left|]. intros [H|(-> & _ & Hn)]; [done | congruence].
Qed.

Lemma visit_dir_exist (fs : node) (spec : interest) (root : path) (excl : gset string)
    (st : scan_state) (item : path * list string * list string) (p : path) :
  p ∈ list_exist (visit_dir_done fs spec root excl st item)
  ↔ p ∈ list_exist st
    ∨ (in_excluded excl item.1.1 = false
       ∧ ∃ filename, filename ∈ item.2
           ∧ p = item.1.1 ++ [filename] ∧ is_symlink fs p = false
           ∧ matches_interest_patterns spec p = true).
Proof.
  destruct item as [[cur dirs] files]. unfold visit_dir_done. cbn [fst snd].
  destruct (in_excluded excl cur).
  { split; [by left|]. by intros [H|[? _]]. }
  rewrite (fold_left_or (λ st, p ∈ list_exist st)
             (λ filename, p = cur ++ [filename] ∧ is_symlink fs p = false
                          ∧ matches_interest_patterns spec p = true)).
  - assert (∀ st', p ∈ list_exist
                (if bool_decide (cur ≠ root)
                 then ScanState (list_exist st') (list_referenced st')
                        (found_files_map st')
                        (<[relative_str cur root:=cur]> (key_subfolders st'))
                        (no_go_areas st')
                 else st') ↔ p ∈ list_exist st') as ->.
    { intros st'. by destruct (bool_decide (cur ≠ root)). }
    cbn [list_exist]. split; intros [H|H]; try by left.
    + right. split; [done|]. exact H.
    + right. by destruct H as [_ H].
  - intros; apply process_file_exist.
Qed.

(** A path is cataloged exactly when the file loop runs for it and it
    matches the interest patterns. *)
Lemma list_exist_exact (fs : node) (spec : interest) (root : path) (excl : gset string)
    (p : path) :
  p ∈ list_exist (pass_state fs spec root excl)
  ↔ processed fs root excl p ∧ matches_interest_patterns spec p = true.
Proof.
  unfold pass_state, processed.
  destruct (FS.lookup fs root) as [n|] eqn:Hroot.
  - rewrite (fold_left_or (λ st, p ∈ list_exist st) _ _ _ _
               (λ st item, visit_dir_exist fs spec root excl st item p)).
    cbn [initial_state list_exist]. split.
    + intros [H|([[cur dirs] files] & Hin & Hexcl & f & Hf & -> & Hsym & Hm)];
        [by apply elem_of_nil in H|].
      split; [|done]. by exists n, cur, dirs, files, f.
    + intros [(n' & cur & dirs & files & f & [= <-] & Hin & Hexcl & Hf & -> & Hsym) Hm].
      right. exists (cur, dirs, files). split; [done|]. cbn [fst snd].
      split; [done|]. by exists f.
  - split.
    + by intros H%elem_of_nil.
    + by intros [(n' & ? & ? & ? & ? & ? & _) _].
Qed.

Lemma processed_below (fs : node) (root : path) (excl : gset string) (p : path) :
  processed fs root excl p →
  ∃ s filename,
    p = (root ++ s) ++ [filename]
    ∧ in_excluded excl (root ++ s) = false
    ∧ is_symlink fs p = false.
Proof.
  intros (n & cur & dirs & files & f & Hroot & Hin & Hexcl & Hf & -> & Hsym).
  destruct (os_walk_below _ _ _ _ _ _ _ Hin) as (s & -> & _).
  by exists s, f.
Qed.

(** X1: whatever is cataloged matches the interest patterns, is not a
    symbolic link, and lies below the root in a directory none of whose
    absolute path components is in the exclusion set. *)
Theorem cataloged_files_are_eligible (fs : node) (spec : interest) (root_path : path)
    (exclude_dirs : gset string) (st : scan_state) (p : path) :
  analyze_project_files fs spec root_path exclude_dirs = Done st →
  p ∈ list_exist st →
  matches_interest_patterns spec p = true
  ∧ is_symlink fs p = false
  ∧ ∃ s filename,
      p = (root_path ++ s) ++ [filename]
      ∧ ∀ x, x ∈ exclude_dirs → x ∉ parts (root_path ++ s).
Proof.
  intros ->%analyze_project_files_done [Hproc Hm]%list_exist_exact.
  destruct (processed_below _ _ _ _ Hproc) as (s & f & -> & Hexcl & Hsym).
  split; [done|]. split; [done|]. exists s, f. split; [done|].
  by apply in_excluded_false.
Qed.

Lemma cataloged_files_are_eligible_witness :
  ∃ st,
    analyze_project_files tree_project default_interest ["r"]
      DEFAULT_FOLDERS_TO_EXCLUDE = Done st
    ∧ ["r"; "a"; "util.c"] ∈ list_exist st
    ∧ is_symlink tree_project ["r"; "a"; "util.c"] = false.
Proof.
  exists (pass_state tree_project default_interest ["r"] DEFAULT_FOLDERS_TO_EXCLUDE).
  assert (["r"; "a"; "util.c"]
          ∈ list_exist (pass_state tree_project default_interest ["r"]
                          DEFAULT_FOLDERS_TO_EXCLUDE)) as Hin by by_computation.
  split; [exact tree_project_pass|]. split; [exact Hin|].
  exact (proj1 (proj2 (cataloged_files_are_eligible tree_project default_interest
                         ["r"] DEFAULT_FOLDERS_TO_EXCLUDE _ ["r"; "a"; "util.c"]
                         tree_project_pass Hin))).
Defined.

(** ** The basename map *)

Lemma bearing_snoc (key : string) (l : list path) (p : path) :
  bearing key (l ++ [p])
  = bearing key l ++ (if bool_decide (name p = key) then [p] else []).
Proof. unfold bearing. by rewrite List.filter_app. Qed.

Lemma process_file_grouped (fs : node) (spec : interest) (cur : path) (st : scan_state)
    (filename : string) :
  grouped st → grouped (process_file_done fs spec cur st filename).
Proof.
  intros Hg. unfold process_file_done. destruct (is_symlink _ _); [done|].
  destruct (matches_interest_patterns _ _); [|done].
  intros key. cbn [found_files_map list_exist]. rewrite bearing_snoc.
  unfold append_found. specialize (Hg key). case_bool_decide as Hkey.
  - subst key. rewrite lookup_insert_eq, Hg.
    by destruct (bearing _ (list_exist st)).
  - rewrite lookup_insert_ne by done. by rewrite app_nil_r.
Qed.

Lemma visit_dir_grouped (fs : node) (spec : interest) (root : path) (excl : gset string)
    (st : scan_state) (item : path * list string * list string) :
  grouped st → grouped (visit_dir_done fs spec root excl st item).
Proof.
  intros Hg. destruct item as [[cur dirs] files]. unfold visit_dir_done.
  destruct (in_excluded excl cur); [done|].
  apply (fold_left_inv grouped).
  - intros; by apply process_file_grouped.
  - by destruct (bool_decide (cur ≠ root)).
Qed.

Lemma analyze_grouped (fs : node) (spec : interest) (root : path) (excl : gset string) :
  grouped (pass_state fs spec root excl).
Proof.
  unfold pass_state.
  assert (grouped initial_state) as Hinit by done.
  destruct (FS.lookup fs root); [|done].
  apply (fold_left_inv grouped); [|done]. intros; by apply visit_dir_grouped.
Qed.

(** X2: after the pass the basename map and the existence list agree:
    under each basename the map holds exactly the cataloged paths that
    bear it, in catalog order, and it has no entry for any other name. *)
Theorem basename_map_groups_catalog (fs : node) (spec : interest) (root_path : path)
    (exclude_dirs : gset string) (st : scan_state) (key : string) :
  analyze_project_files fs spec root_path exclude_dirs = Done st →
  found_files_map st !! key
  = match bearing key (list_exist st) with
    | [] => None
    | paths => Some paths
    end.
Proof. intros ->%analyze_project_files_done. apply analyze_grouped. Qed.

Lemma basename_map_groups_catalog_witness :
  ∃ st,
    analyze_project_files tree_project default_interest ["r"]
      DEFAULT_FOLDERS_TO_EXCLUDE = Done st
    ∧ bearing "util.h" (list_exist st) = [["r"; "util.h"]; ["r"; "a"; "util.h"]]
    ∧ found_files_map st !! "util.h" = Some [["r"; "util.h"]; ["r"; "a"; "util.h"]].
Proof.
  exists (pass_state tree_project default_interest ["r"] DEFAULT_FOLDERS_TO_EXCLUDE).
  assert (bearing "util.h"
            (list_exist (pass_state tree_project default_interest ["r"]
                           DEFAULT_FOLDERS_TO_EXCLUDE))
          = [["r"; "util.h"]; ["r"; "a"; "util.h"]]) as Hb by (vm_compute; reflexivity).
  split; [exact tree_project_pass|]. split; [exact Hb|].
  rewrite (basename_map_groups_catalog tree_project default_interest ["r"]
             DEFAULT_FOLDERS_TO_EXCLUDE _ "util.h" tree_project_pass).
  rewrite Hb. reflexivity.
Defined.

Lemma scanned_processed (fs : node) (root : path) (excl : gset string) (p : path)
    (lines : list string) :
  scanned fs root excl p lines → processed fs root excl p ∧ read_lines fs p = lines.
Proof.
  intros Hscan.
  destruct (scanned_visited _ _ _ _ _ Hscan)
    as (n & cur & dirs & files & f & -> & Hroot & Hin & Hexcl & Hf & Hsym & Hread).
  split; [|done]. by exists n, cur, dirs, files, f.
Qed.

Lemma elem_of_bearing (key : string) (l : list path) (p : path) :
  p ∈ bearing key l ↔ p ∈ l ∧ name p = key.
Proof.
  unfold bearing. split.
  - intros [H1 H2%bool_decide_eq_true]%list_elem_of_In%filter_In.
    split; [by apply list_elem_of_In | done].
  - intros [H1 H2]. apply list_elem_of_In, filter_In.
    split; [by apply list_elem_of_In | by apply bool_decide_eq_true].
Qed.

Lemma grouped_default (st : scan_state) (key : string) :
  grouped st → default [] (found_files_map st !! key) = bearing key (list_exist st).
Proof. intros Hg. rewrite (Hg key). by destruct (bearing key (list_exist st)). Qed.

(** X3: every regular file that the walk reaches in a directory passing
    the excluded-component test, and that matches the interest
    patterns, is cataloged, and the basename map lists it under its
    basename. *)
Theorem scanned_matching_file_cataloged (fs : node) (spec : interest)
    (root_path : path) (exclude_dirs : gset string) (p : path) (lines : list string) :
  scanned fs root_path exclude_dirs p lines →
  matches_interest_patterns spec p = true →
  ∀ st, analyze_project_files fs spec root_path exclude_dirs = Done st →
    p ∈ list_exist st
    ∧ ∃ paths, found_files_map st !! name p = Some paths ∧ p ∈ paths.
Proof.
  intros [Hproc _]%scanned_processed Hm ? ->%analyze_project_files_done.
  set (st := pass_state fs spec root_path exclude_dirs).
  assert (p ∈ list_exist st) as Hp by by apply list_exist_exact.
  split; [done|].
  assert (p ∈ bearing (name p) (list_exist st)) as Hb by by apply elem_of_bearing.
  pose proof (analyze_grouped fs spec root_path exclude_dirs (name p)) as Hg.
  fold st in Hg. rewrite Hg.
  destruct (bearing (name p) (list_exist st)) as [|q qs]; [by apply elem_of_nil in Hb|].
  by eexists.
Qed.

Lemma scanned_matching_file_cataloged_witness :
  scanned tree_project ["r"] DEFAULT_FOLDERS_TO_EXCLUDE ["r"; "a"; "m.py"]
    ["from helpers import thing"]
  ∧ ∃ st,
      analyze_project_files tree_project default_interest ["r"]
        DEFAULT_FOLDERS_TO_EXCLUDE = Done st
      ∧ ["r"; "a"; "m.py"] ∈ list_exist st.
Proof.
  assert (scanned tree_project ["r"] DEFAULT_FOLDERS_TO_EXCLUDE ["r"; "a"; "m.py"]
            ["from helpers import thing"]) as Hscan.
  { eexists _, ["a"], "m.py". repeat split; vm_compute; reflexivity. }
  split; [exact Hscan|].
  eexists. split; [exact tree_project_pass|].
  refine (proj1 (scanned_matching_file_cataloged tree_project default_interest ["r"]
                   DEFAULT_FOLDERS_TO_EXCLUDE ["r"; "a"; "m.py"]
                   ["from helpers import thing"] Hscan _ _ tree_project_pass)).
  reflexivity.
Defined.

(** ** The Orphans section, exactly *)

Lemma orphan_lines_of_pass (fs : node) (spec : interest) (root : path)
    (excl : gset string) (proj : string) (p : path) :
  let st := pass_state fs spec root excl in
  p ∈ orphan_lines (generate_report proj root st)
  ↔ p ∈ list_exist st ∧ name p ∉ ref_set (list_referenced st).
Proof.
  intros st. subst st.
  set (st := pass_state fs spec root excl).
  pose proof (analyze_grouped fs spec root excl) as Hg.
  fold st in Hg. split.
  - intros (nm & Hnm & Hp)%elem_of_orphan_lines.
    rewrite (grouped_default _ _ Hg) in Hp.
    apply elem_of_bearing in Hp as [Hp <-].
    by apply elem_of_orphan_basenames in Hnm as [_ Hnot].
  - intros [Hp Hnot]. cbn [generate_report orphan_lines].
    apply list_elem_of_In, in_concat.
    exists (default [] (found_files_map st !! name p)). split.
    + apply in_map_iff. exists (name p). split; [done|].
      apply list_elem_of_In, elem_of_orphan_basenames. split; [|done].
      unfold exist_set. apply elem_of_list_to_set, list_elem_of_fmap. by exists p.
    + apply list_elem_of_In. rewrite (grouped_default _ _ Hg).
      by apply elem_of_bearing.
Qed.

(** X4: the paths printed under Orphans are exactly the cataloged paths
    whose basename is the key of no reference. *)
Theorem orphan_lines_exact (fs : node) (spec : interest) (root_path : path)
    (exclude_dirs : gset string) (st : scan_state) (proj : string) (p : path) :
  analyze_project_files fs spec root_path exclude_dirs = Done st →
  p ∈ orphan_lines (generate_report proj root_path st)
  ↔ p ∈ list_exist st ∧ name p ∉ ref_set (list_referenced st).
Proof. intros ->%analyze_project_files_done. apply orphan_lines_of_pass. Qed.

Lemma orphan_lines_exact_witness :
  ∃ st,
    analyze_project_files tree_project default_interest ["r"]
      DEFAULT_FOLDERS_TO_EXCLUDE = Done st
    ∧ ["r"; "a"; "util.c"] ∈ list_exist st
    ∧ (name ["r"; "a"; "util.c"] ∉ ref_set (list_referenced st))
    ∧ ["r"; "a"; "util.c"] ∈ orphan_lines (generate_report "Unknown" ["r"] st).
Proof.
  exists (pass_state tree_project default_interest ["r"] DEFAULT_FOLDERS_TO_EXCLUDE).
  assert (["r"; "a"; "util.c"]
          ∈ list_exist (pass_state tree_project default_interest ["r"]
                          DEFAULT_FOLDERS_TO_EXCLUDE)) as Hin by by_computation.
  assert (name ["r"; "a"; "util.c"]
          ∉ ref_set (list_referenced
                       (pass_state tree_project default_interest ["r"]
                          DEFAULT_FOLDERS_TO_EXCLUDE))) as Hnot by by_computation.
  split; [exact tree_project_pass|]. split; [exact Hin|]. split; [exact Hnot|].
  exact (proj2 (orphan_lines_exact tree_project default_interest ["r"]
                  DEFAULT_FOLDERS_TO_EXCLUDE _ "Unknown" ["r"; "a"; "util.c"]
                  tree_project_pass) (conj Hin Hnot)).
Defined.

(** X5: the orphan count is a count of basenames, not of files: it is
    the number of distinct basenames among the paths printed under
    Orphans. *)
Theorem orphan_count_counts_basenames (fs : node) (spec : interest) (root_path : path)
    (exclude_dirs : gset string) (st : scan_state) (proj : string) :
  analyze_project_files fs spec root_path exclude_dirs = Done st →
  let rep := generate_report proj root_path st in
  orphan_count rep = size (list_to_set (map name (orphan_lines rep)) : gset string).
Proof.
  intros ->%analyze_project_files_done rep. subst rep.
  set (st := pass_state fs spec root_path exclude_dirs).
  assert (list_to_set (map name (orphan_lines (generate_report proj root_path st)))
          =@{gset string} exist_set (list_exist st) ∖ ref_set (list_referenced st))
    as ->.
  { apply set_eq. intros nm.
    rewrite elem_of_list_to_set, list_elem_of_fmap, elem_of_difference.
    unfold exist_set. rewrite elem_of_list_to_set, list_elem_of_fmap. split.
    - intros (p & -> & Hp). apply orphan_lines_of_pass in Hp as [Hp Hnot].
      split; [by exists p | done].
    - intros [(p & -> & Hp) Hnot]. exists p. split; [done|].
      by apply orphan_lines_of_pass. }
  cbn [generate_report orphan_count]. unfold orphan_basenames, sorted_str.
  by rewrite (Permutation_length (merge_sort_Permutation _ _)).
Qed.

Lemma orphan_count_counts_basenames_witness :
  ∃ st,
    analyze_project_files tree_project default_interest ["r"]
      DEFAULT_FOLDERS_TO_EXCLUDE = Done st
    ∧ length (orphan_lines (generate_report "Unknown" ["r"] st)) = 3
    ∧ orphan_count (generate_report "Unknown" ["r"] st)
      = size (list_to_set (map name (orphan_lines (generate_report "Unknown" ["r"] st)))
              : gset string).
Proof.
  exists (pass_state tree_project default_interest ["r"] DEFAULT_FOLDERS_TO_EXCLUDE).
  split; [exact tree_project_pass|]. split; [vm_compute; reflexivity|].
  exact (orphan_count_counts_basenames tree_project default_interest ["r"]
           DEFAULT_FOLDERS_TO_EXCLUDE _ "Unknown" tree_project_pass).
Defined.

(** ** The reference table, exactly *)

Lemma add_reference_elem (k key : string) (p who : path)
    (refs : gmap string (gset path)) :
  who ∈ referencing (add_reference k p refs) key
  ↔ who ∈ referencing refs key ∨ (who = p ∧ key = k).
Proof.
  unfold referencing, add_reference.
  destruct (decide (k = key)) as [->|Hne].
  - rewrite lookup_insert_eq. simpl.
    rewrite elem_of_union, elem_of_singleton. split.
    + intros [H| ->]; [by left | by right].
    + intros [H|[-> _]]; [by left | by right].
  - rewrite lookup_insert_ne by done. split; [by left|].
    intros [H|[_ Hk]]; [done | by destruct Hne].
Qed.

Lemma record_resolved_elem (fs : node) (fp : path) (refs : gmap string (gset path))
    (ref key : string) (who : path) :
  who ∈ referencing (record_resolved_done fs fp refs ref) key
  ↔ who ∈ referencing refs key
    ∨ (who = fp ∧ key = name (realpath fs (joinpath (parent fp) ref))).
Proof. apply add_reference_elem. Qed.

Lemma fold_records_elem {K : Type} (step : gmap string (gset path) → K → gmap string (gset path))
    (g : K → string) (fp : path) (l : list K) (refs : gmap string (gset path))
    (key : string) (who : path) :
  (∀ r x, who ∈ referencing (step r x) key
          ↔ who ∈ referencing r key ∨ (who = fp ∧ key = g x)) →
  who ∈ referencing (fold_left step l refs) key
  ↔ who ∈ referencing refs key ∨ (who = fp ∧ key ∈ map g l).
Proof.
  intros Hstep.
  rewrite (fold_left_or (λ r, who ∈ referencing r key)
             (λ x, who = fp ∧ key = g x) step l refs Hstep).
  split; (intros [H|H]; [by left | right]).
  - destruct H as (x & Hx & -> & ->). split; [done|].
    apply list_elem_of_fmap. by exists x.
  - destruct H as [-> (x & -> & Hx)%list_elem_of_fmap]. by exists x.
Qed.

Lemma process_line_elem (fs : node) (fp : path) (refs : gmap string (gset path))
    (line key : string) (who : path) :
  who ∈ referencing (process_line_done fs fp refs line) key
  ↔ who ∈ referencing refs key ∨ (who = fp ∧ key ∈ extracted fs fp line).
Proof.
  unfold process_line_done, extracted.
  destruct (is_c_file fp); [|destruct (is_cmake_file fp); [|destruct (is_py_file fp)]].
  - apply fold_records_elem. intros; apply record_resolved_elem.
  - apply fold_records_elem. intros; apply record_resolved_elem.
  - apply fold_records_elem. intros; apply add_reference_elem.
  - split; [by left|]. intros [H|[_ H]]; [done|]. by apply elem_of_nil in H.
Qed.

Lemma process_file_refs (fs : node) (spec : interest) (cur : path) (st : scan_state)
    (filename key : string) (who : path) :
  who ∈ referencing (list_referenced (process_file_done fs spec cur st filename)) key
  ↔ who ∈ referencing (list_referenced st) key
    ∨ (who = cur ++ [filename] ∧ is_symlink fs who = false
       ∧ ∃ line, line ∈ read_lines fs who ∧ key ∈ extracted fs who line).
Proof.
  unfold process_file_done.
  destruct (is_symlink fs (cur ++ [filename])) eqn:Hsym.
  { split; [by left|]. intros [H|(-> & Hn & _)]; [done | congruence]. }
  cbn [list_referenced].
  rewrite (fold_left_or (λ r, who ∈ referencing r key)
             (λ line, who = cur ++ [filename]
                      ∧ key ∈ extracted fs (cur ++ [filename]) line)
             _ _ _ (λ r line, process_line_elem fs _ r line key who)).
  split; (intros [H|H]; [by left | right]).
  - destruct H as (line & Hline & -> & Hkey). split; [done|]. split; [done|].
    by exists line.
  - destruct H as (-> & _ & line & Hline & Hkey). by exists line.
Qed.

Lemma visit_dir_refs (fs : node) (spec : interest) (root : path) (excl : gset string)
    (st : scan_state) (item : path * list string * list string) (key : string)
    (who : path) :
  who ∈ referencing (list_referenced (visit_dir_done fs spec root excl st item)) key
  ↔ who ∈ referencing (list_referenced st) key
    ∨ (in_excluded excl item.1.1 = false
       ∧ ∃ filename, filename ∈ item.2
           ∧ who = item.1.1 ++ [filename] ∧ is_symlink fs who = false
           ∧ ∃ line, line ∈ read_lines fs who ∧ key ∈ extracted fs who line).
Proof.
  destruct item as [[cur dirs] files]. unfold visit_dir_done. cbn [fst snd].
  destruct (in_excluded excl cur).
  { split; [by left|]. by intros [H|[? _]]. }
  rewrite (fold_left_or (λ st, who ∈ referencing (list_referenced st) key) _ _ _ _
             (λ st f, process_file_refs fs spec cur st f key who)).
  assert (∀ st', list_referenced
                (if bool_decide (cur ≠ root)
                 then ScanState (list_exist st') (list_referenced st')
                        (found_files_map st')
                        (<[relative_str cur root:=cur]> (key_subfolders st'))
                        (no_go_areas st')
                 else st') = list_referenced st') as ->.
  { intros st'. by destruct (bool_decide (cur ≠ root)). }
  cbn [list_referenced]. split; intros [H|H]; try by left.
  - right. split; [done|]. exact H.
  - right. by destruct H as [_ H].
Qed.

(** A file references a basename exactly when the file loop runs for it
    and one of its lines yields the basename. *)
Lemma list_referenced_exact (fs : node) (spec : interest) (root : path)
    (excl : gset string) (key : string) (who : path) :
  who ∈ referencing (list_referenced (pass_state fs spec root excl)) key
  ↔ processed fs root excl who
    ∧ ∃ line, line ∈ read_lines fs who ∧ key ∈ extracted fs who line.
Proof.
  unfold pass_state, processed.
  destruct (FS.lookup fs root) as [n|] eqn:Hroot.
  - rewrite (fold_left_or (λ st, who ∈ referencing (list_referenced st) key) _ _ _ _
               (λ st item, visit_dir_refs fs spec root excl st item key who)).
    split.
    + intros [H|([[cur dirs] files] & Hin & Hexcl & f & Hf & -> & Hsym & Hline)].
      { unfold referencing in H. cbn in H. rewrite lookup_empty in H.
        by apply not_elem_of_empty in H. }
      split; [|done]. by exists n, cur, dirs, files, f.
    + intros [(n' & cur & dirs & files & f & [= <-] & Hin & Hexcl & Hf & -> & Hsym) Hl].
      right. exists (cur, dirs, files). split; [done|]. cbn [fst snd].
      split; [done|]. by exists f.
  - split.
    + intros H. unfold referencing in H. cbn in H. rewrite lookup_empty in H.
      by apply not_elem_of_empty in H.
    + by intros [(n' & ? & ? & ? & ? & ? & _) _].
Qed.

Lemma extracted_kind (fs : node) (fp : path) (line key : string) :
  key ∈ extracted fs fp line →
  is_c_file fp = true ∨ is_cmake_file fp = true ∨ is_py_file fp = true.
Proof.
  unfold extracted.
  destruct (is_c_file fp); [by left|].
  destruct (is_cmake_file fp); [right; by left|].
  destruct (is_py_file fp); [right; by right|].
  by intros H%elem_of_nil.
Qed.

(** X6: every edge of the reference table comes from a line of the
    referencing file. The referencing file is not a symbolic link, lies
    below the root in a directory with no excluded path component, is a
    [.c]/[.h] file, a build script or a [.py] file, and one of its lines
    yields the referenced basename; files of any other kind are never
    a source of references. *)
Theorem references_come_from_lines (fs : node) (spec : interest) (root_path : path)
    (exclude_dirs : gset string) (st : scan_state) (key : string) (who : path) :
  analyze_project_files fs spec root_path exclude_dirs = Done st →
  who ∈ referencing (list_referenced st) key →
  is_symlink fs who = false
  ∧ (∃ s filename,
       who = (root_path ++ s) ++ [filename]
       ∧ ∀ x, x ∈ exclude_dirs → x ∉ parts (root_path ++ s))
  ∧ (∃ line, line ∈ read_lines fs who ∧ key ∈ extracted fs who line)
  ∧ (is_c_file who = true ∨ is_cmake_file who = true ∨ is_py_file who = true).
Proof.
  intros ->%analyze_project_files_done
    [Hproc (line & Hline & Hkey)]%list_referenced_exact.
  destruct (processed_below _ _ _ _ Hproc) as (s & f & -> & Hexcl & Hsym).
  split; [done|]. split.
  { exists s, f. split; [done|]. by apply in_excluded_false. }
  split; [by exists line|]. by eapply extracted_kind.
Qed.

Lemma references_come_from_lines_witness :
  ∃ st,
    analyze_project_files tree_cmake default_interest ["r"]
      DEFAULT_FOLDERS_TO_EXCLUDE = Done st
    ∧ ["r"; "CMakeLists.txt"] ∈ referencing (list_referenced st) "main.c"
    ∧ is_symlink tree_cmake ["r"; "CMakeLists.txt"] = false.
Proof.
  exists (pass_state tree_cmake default_interest ["r"] DEFAULT_FOLDERS_TO_EXCLUDE).
  assert (["r"; "CMakeLists.txt"]
          ∈ referencing
              (list_referenced
                 (pass_state tree_cmake default_interest ["r"]
                    DEFAULT_FOLDERS_TO_EXCLUDE)) "main.c") as Hin by by_computation.
  split; [exact tree_cmake_pass|]. split; [exact Hin|].
  exact (proj1 (references_come_from_lines tree_cmake default_interest ["r"]
                  DEFAULT_FOLDERS_TO_EXCLUDE _ "main.c" ["r"; "CMakeLists.txt"]
                  tree_cmake_pass Hin)).
Defined.

(** X7: whatever a line of a scanned file yields is recorded, for each of
    the three kinds of file: the yielded basename becomes a key of the
    reference table and the file one of its referencing files. *)
Theorem extracted_reference_recorded (fs : node) (spec : interest) (root_path : path)
    (exclude_dirs : gset string) (who : path) (lines : list string)
    (line key : string) :
  scanned fs root_path exclude_dirs who lines →
  line ∈ lines →
  key ∈ extracted fs who line →
  ∀ st, analyze_project_files fs spec root_path exclude_dirs = Done st →
    who ∈ referencing (list_referenced st) key ∧ key ∈ ref_set (list_referenced st).
Proof.
  intros [Hproc Hread]%scanned_processed Hline Hkey ? ->%analyze_project_files_done.
  set (st := pass_state fs spec root_path exclude_dirs).
  assert (who ∈ referencing (list_referenced st) key) as Hwho.
  { apply list_referenced_exact. split; [done|]. exists line. by rewrite Hread. }
  split; [done|]. unfold ref_set. apply elem_of_dom.
  unfold referencing in Hwho.
  destruct (list_referenced st !! key); [done | by apply not_elem_of_empty in Hwho].
Qed.

Lemma extracted_reference_recorded_witness :
  scanned tree_cmake ["r"] DEFAULT_FOLDERS_TO_EXCLUDE ["r"; "CMakeLists.txt"]
    ["cmake_minimum_required(VERSION 3.16)"; "Project ( Demo )";
     "idf_component_register(SRCS main.c util.c)"]
  ∧ ∃ st,
      analyze_project_files tree_cmake default_interest ["r"]
        DEFAULT_FOLDERS_TO_EXCLUDE = Done st
      ∧ "util.c" ∈ ref_set (list_referenced st).
Proof.
  assert (scanned tree_cmake ["r"] DEFAULT_FOLDERS_TO_EXCLUDE ["r"; "CMakeLists.txt"]
            ["cmake_minimum_required(VERSION 3.16)"; "Project ( Demo )";
             "idf_component_register(SRCS main.c util.c)"]) as Hscan.
  { eexists _, [], "CMakeLists.txt". repeat split; vm_compute; reflexivity. }
  split; [exact Hscan|].
  eexists. split; [exact tree_cmake_pass|].
  refine (proj2 (extracted_reference_recorded tree_cmake default_interest ["r"]
                   DEFAULT_FOLDERS_TO_EXCLUDE ["r"; "CMakeLists.txt"] _
                   "idf_component_register(SRCS main.c util.c)" "util.c" Hscan _ _
                   _ tree_cmake_pass)).
  - by_computation.
  - by_computation.
Defined.

(** ** The Missing section *)

Lemma add_reference_inhabited (k : string) (p : path) (refs : gmap string (gset path)) :
  inhabited refs → inhabited (add_reference k p refs).
Proof.
  intros Hin key files. unfold add_reference.
  destruct (decide (k = key)) as [->|Hne].
  - rewrite lookup_insert_eq. intros [= <-]. set_solver.
  - rewrite lookup_insert_ne by done. apply Hin.
Qed.

Lemma process_line_inhabited (fs : node) (fp : path) (refs : gmap string (gset path))
    (line : string) :
  inhabited refs → inhabited (process_line_done fs fp refs line).
Proof.
  intros Hin. unfold process_line_done.
  destruct (is_c_file fp); [|destruct (is_cmake_file fp); [|destruct (is_py_file fp)]];
    try done; apply (fold_left_inv inhabited); try done; intros r ref _ Hr;
    unfold record_resolved_done, record_import;
    by apply add_reference_inhabited.
Qed.

Lemma analyze_inhabited (fs : node) (spec : interest) (root : path) (excl : gset string) :
  inhabited (list_referenced (pass_state fs spec root excl)).
Proof.
  unfold pass_state.
  assert (inhabited (list_referenced initial_state)) as Hinit.
  { intros key files H. cbn in H. by rewrite lookup_empty in H. }
  destruct (FS.lookup fs root); [|done].
  apply (fold_left_inv (λ st, inhabited (list_referenced st))); [|done].
  intros st [[cur dirs] files] _ Hst. unfold visit_dir_done.
  destruct (in_excluded excl cur); [done|].
  apply (fold_left_inv (λ st, inhabited (list_referenced st)));
    [|by destruct (bool_decide (cur ≠ root))].
  intros st' f _ Hst'. unfold process_file_done. destruct (is_symlink _ _); [done|].
  cbn [list_referenced]. apply (fold_left_inv inhabited); [|done].
  intros; by apply process_line_inhabited.
Qed.

(** X8: every entry of the Missing section is a basename that no
    cataloged file bears, and it comes with a non-empty list of
    referencing files, which are exactly the files recorded for that
    basename in the reference table. *)
Theorem missing_entries_are_absent_and_referenced (fs : node) (spec : interest)
    (root_path : path) (exclude_dirs : gset string) (st : scan_state)
    (proj key : string) (files : list path) :
  analyze_project_files fs spec root_path exclude_dirs = Done st →
  (key, files) ∈ missing_lines (generate_report proj root_path st) →
  (∀ p, p ∈ list_exist st → name p ≠ key)
  ∧ files ≠ []
  ∧ ∀ who, who ∈ files ↔ who ∈ referencing (list_referenced st) key.
Proof.
  intros ->%analyze_project_files_done.
  set (st := pass_state fs spec root_path exclude_dirs).
  cbn [generate_report missing_lines].
  intros (nm & [= <- ->] & [Href Hnex]%elem_of_missing_basenames)%list_elem_of_fmap.
  assert (∀ who, who ∈ sorted_paths (elements (default ∅ (list_referenced st !! key)))
                 ↔ who ∈ referencing (list_referenced st) key) as Hiff.
  { intros who. by rewrite elem_of_sorted_paths, elem_of_elements. }
  split; [|split; [|done]].
  - intros p Hp Hname. apply Hnex. unfold exist_set.
    apply elem_of_list_to_set, list_elem_of_fmap. by exists p.
  - unfold ref_set in Href. apply elem_of_dom in Href as [s Hs].
    pose proof (analyze_inhabited fs spec root_path exclude_dirs key s Hs) as Hne.
    apply set_choose_L in Hne as [who Hwho].
    intros Hnil. assert (who ∈ sorted_paths (elements (default ∅ (list_referenced st !! key))))
      as Hin.
    { apply Hiff. unfold referencing. fold st in Hs. by rewrite Hs. }
    rewrite Hnil in Hin. by apply elem_of_nil in Hin.
Qed.

Lemma missing_entries_are_absent_and_referenced_witness :
  ∃ st,
    analyze_project_files tree_project default_interest ["r"]
      DEFAULT_FOLDERS_TO_EXCLUDE = Done st
    ∧ ("foo.h", [["r"; "util.c"]])
      ∈ missing_lines (generate_report "Unknown" ["r"] st)
    ∧ ∀ p, p ∈ list_exist st → name p ≠ "foo.h".
Proof.
  exists (pass_state tree_project default_interest ["r"] DEFAULT_FOLDERS_TO_EXCLUDE).
  assert (("foo.h", [["r"; "util.c"]])
          ∈ missing_lines
              (generate_report "Unknown" ["r"]
                 (pass_state tree_project default_interest ["r"]
                    DEFAULT_FOLDERS_TO_EXCLUDE))) as Hin by by_computation.
  split; [exact tree_project_pass|]. split; [exact Hin|].
  exact (proj1 (missing_entries_are_absent_and_referenced tree_project
                  default_interest ["r"] DEFAULT_FOLDERS_TO_EXCLUDE _ "Unknown" "foo.h"
                  [["r"; "util.c"]] tree_project_pass Hin)).
Defined.

(** ** What the root locator returns *)

Lemma iterdir_child (fs : node) (folder : path) (subs : list path) (sub : path) :
  iterdir fs folder = Some subs → sub ∈ subs → ∃ c, sub = folder ++ [c].
Proof.
  unfold iterdir. destruct (stat fs folder) as [[| |[|] es]|]; try done.
  intros [= <-] (e & -> & _)%list_elem_of_fmap. by exists e.1.
Qed.

Section Downward.
Variables (fs : node) (marker_files : list string).

Lemma scan_subs_found (subs : list path) (checked : gset path) (nl : list path)
    (found : path) :
  scan_subs fs marker_files subs checked nl = inl found →
  found ∈ subs ∧ is_marked_dir fs marker_files found = true.
Proof.
  revert checked nl. induction subs as [|sub rest IH]; intros checked nl; simpl; [done|].
  destruct (is_dir fs sub && negb (is_symlink fs sub)) eqn:Hreal; simpl.
  - case_bool_decide as Hnew; simpl.
    + destruct (has_marker fs marker_files sub) eqn:Hm.
      * intros [= <-]. split; [by left|]. unfold is_marked_dir. by rewrite Hreal, Hm.
      * intros Hrec%IH. split; [right|]; apply Hrec.
    + intros Hrec%IH. split; [right|]; apply Hrec.
  - intros Hrec%IH. split; [right|]; apply Hrec.
Qed.

Lemma scan_subs_next (subs : list path) (checked : gset path) (nl : list path)
    (checked' : gset path) (nl' : list path) :
  scan_subs fs marker_files subs checked nl = inr (checked', nl') →
  ∀ x, x ∈ nl' → x ∈ nl ∨ x ∈ subs.
Proof.
  revert checked nl. induction subs as [|sub rest IH]; intros checked nl; simpl.
  { intros [= <- <-] x Hx. by left. }
  destruct (is_dir fs sub && negb (is_symlink fs sub) && bool_decide (sub ∉ checked)).
  - destruct (has_marker fs marker_files sub); [done|].
    intros H x Hx. destruct (IH _ _ H x Hx) as [[Hnl| ->%list_elem_of_singleton]%elem_of_app|Hr].
    + by left.
    + right. by left.
    + right. by right.
  - intros H x Hx. destruct (IH _ _ H x Hx) as [Hnl|Hr]; [by left | right; by right].
Qed.

Lemma scan_level_found (queue : list path) (checked : gset path) (nl : list path)
    (found : path) :
  scan_level fs marker_files queue checked nl = inl found →
  is_marked_dir fs marker_files found = true
  ∧ ∃ q c, q ∈ queue ∧ found = q ++ [c].
Proof.
  revert checked nl. induction queue as [|folder rest IH]; intros checked nl; simpl; [done|].
  destruct (iterdir fs folder) as [subs|] eqn:Hiter.
  - destruct (scan_subs fs marker_files subs checked nl) as [f|[c' nl']] eqn:Hsubs.
    + intros [= <-]. apply scan_subs_found in Hsubs as [Hin Hm]. split; [done|].
      destruct (iterdir_child _ _ _ _ Hiter Hin) as [c ->]. exists folder, c.
      split; [by left | done].
    + intros (Hm & q & c & Hq & ->)%IH. split; [done|]. exists q, c.
      split; [by right | done].
  - intros (Hm & q & c & Hq & ->)%IH. split; [done|]. exists q, c.
    split; [by right | done].
Qed.

Lemma scan_level_next (queue : list path) (checked : gset path) (nl : list path)
    (checked' : gset path) (nl' : list path) :
  scan_level fs marker_files queue checked nl = inr (checked', nl') →
  ∀ x, x ∈ nl' → x ∈ nl ∨ ∃ q c, q ∈ queue ∧ x = q ++ [c].
Proof.
  revert checked nl. induction queue as [|folder rest IH]; intros checked nl; simpl.
  { intros [= <- <-] x Hx. by left. }
  assert (∀ x, (∃ q c, q ∈ rest ∧ x = q ++ [c]) →
               ∃ q c, q ∈ folder :: rest ∧ x = q ++ [c]) as Hrest.
  { intros x (q & c & Hq & ->). exists q, c. split; [by right | done]. }
  destruct (iterdir fs folder) as [subs|] eqn:Hiter.
  - destruct (scan_subs fs marker_files subs checked nl) as [f|[c' nl1]] eqn:Hsubs; [done|].
    intros H x Hx. destruct (IH _ _ H x Hx) as [Hnl1|Hr]; [|right; by apply Hrest].
    destruct (scan_subs_next _ _ _ _ _ Hsubs x Hnl1) as [Hnl|Hin]; [by left|].
    right. destruct (iterdir_child _ _ _ _ Hiter Hin) as [c ->]. exists folder, c.
    split; [by left | done].
  - intros H x Hx. destruct (IH _ _ H x Hx) as [Hnl|Hr]; [by left | right; by apply Hrest].
Qed.

Lemma bfs_found (left : nat) (queue : list path) (checked : gset path) (found : path) :
  bfs fs marker_files left queue checked = inl found →
  is_marked_dir fs marker_files found = true
  ∧ ∃ q s, q ∈ queue ∧ found = q ++ s ∧ 1 ≤ length s ≤ left.
Proof.
  revert queue checked.
  induction left as [|left IH]; intros [|folder queue] checked; cbn [bfs]; try done.
  destruct (scan_level fs marker_files (folder :: queue) checked [])
    as [f|[c' nl]] eqn:Hlevel.
  - intros [= <-]. apply scan_level_found in Hlevel as (Hm & q & c & Hq & ->).
    split; [done|]. exists q, [c]. repeat split; [done | simpl; lia..].
  - intros (Hm & q' & s & Hq' & -> & Hlen)%IH. split; [done|].
    destruct (scan_level_next _ _ _ _ _ Hlevel q' Hq') as [Hnil|(q & c & Hq & ->)];
      [by apply elem_of_nil in Hnil|].
    exists q, (c :: s). rewrite <- app_assoc. repeat split; [done | simpl; lia..].
Qed.

Lemma search_down_found (ups : list path) (checked : gset path) (found : path) :
  search_down fs marker_files ups checked = Some found →
  is_marked_dir fs marker_files found = true
  ∧ ∃ up s, up ∈ ups ∧ found = up ++ s ∧ 1 ≤ length s ≤ MAX_SEARCH_DEPTH.
Proof.
  revert checked. induction ups as [|up rest IH]; intros checked; cbn [search_down]; [done|].
  destruct (bfs fs marker_files MAX_SEARCH_DEPTH [up] checked) as [f|c'] eqn:Hbfs.
  - intros [= <-]. apply bfs_found in Hbfs as (Hm & q & s & Hq & -> & Hlen).
    apply list_elem_of_singleton in Hq as ->. split; [done|]. exists up, s.
    split; [by left | done].
  - intros (Hm & up' & s & Hup & -> & Hlen)%IH. split; [done|]. exists up', s.
    split; [by right | done].
Qed.

End Downward.

Lemma find_project_root_cases (fs : node) (start_path : path)
    (marker_files : list string) (p : path) :
  find_project_root fs start_path marker_files = Some p →
  (p ∈ (ancestor_chain fs start_path).1 ∧ has_marker fs marker_files p = true)
  ∨ (is_marked_dir fs marker_files p = true
     ∧ ∃ up s, up ∈ (ancestor_chain fs start_path).1 ∧ p = up ++ s
               ∧ 1 ≤ length s ≤ MAX_SEARCH_DEPTH).
Proof.
  unfold find_project_root.
  destruct (ancestor_chain fs start_path) as [ups checked]. cbn [fst].
  destruct (List.find (has_marker fs marker_files) ups) as [q|] eqn:Hfind.
  - intros [= <-]. apply find_some in Hfind as [Hin Hm]. left.
    split; [by apply list_elem_of_In | done].
  - intros H%search_down_found. by right.
Qed.

Lemma elem_of_ancestor_chain (fs : node) (start_path up : path) :
  up ∈ (ancestor_chain fs start_path).1 →
  ∃ k, k ≤ MAX_SEARCH_DEPTH ∧ up = Nat.iter k parent (realpath fs start_path).
Proof.
  rewrite ancestor_chain_spec.
  intros (k & -> & Hk%elem_of_seq)%list_elem_of_fmap. exists k. split; [lia | done].
Qed.

(** X9: the root locator never returns a directory without a marker:
    whatever it returns, from the upward or the downward search, holds
    at least one of the marker files. *)
Theorem found_root_holds_marker (fs : node) (start_path : path)
    (marker_files : list string) (p : path) :
  find_project_root fs start_path marker_files = Some p →
  ∃ marker, marker ∈ marker_files ∧ is_file fs (joinpath p marker) = true.
Proof.
  intros Hfound.
  assert (has_marker fs marker_files p = true) as Hm.
  { destruct (find_project_root_cases _ _ _ _ Hfound) as [[_ Hm]|[Hm _]]; [done|].
    unfold is_marked_dir in Hm. by apply andb_true_iff in Hm as [_ Hm]. }
  unfold has_marker in Hm. apply existsb_exists in Hm as (marker & Hin & Hfile).
  exists marker. split; [by apply list_elem_of_In | done].
Qed.

Lemma found_root_holds_marker_witness :
  find_project_root tree_marker_in_build ["w"] DEFAULT_ROOT_MARKER_FILES
  = Some ["w"; "build"]
  ∧ ∃ marker, marker ∈ DEFAULT_ROOT_MARKER_FILES
              ∧ is_file tree_marker_in_build (joinpath ["w"; "build"] marker) = true.
Proof.
  assert (find_project_root tree_marker_in_build ["w"] DEFAULT_ROOT_MARKER_FILES
          = Some ["w"; "build"]) as Hfound by reflexivity.
  split; [exact Hfound|].
  exact (found_root_holds_marker tree_marker_in_build ["w"] DEFAULT_ROOT_MARKER_FILES
           ["w"; "build"] Hfound).
Defined.

(** X10: the search is bounded both ways. The root returned lies at most
    [MAX_SEARCH_DEPTH] levels below one of the at most
    [MAX_SEARCH_DEPTH] nearest ancestors of the resolved start
    directory (the start directory itself included), and a root that
    was found below an ancestor is a real directory, not a symbolic
    link. *)
Theorem found_root_within_bounds (fs : node) (start_path : path)
    (marker_files : list string) (p : path) :
  find_project_root fs start_path marker_files = Some p →
  ∃ k s,
    k ≤ MAX_SEARCH_DEPTH
    ∧ length s ≤ MAX_SEARCH_DEPTH
    ∧ p = Nat.iter k parent (realpath fs start_path) ++ s
    ∧ (s ≠ [] → is_dir fs p = true ∧ is_symlink fs p = false).
Proof.
  intros [[Hin _]|[Hm (up & s & Hin & -> & Hlen)]]%find_project_root_cases.
  - destruct (elem_of_ancestor_chain _ _ _ Hin) as (k & Hk & ->).
    exists k, []. rewrite app_nil_r. repeat split; [done | simpl; lia | done..].
  - destruct (elem_of_ancestor_chain _ _ _ Hin) as (k & Hk & ->).
    exists k, s. repeat split; [done | lia | | ];
      unfold is_marked_dir in Hm;
      apply andb_true_iff in Hm as [[Hd Hs%negb_true_iff]%andb_true_iff _]; done.
Qed.

Lemma found_root_within_bounds_witness :
  find_project_root tree_marker_in_build ["w"] DEFAULT_ROOT_MARKER_FILES
  = Some ["w"; "build"]
  ∧ ∃ k s,
      k ≤ MAX_SEARCH_DEPTH ∧ length s ≤ MAX_SEARCH_DEPTH
      ∧ ["w"; "build"] = Nat.iter k parent (realpath tree_marker_in_build ["w"]) ++ s
      ∧ (s ≠ [] → is_dir tree_marker_in_build ["w"; "build"] = true
                  ∧ is_symlink tree_marker_in_build ["w"; "build"] = false).
Proof.
  assert (find_project_root tree_marker_in_build ["w"] DEFAULT_ROOT_MARKER_FILES
          = Some ["w"; "build"]) as Hfound by reflexivity.
  split; [exact Hfound|].
  exact (found_root_within_bounds tree_marker_in_build ["w"] DEFAULT_ROOT_MARKER_FILES
           ["w"; "build"] Hfound).
Defined.

(** ** The project name *)

Lemma strip_nocase_app (kw l s : string) :
  lower kw = l → Re.strip_nocase l (kw +:+ s) = Some s.
Proof.
  revert l. induction kw as [|c kw IH]; intros l <-; simpl; [by destruct s|].
  rewrite is_char_refl. by apply IH.
Qed.

Lemma word_not_space (c : ascii) : is_word c = true → is_space c = false.
Proof. destruct c as [[] [] [] [] [] [] [] []]; vm_compute; congruence. Qed.

Lemma space_not_word (c : ascii) : is_space c = true → is_word c = false.
Proof. destruct c as [[] [] [] [] [] [] [] []]; vm_compute; congruence. Qed.

Lemma run_ends_spaces_then (ws : string) (c : ascii) (rest : string) :
  all_chars is_space ws = true → is_word c = false →
  run_ends is_word (ws +:+ String c rest).
Proof.
  destruct ws as [|w ws]; simpl; [done|].
  intros [Hw _]%andb_true_iff _. by apply space_not_word.
Qed.

(** A declaration at the start of a line: the keyword in any case, the
    name between parentheses, blanks allowed around each. *)
Lemma match_project_declaration (kw ws1 ws2 nm ws3 rest : string)
    (prev : option ascii) (gopen cap : string) :
  lower kw = "project" →
  all_chars is_space ws1 = true → all_chars is_space ws2 = true →
  nm ≠ EmptyString → all_chars is_word nm = true →
  all_chars is_space ws3 = true →
  Re.match_here project_pattern prev
    (kw +:+ ws1 +:+ "(" +:+ ws2 +:+ nm +:+ ws3 +:+ ")" +:+ rest) gopen cap
  = Some (nm, rest).
Proof.
  intros Hkw Hs1 Hs2 Hnm Hw Hs3.
  unfold project_pattern. cbn [Re.match_here].
  rewrite (strip_nocase_app kw "project") by done.
  apply rep_star_run; [done | by vm_compute |].
  cbn [Re.match_here]. rewrite strip_app.
  apply rep_star_run; [done | |].
  { eapply run_ends_app; [done..|]. apply word_not_space. }
  cbn [Re.match_here].
  apply rep_plus_run; [done | done | |].
  { by apply run_ends_spaces_then. }
  cbn [Re.match_here]. rewrite take_captured.
  apply rep_star_run; [done | by vm_compute |].
  cbn [Re.match_here]. by rewrite strip_app.
Qed.

Lemma first_project_name_skips (pre : list string) (line : string) (post : list string)
    (nm : string) :
  (∀ l, l ∈ pre → Re.search project_pattern l = None) →
  Re.search project_pattern line = Some nm →
  first_project_name (pre ++ line :: post) = Some nm.
Proof.
  intros Hpre Hline. induction pre as [|l pre IH]; simpl.
  - by rewrite Hline.
  - rewrite (Hpre l) by by left. apply IH. intros; apply Hpre. by right.
Qed.

Lemma read_lines_open (fs : node) (p : path) (ls : list string) :
  read_lines fs p = ls → ls ≠ [] → open_lines fs p = Done ls.
Proof.
  unfold read_lines, open_lines, stat.
  destruct (FS.lookup fs p) as [[ls'|t|l es]|]; try (by intros <-).
  by destruct (FS.lookup fs t) as [[ls'|t'|l es]|]; intros <-.
Qed.

(** X12: the project name is read from the first line of the root's
    [CMakeLists.txt] that holds a declaration. For a line that starts
    with the keyword [project] in any letter case, followed by the name
    in parentheses with optional blanks around, and preceded only by
    lines without a declaration, the result is that name. *)
Theorem project_name_from_declaration (fs : node) (root_path : path)
    (pre post : list string) (kw ws1 ws2 nm ws3 rest : string) :
  read_lines fs (root_path ++ ["CMakeLists.txt"])
  = pre ++ (kw +:+ ws1 +:+ "(" +:+ ws2 +:+ nm +:+ ws3 +:+ ")" +:+ rest) :: post →
  (∀ l, l ∈ pre → Re.search project_pattern l = None) →
  lower kw = "project" →
  all_chars is_space ws1 = true → all_chars is_space ws2 = true →
  nm ≠ EmptyString → all_chars is_word nm = true →
  all_chars is_space ws3 = true →
  get_project_name fs root_path = Done nm.
Proof.
  intros Hread Hpre Hkw Hs1 Hs2 Hnm Hw Hs3.
  unfold get_project_name. rewrite (read_lines_open _ _ _ Hread) by by destruct pre.
  rewrite (first_project_name_skips pre _ post nm); [done..|].
  unfold Re.search, Re.findall.
  pose proof (match_project_declaration kw ws1 ws2 nm ws3 rest None EmptyString
                EmptyString Hkw Hs1 Hs2 Hnm Hw Hs3) as Hmatch.
  destruct kw as [|c kw]; [done|].
  change ((String c kw) +:+ ws1 +:+ "(" +:+ ws2 +:+ nm +:+ ws3 +:+ ")" +:+ rest)
    with (String c (kw +:+ ws1 +:+ "(" +:+ ws2 +:+ nm +:+ ws3 +:+ ")" +:+ rest)) in *.
  cbn [Re.scan]. by rewrite Hmatch.
Qed.

Lemma project_name_from_declaration_witness :
  read_lines tree_cmake ["r"; "CMakeLists.txt"]
  = ["cmake_minimum_required(VERSION 3.16)"]
    ++ ("Project" +:+ " " +:+ "(" +:+ " " +:+ "Demo" +:+ " " +:+ ")" +:+ EmptyString)
       :: ["idf_component_register(SRCS main.c util.c)"]
  ∧ get_project_name tree_cmake ["r"] = Done "Demo".
Proof.
  split; [reflexivity|].
  apply (project_name_from_declaration tree_cmake ["r"]
           ["cmake_minimum_required(VERSION 3.16)"]
           ["idf_component_register(SRCS main.c util.c)"]
           "Project" " " " " "Demo" " " EmptyString).
  - reflexivity.
  - intros l ->%list_elem_of_singleton. reflexivity.
  - reflexivity.
  - reflexivity.
  - reflexivity.
  - discriminate.
  - reflexivity.
  - reflexivity.
Defined.

Lemma first_project_name_none (lines : list string) :
  (∀ l, l ∈ lines → Re.search project_pattern l = None) →
  first_project_name lines = None.
Proof.
  induction lines as [|l lines IH]; intros H; simpl; [done|].
  rewrite (H l) by by left. apply IH. intros; apply H. by right.
Qed.

(** X13: the name falls back to [Unknown] when the root has no
    [CMakeLists.txt] (no entry of that name, or a link that leads
    nowhere), and when it is a regular file none of whose lines holds a
    declaration. When it is a directory, or a link to one, opening it
    raises [IsADirectoryError], which nothing catches. *)
Theorem project_name_unknown (fs : node) (root_path : path) :
  let cmake_path := root_path ++ ["CMakeLists.txt"] in
  (stat fs cmake_path = None
   ∨ (∃ lines, stat fs cmake_path = Some (File lines)
        ∧ ∀ l, l ∈ lines → Re.search project_pattern l = None) →
   get_project_name fs root_path = Done "Unknown")
  ∧ (is_dir fs cmake_path = true →
     get_project_name fs root_path = Raised IsADirectoryError).
Proof.
  intros cmake_path. unfold get_project_name, open_lines, is_dir, stat.
  fold cmake_path. split.
  - intros [Hnone|(lines & Hfile & Hlines)].
    + destruct (FS.lookup fs cmake_path) as [[ls|t|l es]|]; try done.
      by rewrite Hnone.
    + destruct (FS.lookup fs cmake_path) as [[ls|t|l es]|]; try done.
      * injection Hfile as ->. by rewrite first_project_name_none.
      * rewrite Hfile. by rewrite first_project_name_none.
  - fold (stat fs cmake_path). fold (is_dir fs cmake_path).
    apply get_project_name_directory.
Qed.

(** A root without a build script, one whose build script declares no
    name, and one in which [CMakeLists.txt] is a directory. *)
Example project_name_fallbacks :
  get_project_name tree_project ["r"] = Done "Unknown"
  ∧ get_project_name
      (Dir true [("r", Dir true [("CMakeLists.txt", File ["add_library(x x.c)"])])])
      ["r"]
    = Done "Unknown"
  ∧ get_project_name tree_cmake_directory ["r"] = Raised IsADirectoryError.
Proof. repeat split; vm_compute; reflexivity. Qed.

(** ** The interest patterns that [main] derives *)

Lemma startswith_star_dot (e : string) : startswith ("*." +:+ e) "*." = true.
Proof. unfold startswith. simpl. by destruct e. Qed.

Lemma cmakelists_not_star (e : string) :
  startswith e "CMakeLists" = true →
  startswith e "*." = false ∧ startswith e "*" = false.
Proof.
  unfold startswith. destruct e as [|c e]; [done|]. cbn [String.prefix].
  destruct (Ascii.ascii_dec "C" c) as [<-|]; [|discriminate]. intros _.
  by destruct (Ascii.ascii_dec "*" "C").
Qed.

Lemma star_dot_is_star (e : string) : startswith ("*." +:+ e) "*" = true.
Proof. unfold startswith. simpl. done. Qed.

(** X14: how [--extensions] is read. Every comma-separated entry that
    does not start with [CMakeLists] becomes the suffix made of a dot
    and the entry, whatever the entry is; the entries that start with
    [CMakeLists] are the only exact file names. So an entry such as
    [Makefile] selects the suffix [.Makefile], not the file name. *)
Theorem interest_from_extensions (args : arguments) (x : string) :
  let spec := interest_of (files_of_interest args) in
  let entries := split_on "," (extensions args) in
  (x ∈ VALID_EXTENSIONS spec
   ↔ ∃ e, e ∈ entries ∧ startswith e "CMakeLists" = false ∧ x = "." +:+ e)
  ∧ (x ∈ VALID_FILENAMES spec
     ↔ x ∈ entries ∧ startswith x "CMakeLists" = true).
Proof.
  intros spec entries. subst spec. unfold interest_of, files_of_interest.
  cbn [VALID_EXTENSIONS VALID_FILENAMES]. fold entries.
  unfold valid_extensions, valid_filenames.
  rewrite !elem_of_list_to_set. split.
  - rewrite list_elem_of_fmap. split.
    + intros (pat & -> & Hpat). apply list_elem_of_In, filter_In in Hpat as [Hin Hstar].
      apply list_elem_of_In, list_elem_of_fmap in Hin as (e & -> & He).
      destruct (startswith e "CMakeLists") eqn:Hc.
      * apply cmakelists_not_star in Hc as [Hc _]. congruence.
      * exists e. done.
    + intros (e & He & Hc & ->). exists ("*." +:+ e). split; [done|].
      apply list_elem_of_In, filter_In. split; [|apply startswith_star_dot].
      apply list_elem_of_In, list_elem_of_fmap. exists e. by rewrite Hc.
  - split.
    + intros [Hin Hstar]%list_elem_of_In%filter_In.
      apply list_elem_of_In, list_elem_of_fmap in Hin as (e & -> & He).
      destruct (startswith e "CMakeLists") eqn:Hc; [done|].
      rewrite star_dot_is_star in Hstar. done.
    + intros [He Hc]. apply list_elem_of_In, filter_In. split.
      * apply list_elem_of_In, list_elem_of_fmap. exists x. by rewrite Hc.
      * apply cmakelists_not_star in Hc as [_ ->]. done.
Qed.

(** ** The statistics *)

Lemma lower_char_dot (c : ascii) : is_char "." (lower_char c) = is_char "." c.
Proof. destruct c as [[] [] [] [] [] [] [] []]; by vm_compute. Qed.

Lemma from_last_dot_lower (s : string) :
  from_last_dot (lower s) = lower <$> from_last_dot s.
Proof.
  induction s as [|c s IH]; simpl; [done|]. rewrite IH.
  destruct (from_last_dot s); simpl; [done|].
  rewrite lower_char_dot. by destruct (is_char "." c).
Qed.

Lemma lower_is_dot (t : string) : lower t = "." ↔ t = ".".
Proof.
  split; [|by intros ->].
  destruct t as [|c [|c' t]]; simpl; try done.
  intros [= Hc]. f_equal.
  destruct c as [[] [] [] [] [] [] [] []]; vm_compute in Hc; congruence.
Qed.

(** Lower-casing a name lower-cases its suffix. *)
Lemma name_suffix_lower (nm : string) :
  name_suffix (lower nm) = lower (name_suffix nm).
Proof.
  destruct nm as [|c rest]; simpl; [done|]. rewrite from_last_dot_lower.
  destruct (from_last_dot rest) as [t|]; simpl; [|done].
  destruct (decide (t = ".")) as [->|Hne].
  - done.
  - rewrite !bool_decide_false; [done | done |]. by rewrite lower_is_dot.
Qed.

Lemma length_filter_cons {A : Type} (P : A → bool) (x : A) (l : list A) :
  length (List.filter P (x :: l))
  = (if P x then 1 else 0) + length (List.filter P l).
Proof. simpl. by destruct (P x). Qed.

(** X15: the statistics never count a file twice. The seven
    per-extension counts (taken on lower-cased suffixes) and the count
    of files named [CMakeLists.txt] in any letter case are disjoint:
    together they never exceed the total of cataloged files. *)
Theorem statistics_do_not_overlap (proj : string) (root_path : path) (st : scan_state) :
  let rep := generate_report proj root_path st in
  sum_list (map snd (suffix_counts rep)) + cmake_count rep ≤ total_count rep.
Proof.
  intros rep. subst rep.
  cbn [generate_report suffix_counts cmake_count total_count map snd sum_list
       sum_list_with].
  unfold count_suffix. generalize (list_exist st). intros l.
  change (lower ".c") with ".c". change (lower ".h") with ".h".
  change (lower ".cmake") with ".cmake". change (lower ".sh") with ".sh".
  change (lower ".json") with ".json". change (lower ".py") with ".py".
  change (lower ".md") with ".md".
  induction l as [|p l IH]; [done|].
  rewrite !length_filter_cons. cbn [length].
  assert (lower (name p) = "cmakelists.txt" → lower (suffix p) = ".txt") as Hcm.
  { intros H. unfold suffix. by rewrite <- name_suffix_lower, H. }
  set (x := lower (suffix p)) in *.
  destruct (bool_decide (lower (name p) = "cmakelists.txt")) eqn:Hname.
  - apply bool_decide_eq_true in Hname. rewrite (Hcm Hname).
    rewrite !bool_decide_false by done. unfold id in *. lia.
  - clear Hcm Hname. unfold id in *. repeat case_bool_decide; try congruence; lia.
Qed.

(** ** The excluded regions *)

Lemma no_go_areas_exact (fs : node) (spec : interest) (root : path)
    (excl : gset string) (x : string) :
  x ∈ no_go_areas (pass_state fs spec root excl)
  ↔ ∃ n cur dirs files d,
      FS.lookup fs root = Some n
      ∧ (cur, dirs, files) ∈ os_walk fs (λ c, bool_decide (c ∉ excl)) root n
      ∧ d ∈ dirs ∧ d ∈ excl ∧ x = str (cur ++ [d]).
Proof.
  unfold pass_state.
  destruct (FS.lookup fs root) as [n|] eqn:Hroot.
  - rewrite (fold_left_or (λ st, x ∈ no_go_areas st)
               (λ item : path * list string * list string,
                  ∃ d, d ∈ item.1.2 ∧ d ∈ excl ∧ x = str (item.1.1 ++ [d]))).
    + cbn [initial_state no_go_areas]. split.
      * intros [H|([[cur dirs] files] & Hin & d & Hd & Hex & ->)];
          [by apply elem_of_nil in H|].
        by exists n, cur, dirs, files, d.
      * intros (n' & cur & dirs & files & d & [= <-] & Hin & Hd & Hex & ->).
        right. exists (cur, dirs, files). split; [done|]. by exists d.
    + intros st [[cur dirs] files]. rewrite visit_dir_no_go. cbn [fst snd].
      rewrite elem_of_app, list_elem_of_fmap. split.
      * intros [H|(d & -> & [Hd Hex]%elem_of_pruned_dirs)]; [by left|].
        right. by exists d.
      * intros [H|(d & Hd & Hex & ->)]; [by left|].
        right. exists d. split; [done|]. by apply elem_of_pruned_dirs.
  - split; [by intros H%elem_of_nil|].
    by intros (n' & ? & ? & ? & ? & ? & _).
Qed.

(** X16: every path reported as an excluded region is the path of an
    entry whose name is in the exclusion set, met in a directory that
    the walk reached from the root through names outside the set.
    Nothing else is ever reported, and what lies below a pruned
    directory is not reported either. *)
Theorem excluded_regions_are_pruned_entries (fs : node) (spec : interest)
    (root_path : path) (exclude_dirs : gset string) (st : scan_state) (x : string) :
  analyze_project_files fs spec root_path exclude_dirs = Done st →
  x ∈ no_go_areas st →
  ∃ s d,
    x = str ((root_path ++ s) ++ [d])
    ∧ d ∈ exclude_dirs
    ∧ Forall (λ c, c ∉ exclude_dirs) s.
Proof.
  intros ->%analyze_project_files_done
    (n & cur & dirs & files & d & Hroot & Hin & Hd & Hex & ->)%no_go_areas_exact.
  destruct (os_walk_below _ _ _ _ _ _ _ Hin) as (s & -> & Hkeep).
  exists s, d. split; [done|]. split; [done|].
  eapply Forall_impl; [exact Hkeep|]. intros c Hc. by apply bool_decide_eq_true in Hc.
Qed.

Lemma excluded_regions_are_pruned_entries_witness :
  ∃ st,
    analyze_project_files tree_project default_interest ["r"]
      DEFAULT_FOLDERS_TO_EXCLUDE = Done st
    ∧ "/r/build" ∈ no_go_areas st
    ∧ ∃ s d, "/r/build" = str ((["r"] ++ s) ++ [d])
             ∧ d ∈ DEFAULT_FOLDERS_TO_EXCLUDE
             ∧ Forall (λ c, c ∉ DEFAULT_FOLDERS_TO_EXCLUDE) s.
Proof.
  exists (pass_state tree_project default_interest ["r"] DEFAULT_FOLDERS_TO_EXCLUDE).
  assert ("/r/build"
          ∈ no_go_areas (pass_state tree_project default_interest ["r"]
                           DEFAULT_FOLDERS_TO_EXCLUDE)) as Hin by by_computation.
  split; [exact tree_project_pass|]. split; [exact Hin|].
  exact (excluded_regions_are_pruned_entries tree_project default_interest ["r"]
           DEFAULT_FOLDERS_TO_EXCLUDE _ "/r/build" tree_project_pass Hin).
Defined.

(** ** The subfolder table *)

Lemma process_files_subfolders (fs : node) (spec : interest) (cur : path)
    (files : list string) (st : scan_state) :
  key_subfolders (fold_left (process_file_done fs spec cur) files st) = key_subfolders st.
Proof.
  revert st. induction files as [|f files IH]; intros st; simpl; [done|].
  rewrite IH. unfold process_file_done. by destruct (is_symlink _ _).
Qed.

Lemma relative_str_below (root s : path) :
  s ≠ [] → relative_str (root ++ s) root = join "/" s.
Proof.
  intros Hs. unfold relative_str. rewrite drop_app_length. by destruct s.
Qed.

(** X17: the subfolder table holds only directories strictly below the
    root, each under its path relative to the root, and none of them has
    an excluded name among its absolute path components; the root itself
    is never an entry. *)
Theorem subfolders_are_below_root (fs : node) (spec : interest) (root_path : path)
    (exclude_dirs : gset string) (st : scan_state) (rel : string) (p : path) :
  analyze_project_files fs spec root_path exclude_dirs = Done st →
  key_subfolders st !! rel = Some p →
  ∃ s,
    s ≠ [] ∧ p = root_path ++ s ∧ rel = join "/" s
    ∧ ∀ x, x ∈ exclude_dirs → x ∉ parts p.
Proof.
  intros ->%analyze_project_files_done. revert rel p.
  set (P := λ (rel : string) (p : path),
         ∃ s, s ≠ [] ∧ p = root_path ++ s ∧ rel = join "/" s
              ∧ ∀ x, x ∈ exclude_dirs → x ∉ parts p).
  change (∀ rel p,
            key_subfolders (pass_state fs spec root_path exclude_dirs)
              !! rel = Some p → P rel p).
  unfold pass_state.
  assert (∀ rel p, key_subfolders initial_state !! rel = Some p → P rel p) as Hinit.
  { intros rel' p'. cbn [initial_state key_subfolders]. by rewrite lookup_empty. }
  destruct (FS.lookup fs root_path) as [n|]; [|done].
  apply (fold_left_inv (λ st, ∀ rel p, key_subfolders st !! rel = Some p → P rel p));
    [|done].
  intros st [[cur dirs] files] Hin Hst. unfold visit_dir_done.
  destruct (in_excluded exclude_dirs cur) eqn:Hexcl; [done|].
  rewrite process_files_subfolders.
  case_bool_decide as Hne; [|done]. cbn [key_subfolders].
  destruct (os_walk_below _ _ _ _ _ _ _ Hin) as (s & -> & _).
  assert (s ≠ []) as Hs by (intros ->; by rewrite app_nil_r in Hne).
  intros rel' p'. rewrite relative_str_below by done.
  destruct (decide (join "/" s = rel')) as [<-|Hk].
  - rewrite lookup_insert_eq. intros [= <-]. exists s.
    repeat split; [done|]. by apply in_excluded_false.
  - rewrite lookup_insert_ne by done. apply Hst.
Qed.

Lemma subfolders_are_below_root_witness :
  ∃ st,
    analyze_project_files tree_project default_interest ["r"]
      DEFAULT_FOLDERS_TO_EXCLUDE = Done st
    ∧ key_subfolders st !! "a" = Some ["r"; "a"]
    ∧ ∃ s, s ≠ [] ∧ ["r"; "a"] = ["r"] ++ s ∧ "a" = join "/" s
           ∧ ∀ x, x ∈ DEFAULT_FOLDERS_TO_EXCLUDE → x ∉ parts ["r"; "a"].
Proof.
  exists (pass_state tree_project default_interest ["r"] DEFAULT_FOLDERS_TO_EXCLUDE).
  assert (key_subfolders (pass_state tree_project default_interest ["r"]
                            DEFAULT_FOLDERS_TO_EXCLUDE) !! "a"
          = Some ["r"; "a"]) as Hin by (by vm_compute).
  split; [exact tree_project_pass|]. split; [exact Hin|].
  exact (subfolders_are_below_root tree_project default_interest ["r"]
           DEFAULT_FOLDERS_TO_EXCLUDE _ "a" ["r"; "a"] tree_project_pass Hin).
Defined.

(** ** The order of the Errors section *)

Lemma str_le_total : Total str_le.
Proof. intros a b. apply String.leb_total. Qed.

(** X18: the orphan and the missing basenames are printed in ascending
    code-point order and each basename once, whatever order the
    underlying sets yield their elements in. *)
Theorem basename_lists_sorted (st : scan_state) :
  Sorted str_le (orphan_basenames st) ∧ NoDup (orphan_basenames st)
  ∧ Sorted str_le (missing_basenames st) ∧ NoDup (missing_basenames st).
Proof.
  unfold orphan_basenames, missing_basenames, sorted_str.
  pose proof str_le_total as Htotal.
  repeat split; try apply Sorted_merge_sort; try done;
    rewrite merge_sort_Permutation; apply NoDup_elements.
Qed.

(** ** The Warnings section and the catalog *)

(** X19: after a scan, a basename has an entry under an extension class
    of the Warnings section exactly when its lower-cased form ends with
    the lower-cased extension and at least two cataloged paths bear it. *)
Theorem warned_iff_two_cataloged (fs : node) (spec : interest) (root_path : path)
    (exclude_dirs : gset string) (st : scan_state) (ext key : string) :
  analyze_project_files fs spec root_path exclude_dirs = Done st →
  key ∈ map fst (duplicates_of (found_files_map st) ext)
  ↔ endswith (lower key) (lower ext) = true
    ∧ 1 < length (bearing key (list_exist st)).
Proof.
  intros ->%analyze_project_files_done.
  set (st := pass_state fs spec root_path exclude_dirs).
  pose proof (analyze_grouped fs spec root_path exclude_dirs key) as Hg. fold st in Hg.
  split.
  - unfold duplicates_of. rewrite map_map. cbn [fst].
    intros ([k paths] & -> & Hin)%list_elem_of_fmap. cbn [fst] in *.
    apply list_elem_of_In, filter_In in Hin as [Hin Hcond]. cbn [fst snd] in Hcond.
    apply andb_true_iff in Hcond as [Hext Hlen%bool_decide_eq_true].
    apply list_elem_of_In in Hin. unfold sorted_items in Hin.
    rewrite merge_sort_Permutation in Hin. apply elem_of_map_to_list in Hin.
    rewrite Hg in Hin. split; [done|].
    destruct (bearing k (list_exist st)); [done|]. by injection Hin as <-.
  - intros [Hext Hlen].
    destruct (duplicates_listed_once (found_files_map st) ext) as [_ Hlisted].
    apply list_elem_of_fmap.
    exists (key, duplicate_paths (bearing key (list_exist st))). split; [done|].
    apply Hlisted; [|done..]. rewrite Hg.
    destruct (bearing key (list_exist st)); [simpl in Hlen; lia | done].
Qed.

Lemma warned_iff_two_cataloged_witness :
  ∃ st,
    analyze_project_files tree_project default_interest ["r"]
      DEFAULT_FOLDERS_TO_EXCLUDE = Done st
    ∧ length (bearing "util.h" (list_exist st)) = 2
    ∧ "util.h" ∈ map fst (duplicates_of (found_files_map st) ".h").
Proof.
  exists (pass_state tree_project default_interest ["r"] DEFAULT_FOLDERS_TO_EXCLUDE).
  assert (length (bearing "util.h"
                    (list_exist (pass_state tree_project default_interest ["r"]
                                   DEFAULT_FOLDERS_TO_EXCLUDE))) = 2) as Hlen
    by (vm_compute; reflexivity).
  split; [exact tree_project_pass|]. split; [exact Hlen|].
  apply (proj2 (warned_iff_two_cataloged tree_project default_interest ["r"]
                  DEFAULT_FOLDERS_TO_EXCLUDE _ ".h" "util.h" tree_project_pass)).
  split; [reflexivity | rewrite Hlen; lia].
Defined.

(** ** What a pattern can capture *)



Section Inversion.
Context {R : Type}.
Variables (cls : ascii → bool) (k : option ascii → string → option R).

Lemma rep_greedy_inv (prev : option ascii) (s : string) (r : R) :
  Re.rep_greedy cls prev s k = Some r →
  ∃ m s', s = m +:+ s' ∧ all_chars cls m = true
          ∧ k (Re.last_char prev m) s' = Some r.
Proof.
  revert prev. induction s as [|c s IH]; intros prev; simpl.
  - intros H. by exists EmptyString, EmptyString.
  - destruct (cls c) eqn:Hc.
    + destruct (Re.rep_greedy cls (Some c) s k) as [r'|] eqn:Hrec.
      * intros [= ->]. destruct (IH _ Hrec) as (m & s' & -> & Hm & Hk).
        exists (String c m), s'. simpl. by rewrite Hc.
      * intros H. by exists EmptyString, (String c s).
    + intros H. by exists EmptyString, (String c s).
Qed.

Lemma rep_lazy_inv (prev : option ascii) (s : string) (r : R) :
  Re.rep_lazy cls prev s k = Some r →
  ∃ m s', s = m +:+ s' ∧ all_chars cls m = true
          ∧ k (Re.last_char prev m) s' = Some r.
Proof.
  revert prev. induction s as [|c s IH]; intros prev; simpl.
  - destruct (k prev EmptyString) as [r'|] eqn:Hk; [|done].
    intros [= ->]. by exists EmptyString, EmptyString.
  - destruct (k prev (String c s)) as [r'|] eqn:Hk.
    + intros [= ->]. by exists EmptyString, (String c s).
    + destruct (cls c) eqn:Hc; [|done].
      intros (m & s' & -> & Hm & Hk')%IH.
      exists (String c m), s'. simpl. by rewrite Hc.
Qed.

Lemma rep_inv (greedy : bool) (least : nat) (prev : option ascii) (s : string) (r : R) :
  Re.rep greedy least cls prev s k = Some r →
  ∃ m s', s = m +:+ s' ∧ all_chars cls m = true ∧ least ≤ String.length m
          ∧ k (Re.last_char prev m) s' = Some r.
Proof.
  revert prev s. induction least as [|least IH]; intros prev s; simpl.
  - destruct greedy; intros H.
    + apply rep_greedy_inv in H as (m & s' & -> & Hm & Hk).
      exists m, s'. repeat split; [done | lia | done].
    + apply rep_lazy_inv in H as (m & s' & -> & Hm & Hk).
      exists m, s'. repeat split; [done | lia | done].
  - destruct s as [|c s]; [done|]. destruct (cls c) eqn:Hc; [|done].
    intros (m & s' & -> & Hm & Hlen & Hk)%IH.
    exists (String c m), s'. simpl. rewrite Hc.
    repeat split; [done | lia | done].
Qed.


End Inversion.

(** Each capture of a scan is the capture of a match at some position. *)
Lemma scan_elem (pat : list Re.atom) (prev : option ascii) (s : string) (skip : nat)
    (x : string) :
  x ∈ Re.scan pat prev s skip →
  ∃ prev' s' rest, Re.match_here pat prev' s' EmptyString EmptyString = Some (x, rest).
Proof.
  revert prev skip. induction s as [|c s IH]; intros prev skip; simpl.
  { by intros H%elem_of_nil. }
  destruct skip as [|skip]; [|apply IH].
  destruct (Re.match_here pat prev (String c s) EmptyString EmptyString)
    as [[cap rest]|] eqn:Hmatch; [|apply IH].
  intros [->|Hx]%elem_of_cons; [by exists prev, (String c s), rest | by eapply IH].
Qed.


Lemma nonempty_of_length (m : string) : 1 ≤ String.length m → m ≠ EmptyString.
Proof. destruct m; simpl; [lia | done]. Qed.

(** X20: whatever the include pattern captures on a line is a non-empty
    text without a double quote, and whatever the import pattern
    captures is a non-empty run of letters, digits, underscores, dots
    and hyphens: an import never yields an empty module name, and the
    recorded basename is that run followed by [.py]. *)
Theorem include_and_import_captures (line x : string) :
  (x ∈ Re.findall include_pattern line →
     x ≠ EmptyString ∧ all_chars not_dquote x = true)
  ∧ (x ∈ Re.findall import_pattern line →
       x ≠ EmptyString ∧ all_chars cmake_name_char x = true).
Proof.
  split; intros (prev & s & rest & H)%scan_elem.
  - unfold include_pattern in H. cbn [Re.match_here] in H.
    destruct (Re.strip "#" s) as [s1|]; [|done].
    apply rep_inv in H as (ws1 & s2 & -> & _ & _ & H). cbn [Re.match_here] in H.
    destruct (Re.strip "include" s2) as [s3|]; [|done].
    apply rep_inv in H as (ws2 & s4 & -> & _ & _ & H). cbn [Re.match_here] in H.
    destruct s4 as [|c s4]; [done|]. destruct (is_char dquote c); [|done].
    apply rep_inv in H as (m & s5 & -> & Hm & Hlen & H). cbn [Re.match_here] in H.
    rewrite take_captured in H.
    destruct s5 as [|c' s5]; [done|]. destruct (is_char dquote c'); [|done].
    injection H as <- _. split; [by apply nonempty_of_length | done].
  - unfold import_pattern in H. cbn [Re.match_here] in H.
    destruct (Re.strip "from" s) as [s1|]; [|done].
    apply rep_inv in H as (ws1 & s2 & -> & _ & _ & H). cbn [Re.match_here] in H.
    apply rep_inv in H as (m & s3 & -> & Hm & Hlen & H). cbn [Re.match_here] in H.
    rewrite take_captured in H.
    apply rep_inv in H as (ws2 & s4 & -> & _ & _ & H). cbn [Re.match_here] in H.
    destruct (Re.strip "import" s4) as [s5|]; [|done].
    injection H as <- _. split; [by apply nonempty_of_length | done].
Qed.



(** ** Reading does not depend on the interest patterns *)

Lemma fold_left_related {A B : Type} (Rel : A → A → Prop) (f g : A → B → A)
    (l : list B) (a b : A) :
  (∀ a b y, Rel a b → Rel (f a y) (g b y)) → Rel a b →
  Rel (fold_left f l a) (fold_left g l b).
Proof.
  intros Hstep. revert a b. induction l as [|y l IH]; intros a b Hab; simpl; [done|].
  apply IH. by apply Hstep.
Qed.

Lemma foldM_alike {A B : Type} (Rel : A → A → Prop) (f g : A → B → outcome A)
    (l : list B) (a b : A) :
  (∀ a b y, Rel a b → end_alike Rel (f a y) (g b y)) → Rel a b →
  end_alike Rel (foldM f l a) (foldM g l b).
Proof.
  intros Hstep. revert a b. induction l as [|y l IH]; intros a b Hab; simpl; [done|].
  specialize (Hstep a b y Hab).
  destruct (f a y) as [a'|e1], (g b y) as [b'|e2]; try done. by apply IH.
Qed.

Lemma process_file_read_part (fs : node) (spec1 spec2 : interest) (cur : path)
    (st1 st2 : scan_state) (filename : string) :
  read_part st1 = read_part st2 →
  end_alike (λ a b, read_part a = read_part b)
    (process_file fs spec1 cur st1 filename) (process_file fs spec2 cur st2 filename).
Proof.
  unfold read_part, process_file. intros [= H1 H2 H3].
  destruct (is_symlink _ _); cbn [list_referenced key_subfolders no_go_areas end_alike];
    [by rewrite H1, H2, H3|].
  rewrite H1, H2, H3.
  destruct (open_lines fs (cur ++ [filename])) as [ls|e].
  - by destruct (foldM _ ls _).
  - by destruct e; cbn [list_referenced key_subfolders no_go_areas end_alike].
Qed.

Lemma visit_dir_read_part (fs : node) (spec1 spec2 : interest) (root : path)
    (excl : gset string) (st1 st2 : scan_state)
    (item : path * list string * list string) :
  read_part st1 = read_part st2 →
  end_alike (λ a b, read_part a = read_part b)
    (visit_dir fs spec1 root excl st1 item) (visit_dir fs spec2 root excl st2 item).
Proof.
  intros H. destruct item as [[cur dirs] files]. unfold visit_dir.
  pose proof H as [= H1 H2 H3].
  destruct (in_excluded excl cur).
  { unfold read_part, record_pruned.
    cbn [list_referenced key_subfolders no_go_areas end_alike]. by rewrite H1, H2, H3. }
  apply (foldM_alike (λ a b, read_part a = read_part b)).
  - intros; by apply process_file_read_part.
  - unfold record_subfolder, record_pruned.
    destruct (bool_decide (cur ≠ root)); unfold read_part;
      cbn [list_referenced key_subfolders no_go_areas]; by rewrite H1, H2, H3.
Qed.

(** X22: a file's content is read whether or not the file matches the
    interest patterns: for every choice of [--extensions] the pass ends
    the same way, and when it completes, with the same reference table,
    subfolder table and excluded regions. A file kind left out of the
    catalog still counts as a source of references. *)
Theorem reading_ignores_interest (fs : node) (spec1 spec2 : interest)
    (root_path : path) (exclude_dirs : gset string) :
  outcome_map read_part (analyze_project_files fs spec1 root_path exclude_dirs)
  = outcome_map read_part (analyze_project_files fs spec2 root_path exclude_dirs).
Proof.
  assert (end_alike (λ a b, read_part a = read_part b)
            (analyze_project_files fs spec1 root_path exclude_dirs)
            (analyze_project_files fs spec2 root_path exclude_dirs)) as H.
  { apply (foldM_alike (λ a b, read_part a = read_part b)); [|done].
    intros; by apply visit_dir_read_part. }
  destruct (analyze_project_files fs spec1 _ _), (analyze_project_files fs spec2 _ _);
    cbn [end_alike outcome_map] in *; try done; by rewrite H.
Qed.

(** ** Cataloging does not depend on what files contain *)

Lemma entry_is_dir_erase (fs : node) (e : string * node) :
  entry_is_dir (erase_contents fs) (e.1, erase_contents e.2) = entry_is_dir fs e.
Proof.
  unfold entry_is_dir. destruct e as [nm [ls|t|l es]]; cbn [fst snd erase_contents];
    [done| |done].
  rewrite lookup_erase. by destruct (FS.lookup fs t) as [[]|].
Qed.

Lemma dir_names_erase (fs : node) (es : list (string * node)) :
  dir_names (erase_contents fs) (map (λ e, (e.1, erase_contents e.2)) es)
  = dir_names fs es.
Proof.
  unfold dir_names. induction es as [|e es IH]; [done|].
  cbn [map List.filter]. rewrite entry_is_dir_erase.
  destruct (entry_is_dir fs e); cbn [map fst]; by rewrite IH.
Qed.

Lemma file_names_erase (fs : node) (es : list (string * node)) :
  file_names (erase_contents fs) (map (λ e, (e.1, erase_contents e.2)) es)
  = file_names fs es.
Proof.
  unfold file_names. induction es as [|e es IH]; [done|].
  cbn [map List.filter]. rewrite entry_is_dir_erase.
  destruct (entry_is_dir fs e); cbn [negb map fst]; by rewrite IH.
Qed.

Lemma os_walk_erase (fs : node) (keep : string → bool) (n : node) :
  ∀ top, os_walk (erase_contents fs) keep top (erase_contents n)
         = os_walk fs keep top n.
Proof.
  induction n as [ls|t|l es IH] using node_ind'; intros top; [done..|].
  destruct l; [|done]. cbn [erase_contents]. rewrite !os_walk_dir.
  rewrite dir_names_erase, file_names_erase. f_equal.
  induction IH as [|[nm sub] es Hsub _ IHes]; [done|].
  cbn [map flat_map]. rewrite IHes. f_equal.
  unfold descend_entry. cbn [fst snd] in *.
  destruct sub as [ls|t|l' es']; [done..|].
  cbn [erase_contents]. destruct (keep nm); [|done]. apply Hsub.
Qed.

Lemma process_file_catalog_part (fs : node) (spec : interest) (cur : path)
    (st1 st2 : scan_state) (filename : string) :
  catalog_part st1 = catalog_part st2 →
  catalog_part (process_file_done (erase_contents fs) spec cur st1 filename)
  = catalog_part (process_file_done fs spec cur st2 filename).
Proof.
  unfold catalog_part, process_file_done. intros [= H1 H2].
  destruct (same_view_erase fs (cur ++ [filename])) as (_ & _ & <- & _).
  destruct (is_symlink _ _); cbn [list_exist found_files_map]; by rewrite H1, H2.
Qed.

Lemma visit_dir_catalog_part (fs : node) (spec : interest) (root : path)
    (excl : gset string) (st1 st2 : scan_state)
    (item : path * list string * list string) :
  catalog_part st1 = catalog_part st2 →
  catalog_part (visit_dir_done (erase_contents fs) spec root excl st1 item)
  = catalog_part (visit_dir_done fs spec root excl st2 item).
Proof.
  intros H. destruct item as [[cur dirs] files]. unfold visit_dir_done.
  pose proof H as [= H1 H2].
  destruct (in_excluded excl cur).
  { unfold catalog_part. cbn [list_exist found_files_map]. by rewrite H1, H2. }
  apply (fold_left_related (λ a b, catalog_part a = catalog_part b)).
  - intros; by apply process_file_catalog_part.
  - destruct (bool_decide (cur ≠ root)); unfold catalog_part;
      cbn [list_exist found_files_map]; by rewrite H1, H2.
Qed.

Lemma catalog_part_of_pass (fs : node) (spec : interest) (root : path)
    (excl : gset string) :
  catalog_part (pass_state (erase_contents fs) spec root excl)
  = catalog_part (pass_state fs spec root excl).
Proof.
  unfold pass_state. rewrite lookup_erase.
  destruct (FS.lookup fs root) as [n|]; [|done]. cbn [fmap option_fmap option_map].
  rewrite os_walk_erase.
  apply (fold_left_related (λ a b, catalog_part a = catalog_part b)); [|done].
  intros; by apply visit_dir_catalog_part.
Qed.

Lemma open_lines_erase (fs : node) (p : path) :
  open_lines (erase_contents fs) p
  = match open_lines fs p with
    | Done _ => Done []
    | Raised e => Raised e
    end.
Proof.
  unfold open_lines. rewrite lookup_erase.
  destruct (FS.lookup fs p) as [[ls|t|l es]|]; try done.
  cbn [fmap option_fmap option_map erase_contents]. rewrite lookup_erase.
  by destruct (FS.lookup fs t) as [[ls|t'|l es]|].
Qed.

Lemma walked_erase (fs : node) (root : path) (excl : gset string) :
  walked (erase_contents fs) root excl = walked fs root excl.
Proof.
  unfold walked. rewrite lookup_erase.
  destruct (FS.lookup fs root) as [n|]; [|done]. cbn [fmap option_fmap option_map].
  apply os_walk_erase.
Qed.

(** The pass on the emptied tree completes whenever the pass on the
    tree does: it opens the same files and reads no line. *)
Lemma analyze_erase_completes (fs : node) (spec : interest) (root : path)
    (excl : gset string) (st : scan_state) :
  analyze_project_files fs spec root excl = Done st →
  ∃ st', analyze_project_files (erase_contents fs) spec root excl = Done st'.
Proof.
  unfold analyze_project_files. rewrite walked_erase. intros Hdone.
  assert (∀ cur (a c : scan_state) f b,
            process_file fs spec cur a f = Done b →
            ∃ d, process_file (erase_contents fs) spec cur c f = Done d ∧ True)
    as Hfile.
  { intros cur a c f b. unfold process_file.
    destruct (same_view_erase fs (cur ++ [f])) as (_ & _ & <- & _).
    destruct (is_symlink fs (cur ++ [f])); [by eauto|].
    rewrite open_lines_erase.
    destruct (open_lines fs (cur ++ [f])) as [ls|e]; [by eauto|].
    destruct e; by eauto. }
  assert (∀ (a c : scan_state) item b,
            visit_dir fs spec root excl a item = Done b →
            ∃ d, visit_dir (erase_contents fs) spec root excl c item = Done d ∧ True)
    as Hvisit.
  { intros a c [[cur dirs] files] b. unfold visit_dir.
    destruct (in_excluded excl cur); [by eauto|]. intros Hfiles.
    exact (foldM_follows (λ _ _, True) _ _ _ _ _ _
             (λ a c f b _ _, Hfile cur a c f b) I Hfiles). }
  destruct (foldM_follows (λ _ _, True) _ _ _ _ _ initial_state
              (λ a c x b _ _, Hvisit a c x b) I Hdone) as (st' & Hst' & _).
  by eauto.
Qed.

(** X23: what is cataloged depends on the names and kinds of the
    entries only, never on what the files contain: when the pass
    completes, so does the pass on the tree with every regular file
    emptied, and it leaves the existence list and the basename map, and
    with them the statistics and the duplicate warnings, unchanged. *)
Theorem catalog_ignores_contents (fs : node) (spec : interest) (root_path : path)
    (exclude_dirs : gset string) (st : scan_state) :
  analyze_project_files fs spec root_path exclude_dirs = Done st →
  ∃ st',
    analyze_project_files (erase_contents fs) spec root_path exclude_dirs = Done st'
    ∧ catalog_part st' = catalog_part st.
Proof.
  intros Hdone. destruct (analyze_erase_completes _ _ _ _ _ Hdone) as [st' Hst'].
  exists st'. split; [done|].
  apply analyze_project_files_done in Hdone as ->.
  apply analyze_project_files_done in Hst' as ->.
  apply catalog_part_of_pass.
Qed.

Lemma catalog_ignores_contents_witness :
  ∃ st st',
    analyze_project_files tree_project default_interest ["r"]
      DEFAULT_FOLDERS_TO_EXCLUDE = Done st
    ∧ analyze_project_files (erase_contents tree_project) default_interest ["r"]
        DEFAULT_FOLDERS_TO_EXCLUDE = Done st'
    ∧ list_referenced st ≠ list_referenced st'
    ∧ catalog_part st' = catalog_part st.
Proof.
  exists (pass_state tree_project default_interest ["r"] DEFAULT_FOLDERS_TO_EXCLUDE).
  destruct (catalog_ignores_contents tree_project default_interest ["r"]
              DEFAULT_FOLDERS_TO_EXCLUDE _ tree_project_pass) as (st' & Hst' & Hcat).
  exists st'. split; [exact tree_project_pass|]. split; [exact Hst'|].
  split; [|exact Hcat].
  apply analyze_project_files_done in Hst' as ->. by vm_compute.
Defined.

(** ** A report and its root *)

(** X24: a run that prints a report exits with code 0, the root named in
    the report is the one the root locator returned and holds a marker
    file, and every path the Errors section prints, orphan or
    referencing file, lies below that root. *)
Theorem report_is_about_located_root (fs : node) (cwd : path) (args : arguments)
    (code : nat) (rep : report) :
  main fs cwd args = (code, Some rep) →
  code = 0
  ∧ find_project_root fs (realpath fs cwd) (split_on "," (marker_files args))
    = Some (project_root rep)
  ∧ has_marker fs (split_on "," (marker_files args)) (project_root rep) = true
  ∧ (∀ p, p ∈ orphan_lines rep → ∃ s, p = project_root rep ++ s)
  ∧ (∀ key files who,
       (key, files) ∈ missing_lines rep → who ∈ files →
       ∃ s, who = project_root rep ++ s).
Proof.
  unfold main.
  destruct (find_project_root fs (realpath fs cwd) (split_on "," (marker_files args)))
    as [root|] eqn:Hfound; [|done].
  destruct (get_project_name fs root) as [proj|e]; [|done].
  set (spec := interest_of (files_of_interest args)).
  set (excl := list_to_set (split_on "," (exclude_dirs args)) : gset string).
  destruct (analyze_project_files fs spec root excl) as [st0|e] eqn:Hpass; [|done].
  apply analyze_project_files_done in Hpass as ->.
  intros [= <- <-]. cbn [generate_report project_root].
  split; [done|]. split; [done|]. split.
  { destruct (find_project_root_cases _ _ _ _ Hfound) as [[_ Hm]|[Hm _]]; [done|].
    unfold is_marked_dir in Hm. by apply andb_true_iff in Hm as [_ Hm]. }
  set (st := pass_state fs spec root excl).
  split.
  - intros p (nm & _ & Hp)%elem_of_orphan_lines.
    rewrite (grouped_default _ _ (analyze_grouped fs spec root excl)) in Hp.
    apply elem_of_bearing in Hp as [Hp _].
    apply list_exist_exact in Hp as [Hproc _].
    destruct (processed_below _ _ _ _ Hproc) as (s & f & -> & _).
    exists (s ++ [f]). by rewrite app_assoc.
  - intros key files who. cbn [missing_lines].
    intros (nm & [= <- ->] & _)%list_elem_of_fmap Hwho.
    apply elem_of_sorted_paths, elem_of_elements in Hwho.
    apply (list_referenced_exact fs spec root excl key who) in Hwho as [Hproc _].
    destruct (processed_below _ _ _ _ Hproc) as (s & f & -> & _).
    exists (s ++ [f]). by rewrite app_assoc.
Qed.

Lemma report_is_about_located_root_witness :
  ∃ rep,
    main tree_project ["r"; "a"] default_arguments = (0, Some rep)
    ∧ project_root rep = ["r"]
    ∧ ∀ p, p ∈ orphan_lines rep → ∃ s, p = project_root rep ++ s.
Proof.
  assert (main tree_project ["r"; "a"] default_arguments
          = (0, Some (generate_report "Unknown" ["r"]
                        (pass_state tree_project default_interest ["r"]
                           DEFAULT_FOLDERS_TO_EXCLUDE)))) as Hrun
    by (vm_compute; reflexivity).
  eexists. split; [exact Hrun|]. split; [reflexivity|].
  exact (proj1 (proj2 (proj2 (proj2
           (report_is_about_located_root tree_project ["r"; "a"] default_arguments
              0 _ Hrun))))).
Defined.
